(** * finn-property-scraper: a shallow embedding and its specification

    The first part embeds the code, module by module:

    - [Py]         the fragment of the Python runtime the code relies on:
                   exceptions, [str] methods, [int()], the values built
                   by [json], [urllib.parse] quoting, and the table of
                   CPython's [set];
    - [Meta]       [schemas/realestate_metadata.py];
    - [Schema]     [schemas/property.py];
    - [Zendriver]  the page engine, as the code queries it;
    - [Parser]     [parsers/property_page_parser.py];
    - [Scraper]    [scraper.py].

    [Ref] then words the contracts of the specification and fixes the
    concrete pages, services and inputs used below, and the remaining
    modules state and prove the properties, one module for each
    component.

    Python [str] values are modelled as [string]; a character is read as
    the code point of the same number, so the model covers the code
    points U+0000..U+00FF.  In that range the only decimal digits are
    ['0'..'9'] and the white space of [str.strip] / [\s] is the set
    listed in [Py.isspace]. *)

From Stdlib Require Import Bool Arith ZArith NArith Lia List Ascii String.
From Stdlib Require Import Floats.PrimFloat DecimalString Permutation.
Import ListNotations.
Local Open Scope string_scope.

(** ** The Python runtime *)

Module Py.

(** Exceptions that occur in the modelled code.  All of them derive from
    [Exception], so a bare [except Exception] catches each of them.
    [ValidationError] is what pydantic raises when a model cannot be
    built; no [except] clause of the code names it or a class above it
    around such a call. *)
Inductive exn : Type :=
| ValueError
| TypeError
| AttributeError
| KeyError
| IndexError
| TimeoutError
| ProtocolException
| ClientError
| JSONDecodeError
| GeometryError
| ValidationError.

(** The outcome of running a piece of Python: a value or a raised
    exception. *)
Inductive result (A : Type) : Type :=
| Ret (a : A)
| Raise (e : exn).
Arguments Ret {A} a.
Arguments Raise {A} e.

Definition bind {A B} (r : result A) (k : A -> result B) : result B :=
  match r with
  | Ret a => k a
  | Raise e => Raise e
  end.

Definition exn_eqb (a b : exn) : bool :=
  match a, b with
  | ValueError, ValueError | TypeError, TypeError
  | AttributeError, AttributeError | KeyError, KeyError
  | IndexError, IndexError | TimeoutError, TimeoutError
  | ProtocolException, ProtocolException | ClientError, ClientError
  | JSONDecodeError, JSONDecodeError | GeometryError, GeometryError
  | ValidationError, ValidationError => true
  | _, _ => false
  end.

(** [try: r  except cls: h]; any other exception propagates. *)
Definition try_except_only {A} (cls : exn) (r : result A) (h : result A)
  : result A :=
  match r with
  | Ret a => Ret a
  | Raise e => if exn_eqb e cls then h else Raise e
  end.

Declare Scope py_scope.
Delimit Scope py_scope with py.
Notation "x <- c ;; k" := (bind c (fun x => k))
  (at level 61, c at next level, right associativity) : py_scope.

(** *** Characters *)

Definition code (c : ascii) : N := N_of_ascii c.

(** [\d] and [[0-9]]. *)
Definition isdigit (c : ascii) : bool :=
  ((48 <=? code c) && (code c <=? 57))%N.

(** [[a-zA-Z]]. *)
Definition isalpha_ascii (c : ascii) : bool :=
  (((65 <=? code c) && (code c <=? 90)) ||
   ((97 <=? code c) && (code c <=? 122)))%N.

(** White space as [str.isspace], [str.strip()] and [\s] see it:
    TAB LF VT FF CR, FS GS RS US, SPACE, NEL and NBSP. *)
Definition isspace (c : ascii) : bool :=
  (((9 <=? code c) && (code c <=? 13)) ||
   ((28 <=? code c) && (code c <=? 32)) ||
   (code c =? 133) || (code c =? 160))%N.

Definition newline : ascii := ascii_of_N 10.

(** What [.] matches without [re.DOTALL]: anything but a line feed. *)
Definition isdot (c : ascii) : bool := negb (Ascii.eqb c newline).

(** [str.lower()] on one character. *)
Definition lower_char (c : ascii) : ascii :=
  let n := code c in
  if (((65 <=? n) && (n <=? 90)) ||
      ((192 <=? n) && (n <=? 222) && negb (n =? 215)))%N
  then ascii_of_N (n + 32) else c.

(** *** Strings *)

(** Truthiness of a [str]: the empty string is falsy. *)
Definition str_truthy (s : string) : bool :=
  match s with EmptyString => false | String _ _ => true end.

(** Truthiness of an [Optional[str]]. *)
Definition opt_truthy (o : option string) : bool :=
  match o with None => false | Some s => str_truthy s end.

Fixpoint str_filter (p : ascii -> bool) (s : string) : string :=
  match s with
  | EmptyString => EmptyString
  | String c s' => if p c then String c (str_filter p s') else str_filter p s'
  end.

Fixpoint str_map (f : ascii -> ascii) (s : string) : string :=
  match s with
  | EmptyString => EmptyString
  | String c s' => String (f c) (str_map f s')
  end.

Fixpoint str_forall (p : ascii -> bool) (s : string) : bool :=
  match s with
  | EmptyString => true
  | String c s' => p c && str_forall p s'
  end.

(** The longest prefix whose characters satisfy [p], and what follows. *)
Fixpoint span (p : ascii -> bool) (s : string) : string * string :=
  match s with
  | EmptyString => (EmptyString, EmptyString)
  | String c s' =>
      if p c then let '(a, b) := span p s' in (String c a, b)
      else (EmptyString, s)
  end.

Definition lower (s : string) : string := str_map lower_char s.

Fixpoint lstrip (s : string) : string :=
  match s with
  | EmptyString => EmptyString
  | String c s' => if isspace c then lstrip s' else s
  end.

Fixpoint rstrip (s : string) : string :=
  match s with
  | EmptyString => EmptyString
  | String c s' =>
      match rstrip s' with
      | EmptyString => if isspace c then EmptyString else String c EmptyString
      | r => String c r
      end
  end.

(** [s.strip()] *)
Definition strip (s : string) : string := rstrip (lstrip s).

(** [s.split(sep)] for a one-character separator: never empty. *)
Fixpoint split (sep : ascii) (s : string) : list string :=
  match s with
  | EmptyString => [EmptyString]
  | String c s' =>
      if Ascii.eqb c sep then EmptyString :: split sep s'
      else match split sep s' with
           | [] => [String c EmptyString]
           | p :: ps => String c p :: ps
           end
  end.

(** [s.replace(a, b)] for single characters. *)
Definition replace_char (a b : ascii) (s : string) : string :=
  str_map (fun c => if Ascii.eqb c a then b else c) s.

(** *** [int()] *)

Definition digit_value (c : ascii) : Z := Z.of_N (code c) - 48.

Fixpoint digits_value (acc : Z) (s : string) : Z :=
  match s with
  | EmptyString => acc
  | String c s' => digits_value (10 * acc + digit_value c) s'
  end.

(** [sys.int_info.default_max_str_digits]: the interpreter refuses to
    convert a decimal string with more digits than this and raises
    [ValueError].  The repository needs a 3.12 interpreter (it nests
    double quotes inside a double-quoted f-string in [property.py]) and
    never changes the limit. *)
Definition int_max_str_digits : nat := 4300.

(** The digits of an [int()] literal after the sign: decimal digits,
    single underscores allowed between two digits. *)
Fixpoint int_body_ok (prev_digit : bool) (s : string) : bool :=
  match s with
  | EmptyString => prev_digit
  | String c s' =>
      if isdigit c then int_body_ok true s'
      else if Ascii.eqb c "_" then prev_digit && int_body_ok false s'
      else false
  end.

(** The white space [int()] drops around its literal.  It is not that of
    [str.strip]: the separators U+001C to U+001F are kept, and make the
    literal invalid. *)
Definition int_space (c : ascii) : bool :=
  (((9 <=? code c) && (code c <=? 13)) || (code c =? 32)
   || (code c =? 133) || (code c =? 160))%N.

Fixpoint int_lstrip (s : string) : string :=
  match s with
  | EmptyString => EmptyString
  | String c s' => if int_space c then int_lstrip s' else s
  end.

Fixpoint int_rstrip (s : string) : string :=
  match s with
  | EmptyString => EmptyString
  | String c s' =>
      match int_rstrip s' with
      | EmptyString => if int_space c then EmptyString else String c EmptyString
      | r => String c r
      end
  end.

(** [int(s)] on a [str]: surrounding white space is dropped, one sign is
    accepted, and the digit count is checked against the limit. *)
Definition int_of_str (s : string) : result Z :=
  let t := int_rstrip (int_lstrip s) in
  let '(sign, body) :=
    match t with
    | String "-" r => ((-1)%Z, r)
    | String "+" r => (1%Z, r)
    | _ => (1%Z, t)
    end in
  if int_body_ok false body then
    let ds := str_filter isdigit body in
    if Nat.ltb int_max_str_digits (String.length ds) then Raise ValueError
    else Ret (sign * digits_value 0 ds)%Z
  else Raise ValueError.

(** [int(x)] on an [Optional[str]]: [int(None)] is a [TypeError]. *)
Definition int_of_opt (o : option string) : result Z :=
  match o with
  | None => Raise TypeError
  | Some s => int_of_str s
  end.

(** The argument of a [float()] call that matched [\d+(?:\.\d+)?]: the
    integral digits and, when present, the fractional digits.  [float]
    accepts every such literal, whatever its length. *)
Record float_literal : Type := FloatLit {
  integral : string;
  fractional : option string
}.


(** *** Values built by [json.load] / [response.json()] *)

Set Warnings "-register-all".

(** Python objects as the [json] module builds them.  [VNone] is [None];
    a [dict] keeps its items in insertion order with distinct keys. *)
Inductive value : Type :=
| VNone
| VBool (b : bool)
| VInt (z : Z)
| VFloat (f : float)
| VStr (s : string)
| VList (l : list value)
| VDict (items : list (string * value)).

(** [bool(v)]: [None], [False], zero, and empty containers are falsy.
    A float is falsy exactly when it compares equal to [0.0] (so [-0.0]
    is falsy and NaN is truthy). *)
Definition truthy (v : value) : bool :=
  match v with
  | VNone => false
  | VBool b => b
  | VInt z => negb (Z.eqb z 0)
  | VFloat f => negb (PrimFloat.eqb f 0%float)
  | VStr s => str_truthy s
  | VList l => match l with [] => false | _ :: _ => true end
  | VDict items => match items with [] => false | _ :: _ => true end
  end.

(** [v is not None] *)
Definition is_not_none (v : value) : bool :=
  match v with VNone => false | _ => true end.

Fixpoint lookup (k : string) (items : list (string * value)) : option value :=
  match items with
  | [] => None
  | (k', v) :: rest => if String.eqb k k' then Some v else lookup k rest
  end.

(** [v.get(k, default)]: only a [dict] has the method. *)
Definition get_default (v : value) (k : string) (default : value)
  : result value :=
  match v with
  | VDict items =>
      Ret (match lookup k items with Some x => x | None => default end)
  | _ => Raise AttributeError
  end.

(** [v.get(k)] *)
Definition get (v : value) (k : string) : result value :=
  get_default v k VNone.

(** [v[k]] for a [str] key. *)
Definition getitem (v : value) (k : string) : result value :=
  match v with
  | VDict items =>
      match lookup k items with Some x => Ret x | None => Raise KeyError end
  | _ => Raise TypeError
  end.

(** [v[0]] *)
Definition getitem0 (v : value) : result value :=
  match v with
  | VList (x :: _) => Ret x
  | VList [] => Raise IndexError
  | VStr (String c _) => Ret (VStr (String c EmptyString))
  | VStr EmptyString => Raise IndexError
  | VDict _ => Raise KeyError
  | _ => Raise TypeError
  end.

(** [len(v)] *)
Definition len (v : value) : result Z :=
  match v with
  | VList l => Ret (Z.of_nat (List.length l))
  | VStr s => Ret (Z.of_nat (String.length s))
  | VDict items => Ret (Z.of_nat (List.length items))
  | _ => Raise TypeError
  end.

Fixpoint chars (s : string) : list value :=
  match s with
  | EmptyString => []
  | String c s' => VStr (String c EmptyString) :: chars s'
  end.

(** [iter(v)]: what a [for] loop over [v] visits. *)
Definition iterate (v : value) : result (list value) :=
  match v with
  | VList l => Ret l
  | VDict items => Ret (map (fun kv => VStr (fst kv)) items)
  | VStr s => Ret (chars s)
  | _ => Raise TypeError
  end.

(** *** [urllib.parse.quote] *)

Definition hex_digit (n : N) : ascii :=
  if (n <? 10)%N then ascii_of_N (48 + n) else ascii_of_N (55 + n).

Definition percent (byte : N) : string :=
  String "%" (String (hex_digit (byte / 16)) (String (hex_digit (byte mod 16)) "")).

(** The bytes [quote] never escapes: letters, digits and [_.-~]. *)
Definition unreserved (c : ascii) : bool :=
  isalpha_ascii c || isdigit c || Ascii.eqb c "_" || Ascii.eqb c "."
  || Ascii.eqb c "-" || Ascii.eqb c "~".

(** One character under [quote(s, safe)]: kept when unreserved or safe,
    otherwise its UTF-8 bytes, each as [%XX]. *)
Definition quote_char (safe : ascii -> bool) (c : ascii) : string :=
  if unreserved c || safe c then String c ""
  else if (code c <? 128)%N then percent (code c)
  else percent (192 + code c / 64) ++ percent (128 + code c mod 64).

Fixpoint quote_with (safe : ascii -> bool) (s : string) : string :=
  match s with
  | EmptyString => EmptyString
  | String c s' => quote_char safe c ++ quote_with safe s'
  end.

(** [quote(s)], whose default [safe] is ["/"]. *)
Definition quote (s : string) : string :=
  quote_with (fun c => Ascii.eqb c "/") s.

(** [quote_plus(s)]: spaces become [+], nothing else is safe. *)
Fixpoint quote_plus (s : string) : string :=
  match s with
  | EmptyString => EmptyString
  | String c s' =>
      (if Ascii.eqb c " " then "+" else quote_char (fun _ => false) c)
      ++ quote_plus s'
  end.

(** [sep.join(parts)] *)
Fixpoint join (sep : string) (parts : list string) : string :=
  match parts with
  | [] => EmptyString
  | [p] => p
  | p :: rest => p ++ sep ++ join sep rest
  end.


(** *** [set]: CPython's open-addressing table ([Objects/setobject.c])

    The iteration order of a set is the order of its table, so the table
    is modelled as it is laid out.  Only insertion is needed: the code
    never removes an element, so there are no dummy entries and [fill]
    equals [used]. *)

Section SetObject.

Local Open Scope Z_scope.

Context {A : Type}.
(** [__eq__] and [hash()] of the elements. *)
Variable eqb : A -> A -> bool.
Variable hash : A -> Z.

Definition PySet_MINSIZE : Z := 8.
Definition LINEAR_PROBES : nat := 9.
Definition PERTURB_SHIFT : Z := 5.

(** [(size_t)h] for a [Py_hash_t]. *)
Definition to_size_t (h : Z) : Z := h mod 2 ^ 64.

Inductive setentry : Type :=
| Unused
| Active (h : Z) (key : A).

Record setobject : Type := SetObject {
  table : list setentry;
  mask : Z;
  fill : Z;
  used : Z
}.

Definition entry_at (t : list setentry) (i : Z) : setentry :=
  nth (Z.to_nat i) t Unused.

Fixpoint store (t : list setentry) (i : nat) (e : setentry)
  : list setentry :=
  match t, i with
  | [], _ => []
  | _ :: rest, O => e :: rest
  | x :: rest, S i' => x :: store rest i' e
  end.

(** A fresh table of [n] unused entries. *)
Definition empty_table (n : Z) : list setentry := repeat Unused (Z.to_nat n).

Definition set_new : setobject :=
  SetObject (empty_table PySet_MINSIZE) (PySet_MINSIZE - 1) 0 0.

Inductive probe : Type :=
| FoundUnused (i : Z)
| FoundActive
| Collision.

(** The [do { ... entry++; } while (probes--)] run of [set_add_entry]
    starting at slot [i]. *)
Fixpoint probe_run (t : list setentry) (key : A) (h : Z) (i : Z)
  (probes : nat) : probe :=
  match entry_at t i with
  | Unused => FoundUnused i
  | Active h' k =>
      if Z.eqb h' h && eqb k key then FoundActive
      else match probes with
           | O => Collision
           | S p => probe_run t key h (i + 1) p
           end
  end.

(** The same run in [set_insert_clean], which compares no keys. *)
Fixpoint probe_clean (t : list setentry) (i : Z) (probes : nat) : option Z :=
  match entry_at t i with
  | Unused => Some i
  | Active _ _ =>
      match probes with
      | O => None
      | S p => probe_clean t (i + 1) p
      end
  end.

Definition probes_at (i m : Z) : nat :=
  if (i + Z.of_nat LINEAR_PROBES <=? m)%Z then LINEAR_PROBES else O.

(** [i = (i * 5 + 1 + perturb) & mask] in [size_t] arithmetic. *)
Definition next_slot (i perturb m : Z) : Z :=
  Z.land (to_size_t (i * 5 + 1 + perturb)) m.

(** [set_insert_clean(table, mask, key, hash)]; [fuel] bounds the
    [while (1)] loop. *)
Fixpoint set_insert_clean (fuel : nat) (t : list setentry) (m : Z)
  (key : A) (h : Z) (i perturb : Z) : option (list setentry) :=
  match fuel with
  | O => None
  | S fuel' =>
      match probe_clean t i (probes_at i m) with
      | Some j => Some (store t (Z.to_nat j) (Active h key))
      | None =>
          let perturb := Z.shiftr perturb PERTURB_SHIFT in
          set_insert_clean fuel' t m key h (next_slot i perturb m) perturb
      end
  end.

(** The smallest power of two above [minused], from [PySet_MINSIZE]. *)
Fixpoint grow (fuel : nat) (newsize minused : Z) : Z :=
  match fuel with
  | O => newsize
  | S fuel' =>
      if (newsize <=? minused)%Z then grow fuel' (newsize * 2) minused
      else newsize
  end.

(** Enough iterations for any probe sequence of a table with [m + 1]
    slots, one of them unused: the perturbation dies out after thirteen
    shifts of a 64-bit hash and the recurrence then visits every slot. *)
Definition probe_fuel (m : Z) : nat := (14 + Z.to_nat (m + 1))%nat.

(** [set_table_resize(so, minused)]: all entries are reinserted in table
    order.  ([set_add_entry] calls it with [minused >= 20], so the new
    table is never the small table the set started with.) *)
Definition set_table_resize (so : setobject) (minused : Z)
  : option setobject :=
  let newsize := grow 64 PySet_MINSIZE minused in
  let newmask := newsize - 1 in
  let reinsert (acc : option (list setentry)) (e : setentry) :=
    match acc, e with
    | None, _ => None
    | Some t, Unused => Some t
    | Some t, Active h key =>
        set_insert_clean (probe_fuel newmask) t newmask key h
          (Z.land (to_size_t h) newmask) (to_size_t h)
    end in
  match fold_left reinsert (table so) (Some (empty_table newsize)) with
  | Some t => Some (SetObject t newmask (used so) (used so))
  | None => None
  end.

(** The [while (1)] loop of [set_add_entry]. *)
Fixpoint set_add_loop (fuel : nat) (so : setobject) (key : A) (h : Z)
  (i perturb : Z) : option setobject :=
  match fuel with
  | O => None
  | S fuel' =>
      match probe_run (table so) key h i (probes_at i (mask so)) with
      | FoundActive => Some so
      | FoundUnused j =>
          let so' := SetObject (store (table so) (Z.to_nat j) (Active h key))
                       (mask so) (fill so + 1) (used so + 1) in
          if (fill so' * 5 <? mask so' * 3)%Z then Some so'
          else set_table_resize so'
                 (if (50000 <? used so')%Z then used so' * 2
                  else used so' * 4)
      | Collision =>
          let perturb := Z.shiftr perturb PERTURB_SHIFT in
          set_add_loop fuel' so key h (next_slot i perturb (mask so)) perturb
      end
  end.

(** [set_add_key(so, key)] *)
Definition set_add_key (so : setobject) (key : A) : option setobject :=
  let h := hash key in
  set_add_loop (probe_fuel (mask so)) so key h
    (Z.land (to_size_t h) (mask so)) (to_size_t h).

(** [set(iterable)]: the elements are added in iteration order.  [None]
    only when a probe loop exhausts its fuel. *)
Definition set_of_list (xs : list A) : option setobject :=
  fold_left (fun acc x =>
               match acc with
               | Some so => set_add_key so x
               | None => None
               end) xs (Some set_new).

(** [list(so)]: the active entries in table order. *)
Definition set_to_list (so : setobject) : list A :=
  flat_map (fun e => match e with Unused => [] | Active _ k => [k] end)
    (table so).

(** [list(set(xs))] *)
Definition list_set (xs : list A) : option (list A) :=
  option_map set_to_list (set_of_list xs).

End SetObject.

Arguments Unused {A}.
Arguments Active {A} h key.

(** [hash(s)] for a [str] is keyed by a per-process secret
    ([PYTHONHASHSEED], random unless configured), so the function is a
    parameter [seed] of a run.  The interpreter returns a [Py_hash_t],
    never [-1], and [0] for the empty string. *)
Definition hash_str (seed : string -> Z) (s : string) : Z :=
  match s with
  | EmptyString => 0%Z
  | String _ _ =>
      let w := ((seed s + 2 ^ 63) mod 2 ^ 64 - 2 ^ 63)%Z in
      if Z.eqb w (-1) then (-2)%Z else w
  end.

End Py.

Import Py.
Local Open Scope py_scope.

(** ** schemas/realestate_metadata.py *)

Module Meta.

Record RealestateMetadata : Type := {
  url : string;
  category : string;
  finn_id : string
}.

Definition __eq__ (self other : RealestateMetadata) : bool :=
  String.eqb (finn_id self) (finn_id other).

(** [hash(self.finn_id)] under the string hash of the running process. *)
Definition __hash__ (seed : string -> Z) (self : RealestateMetadata) : Z :=
  hash_str seed (finn_id self).

End Meta.

(** ** schemas/property.py *)

Module Schema.

(** The fields are not validated on assignment, so [lat], [lon] and
    [neighbourhood] hold whatever object the resolvers store; [VNone]
    is the default [None]. *)
Record Address : Type := {
  line : option string;
  postal_code : option string;
  city : option string;
  lat : value;
  lon : value;
  neighbourhood : value
}.

(** [Address(line=..., postal_code=..., city=...)] *)
Definition new_address (line postal_code city : option string) : Address :=
  {| line := line; postal_code := postal_code; city := city;
     lat := VNone; lon := VNone; neighbourhood := VNone |}.

Definition set_lat_lon (self : Address) (la lo : value) : Address :=
  {| line := line self; postal_code := postal_code self; city := city self;
     lat := la; lon := lo; neighbourhood := neighbourhood self |}.

Definition set_neighbourhood (self : Address) (n : value) : Address :=
  {| line := line self; postal_code := postal_code self; city := city self;
     lat := lat self; lon := lon self; neighbourhood := n |}.

(** What the geocoding request comes back with: [status] and the outcome
    of [await response.json()]. *)
Module aiohttp.
Record response : Type := {
  status : Z;
  json : result value
}.
End aiohttp.

Definition present (o : option string) : list string :=
  match o with
  | Some s => if str_truthy s then [s] else []
  | None => []
  end.

Definition search_parts (self : Address) : list string :=
  present (line self) ++ present (postal_code self) ++ present (city self).

Definition geonorge_url (search_string : string) : string :=
  "https://ws.geonorge.no/adresser/v1/sok?sok=" ++ quote search_string.

(** The body of [if response.status == 200:] up to the assignment: the
    coordinates to store, if any.  The [print] evaluates both [.get]
    calls on [rep_punkt] before [rep_punkt] is tested. *)
Definition first_point (data : value) : result (option (value * value)) :=
  adresser <- get data "adresser" ;;
  nonempty <- (if truthy adresser
               then a <- getitem data "adresser" ;;
                    n <- len a ;; Ret (0 <? n)%Z
               else Ret false) ;;
  if nonempty : bool then
    a <- getitem data "adresser" ;;
    first <- getitem0 a ;;
    rep_punkt <- get first "representasjonspunkt" ;;
    _ <- get rep_punkt "lat" ;;
    _ <- get rep_punkt "lon" ;;
    if truthy rep_punkt then
      la <- get rep_punkt "lat" ;;
      if is_not_none la then
        lo <- get rep_punkt "lon" ;;
        if is_not_none lo then Ret (Some (la, lo)) else Ret None
      else Ret None
    else Ret None
  else Ret None.

(** [Address.resolve_lat_long]; [session_get] is the geocoding service as
    reached through [aiohttp].  The result is the address after the call
    and what the call returns or raises. *)
Definition resolve_lat_long (session_get : string -> result aiohttp.response)
  (self : Address) : Address * result (option (value * value)) :=
  match search_parts self with
  | [] => (self, Ret None)
  | parts =>
      let search_string := join " " parts in
      let url := geonorge_url search_string in
      let attempt :=
        response <- session_get url ;;
        if (aiohttp.status response =? 200)%Z then
          data <- aiohttp.json response ;;
          first_point data
        else Ret None in
      match attempt with
      | Ret (Some (la, lo)) => (set_lat_lon self la lo, Ret (Some (la, lo)))
      | Ret None => (self, Ret None)
      | Raise _ => (self, Ret None)
      end
  end.

(** [shapely] is taken as given: building a point, building a geometry
    from a GeoJSON mapping, and the containment predicate, each of which
    may raise. *)
Section Geometry.

Variables point geometry : Type.
Variable Point : value -> value -> result point.
Variable shape : value -> result geometry.
Variable contains : geometry -> point -> result bool.

(** The containment tests a call performs, in order. *)
Definition tests : Type := list (geometry * point).

(** The body of the [try] for one feature: the tests it runs and the
    label to assign, if the polygon contains the point. *)
Definition visit (pt : point) (feature : value)
  : tests * result (option value) :=
  match (g <- getitem feature "geometry" ;; shape g) with
  | Raise e => ([], Raise e)
  | Ret polygon =>
      ([(polygon, pt)],
       inside <- contains polygon pt ;;
       if inside : bool then
         properties <- getitem feature "properties" ;;
         neigh <- get properties "neighbourhood" ;;
         Ret (Some neigh)
       else Ret None)
  end.

(** The [for] loop: [except Exception: continue] drops a failing
    feature and goes on. *)
Fixpoint visit_all (pt : point) (features : list value) (self : Address)
  (done : tests) : Address * tests :=
  match features with
  | [] => (self, done)
  | feature :: rest =>
      let '(ts, r) := visit pt feature in
      let self' := match r with
                   | Ret (Some neigh) => set_neighbourhood self neigh
                   | Ret None => self
                   | Raise _ => self
                   end in
      visit_all pt rest self' (done ++ ts)%list
  end.

(** [Address.find_neighbourhood]: the address after the call, the
    containment tests performed, and the (always [None]) result. *)
Definition find_neighbourhood (self : Address) (geojson_data : value)
  : Address * tests * result unit :=
  if negb (truthy (lat self)) || negb (truthy (lon self))
  then (self, [], Ret tt)
  else
    match Point (lon self) (lat self) with
    | Raise e => (self, [], Raise e)
    | Ret pt =>
        match (fs <- get_default geojson_data "features" (VList []) ;;
               iterate fs) with
        | Raise e => (self, [], Raise e)
        | Ret features =>
            let '(self', ts) := visit_all pt features self [] in
            (self', ts, Ret tt)
        end
    end.

End Geometry.

(** The fields of [Property] that are given values when one is built;
    [scraped_at] and [raw_meta] are not among them. *)
Record Property : Type := {
  title : option string;
  subtitle : option string;
  description_raw : option string;
  category : option string;
  address : option Address;
  asking_price : option Z;
  total_price : option Z;
  transaction_costs : option Z;
  communal_fees : option Z;
  assessed_wealth_value : option Z;
  shared_debt : option Z;
  shared_equity : option Z;
  property_type : option string;
  ownership_type : option string;
  bedrooms : option Z;
  rooms : option Z;
  floor : option Z;
  year_built : option Z;
  energy_label : option string;
  area_bra_i : option float_literal;
  area_bra : option float_literal;
  plot_area : option float_literal;
  facilities : option (list string);
  finn_code : option string;
  url : option string;
  status : option string
}.

(** The fields of [Property] declared without a default.  The model is a
    pydantic 2 model (it is dumped with [model_dump_json]), and there a
    field annotated [X | None] with no default is required;
    [scraped_at] has a default factory. *)
Definition Property_required : list string :=
  ["title"; "subtitle"; "description_raw"; "category"; "address";
   "asking_price"; "total_price"; "transaction_costs"; "communal_fees";
   "assessed_wealth_value"; "shared_debt"; "shared_equity";
   "property_type"; "ownership_type"; "bedrooms"; "rooms"; "floor";
   "year_built"; "energy_label"; "area_bra_i"; "area_bra"; "plot_area";
   "facilities"; "finn_code"; "url"; "status"; "raw_meta"].

(** [Property(...)] called with the keyword arguments named [keywords]:
    validation fails when a required field is not among them.  The
    values the parser passes have the declared types. *)
Definition new_property (keywords : list string) (fields : Property)
  : result Property :=
  if forallb (fun f => existsb (String.eqb f) keywords) Property_required
  then Ret fields
  else Raise ValidationError.

End Schema.

(** ** The page engine ([zendriver])

    A rendered page answers selector queries; each query and each read of
    an element's text may raise. *)

Module Zendriver.

Record Element : Type := {
  text : result (option string);
  text_content : result (option string);
  attrs : list (string * string)
}.

Record Tab : Type := {
  select : string -> result (option Element);
  select_all : string -> result (option (list Element))
}.

(** [element.attrs[name]] *)
Fixpoint attr (name : string) (items : list (string * string))
  : result string :=
  match items with
  | [] => Raise KeyError
  | (k, v) :: rest => if String.eqb name k then Ret v else attr name rest
  end.

(** A double quote, for selectors. *)
Definition dq : string := String (ascii_of_N 34) EmptyString.

(** [[data-testid="name"]] *)
Definition testid (name : string) : string :=
  "[data-testid=" ++ dq ++ name ++ dq ++ "]".

End Zendriver.

(** ** parsers/property_page_parser.py *)

Module Parser.

(** *** Regular expressions of the module *)

(** [_NUM = re.compile(r"[^\d]")]: the characters [_NUM.sub] removes. *)
Definition _NUM (c : ascii) : bool := negb (isdigit c).

(** [_FLOAT = re.compile(r"[^\d,.\-]")]. *)
Definition _FLOAT (c : ascii) : bool :=
  negb (isdigit c || Ascii.eqb c "," || Ascii.eqb c "." || Ascii.eqb c "-").

(** [pattern.sub("", s)] for a one-character class. *)
Definition re_sub_empty (cls : ascii -> bool) (s : string) : string :=
  str_filter (fun c => negb (cls c)) s.

(** [re.search(r"(\d+)", s)]: group 1 of the leftmost match, the first
    maximal run of digits. *)
Fixpoint search_digits (s : string) : option string :=
  match s with
  | EmptyString => None
  | String c s' =>
      if isdigit c then Some (fst (span isdigit s)) else search_digits s'
  end.

(** The optional group [(?:\.\d+)?] tried at [s]: the digits after the
    dot when the group matches. *)
Definition match_fraction (s : string) : option string :=
  match s with
  | String "." r =>
      match fst (span isdigit r) with
      | EmptyString => None
      | f => Some f
      end
  | _ => None
  end.

(** [re.search(r"(\d+(?:\.\d+)?)", s)]: group 1 of the leftmost match. *)
Fixpoint search_decimal (s : string) : option float_literal :=
  match s with
  | EmptyString => None
  | String c s' =>
      if isdigit c then
        let '(ip, rest) := span isdigit s in
        Some (FloatLit ip (match_fraction rest))
      else search_decimal s'
  end.

(** [.+] at the start of [s]: greedy, nothing follows it in the pattern. *)
Definition match_dot_plus (s : string) : option string :=
  match fst (span isdot s) with
  | EmptyString => None
  | g => Some g
  end.

(** [\s+(.+)] at the start of [s].  The greedy [\s+] first tries to take
    one more white-space character and gives it back when the rest of
    the pattern then fails. *)
Fixpoint match_spaces_rest (s : string) : option string :=
  match s with
  | EmptyString => None
  | String c s' =>
      if isspace c then
        match match_spaces_rest s' with
        | Some g => Some g
        | None => match_dot_plus s'
        end
      else None
  end.

(** [(\d{4})\s+(.+)] anchored at the start of [s]: groups 1 and 2. *)
Definition match_postal_city (s : string) : option (string * string) :=
  match s with
  | String a (String b (String c (String d r))) =>
      if isdigit a && isdigit b && isdigit c && isdigit d then
        match match_spaces_rest r with
        | Some g => Some (String a (String b (String c (String d ""))), g)
        | None => None
        end
      else None
  | _ => None
  end.

(** [re.search(r"(\d{4})\s+(.+)", s)]: the leftmost position at which the
    pattern matches. *)
Fixpoint search_postal_city (s : string) : option (string * string) :=
  match match_postal_city s with
  | Some m => Some m
  | None =>
      match s with
      | EmptyString => None
      | String _ s' => search_postal_city s'
      end
  end.

(** *** Normalisers *)

Definition _clean (s : option string) : option string :=
  if negb (opt_truthy s) then None
  else match s with
       | None => None
       | Some s =>
           let s := strip s in
           if str_truthy s then Some s else None
       end.

Definition _to_int (s : option string) : result (option Z) :=
  match s with
  | None => Ret None
  | Some s =>
      if negb (str_truthy s) then Ret None
      else
        let digits := re_sub_empty _NUM s in
        if negb (str_truthy digits) then Ret None
        else
          try_except_only ValueError
            (n <- int_of_str digits ;; Ret (Some n))
            (Ret None)
  end.

Definition _to_float_m2 (s : option string) : result (option float_literal) :=
  match s with
  | None => Ret None
  | Some s =>
      if negb (str_truthy s) then Ret None
      else
        let cleaned := replace_char "," "." (re_sub_empty _FLOAT s) in
        match search_decimal cleaned with
        | None => Ret None
        | Some m => Ret (Some m)
        end
  end.

Definition _to_int_safe (s : option string) : result (option Z) :=
  match s with
  | None => Ret None
  | Some s =>
      if negb (str_truthy s) then Ret None
      else
        match search_digits s with
        | Some g => n <- int_of_str g ;; Ret (Some n)
        | None => Ret None
        end
  end.

Definition address_parts : Type :=
  (option string * option string * option string)%type.

Definition _split_address (addr : option string) : address_parts :=
  match addr with
  | None => (None, None, None)
  | Some addr =>
      if negb (str_truthy addr) then (None, None, None)
      else
        match map strip (split "," addr) with
        | [] => (None, None, None)
        | [p0] =>
            match search_postal_city p0 with
            | Some (g1, g2) => (None, Some g1, Some (strip g2))
            | None => (Some p0, None, None)
            end
        | p0 :: p1 :: _ =>
            match search_postal_city p1 with
            | Some (g1, g2) => (Some p0, Some g1, Some (strip g2))
            | None => (Some p0, None, None)
            end
        end
  end.


(** *** Page queries *)

Import Zendriver.

(** The text of an element as [_text] and [_all_texts] read it: [el.text],
    and [el.text_content()] when that raises; [None] when both raise. *)
Definition element_text (el : Element) : option string :=
  match text el with
  | Ret t => t
  | Raise _ =>
      match text_content el with
      | Ret t => t
      | Raise _ => None
      end
  end.

Definition _text (tab : Tab) (selector : string) : result (option string) :=
  el <- try_except_only TimeoutError
          (e <- select tab selector ;; Ret (Some e))
          (Ret None) ;;
  match el with
  | None => Ret None                     (* [except asyncio.TimeoutError] *)
  | Some None => Ret None                (* [if not el] *)
  | Some (Some el) => Ret (_clean (element_text el))
  end.

Fixpoint cleaned_texts (els : list Element) : list string :=
  match els with
  | [] => []
  | el :: rest =>
      match _clean (element_text el) with
      | Some t => t :: cleaned_texts rest
      | None => cleaned_texts rest
      end
  end.

Definition _all_texts (tab : Tab) (selector : string) : result (list string) :=
  els <- try_except_only ProtocolException
           (try_except_only TimeoutError
              (e <- select_all tab selector ;; Ret (Some e))
              (Ret None))
           (Ret None) ;;
  match els with
  | None => Ret []
  | Some None => Ret []                   (* [els or []] *)
  | Some (Some els) => Ret (cleaned_texts els)
  end.

(** The [for] loop of [_status]. *)
Fixpoint status_of_texts (texts : list string) : string :=
  match texts with
  | [] => "active"
  | t :: rest =>
      if str_truthy t && String.eqb (lower (strip t)) "solgt" then "sold"
      else status_of_texts rest
  end.

Definition _status (tab : Tab) : result (option string) :=
  texts <- _all_texts tab (testid "object-details" ++ " *") ;;
  Ret (Some (status_of_texts texts)).

(** *** main parse *)

Section ParsePage.

Variables point geometry : Type.
Variable Point : value -> value -> result point.
Variable shape : value -> result geometry.
Variable contains : geometry -> point -> result bool.
(** [browser.get(url)] and the geocoding service. *)
Variable browser_get : string -> result Tab.
Variable session_get : string -> result Schema.aiohttp.response.

(** The body of [parse_property_page] up to the call [Property(...)]:
    the values of the keyword arguments. *)
Definition parsed_fields (meta : Meta.RealestateMetadata)
  (neighbourhoods_geojson : value) : result Schema.Property :=
  tab <- browser_get (Meta.url meta) ;;
  title <- _text tab (testid "object-title" ++ " h1") ;;
  subtitle <- _text tab (testid "object-title" ++ " " ++ testid "local-area-name") ;;
  status_val <- _status tab ;;
  address_line <- _text tab (testid "map-link" ++ " " ++ testid "object-address") ;;
  let '(line, postal_code, city) := _split_address address_line in
  let address := Schema.new_address line postal_code city in
  let address := fst (Schema.resolve_lat_long session_get address) in
  address <- (if truthy neighbourhoods_geojson then
                let '(a, _, r) :=
                  Schema.find_neighbourhood point geometry Point shape contains
                    address neighbourhoods_geojson in
                _ <- r ;; Ret a
              else Ret address) ;;
  description_raw <- _text tab (testid "om boligen" ++ " .description-area") ;;
  asking_price <- bind (_text tab (testid "pricing-incicative-price" ++ " .text-28, "
                           ++ testid "pricing-incicative-price" ++ " .font-bold")) _to_int ;;
  total_price <- bind (_text tab (testid "pricing-total-price" ++ " dd")) _to_int ;;
  transaction_costs <- bind (_text tab (testid "pricing-registration-charge" ++ " dd")) _to_int ;;
  shared_debt <- bind (_text tab (testid "pricing-joint-debt" ++ " dd")) _to_int ;;
  communal_fees <- bind (_text tab (testid "pricing-common-monthly-cost" ++ " dd")) _to_int ;;
  shared_equity <- bind (_text tab (testid "pricing-collective-assets" ++ " dd")) _to_int ;;
  assessed_wealth_value <- bind (_text tab (testid "pricing-tax-value" ++ " dd")) _to_int ;;
  property_type <- _text tab (testid "info-property-type" ++ " dd") ;;
  ownership_type <- _text tab (testid "info-ownership-type" ++ " dd") ;;
  bedrooms <- bind (_text tab (testid "info-bedrooms" ++ " dd")) _to_int_safe ;;
  rooms <- bind (_text tab (testid "info-rooms" ++ " dd")) _to_int_safe ;;
  floor <- bind (_text tab (testid "info-floor" ++ " dd")) _to_int_safe ;;
  year_built <- bind (_text tab (testid "info-construction-year" ++ " dd")) _to_int_safe ;;
  energy_label <- _text tab (testid "energy-label" ++ " " ++ testid "energy-label-info") ;;
  area_bra_i <- bind (_text tab (testid "info-usable-i-area" ++ " dd")) _to_float_m2 ;;
  area_bra <- bind (_text tab (testid "info-usable-area" ++ " dd")) _to_float_m2 ;;
  plot_area <- bind (_text tab (testid "info-plot-area" ++ " dd")) _to_float_m2 ;;
  facilities <- _all_texts tab (testid "object-facilities") ;;
  let facilities := match facilities with [] => None | l => Some l end in
  Ret {| Schema.title := _clean title;
         Schema.subtitle := _clean subtitle;
         Schema.description_raw := description_raw;
         Schema.category := _clean (Some (Meta.category meta));
         Schema.address := Some address;
         Schema.asking_price := asking_price;
         Schema.total_price := total_price;
         Schema.transaction_costs := transaction_costs;
         Schema.communal_fees := communal_fees;
         Schema.assessed_wealth_value := assessed_wealth_value;
         Schema.shared_debt := shared_debt;
         Schema.shared_equity := shared_equity;
         Schema.property_type := _clean property_type;
         Schema.ownership_type := _clean ownership_type;
         Schema.bedrooms := bedrooms;
         Schema.rooms := rooms;
         Schema.floor := floor;
         Schema.year_built := year_built;
         Schema.energy_label := _clean energy_label;
         Schema.area_bra_i := area_bra_i;
         Schema.area_bra := area_bra;
         Schema.plot_area := plot_area;
         Schema.facilities := facilities;
         Schema.finn_code := _clean (Some (Meta.finn_id meta));
         Schema.url := _clean (Some (Meta.url meta));
         Schema.status := status_val |}.

(** The keyword arguments of the call [Property(...)], as written. *)
Definition passed_keywords : list string :=
  ["title"; "subtitle"; "description_raw"; "category"; "address";
   "asking_price"; "total_price"; "transaction_costs"; "communal_fees";
   "assessed_wealth_value"; "shared_debt"; "shared_equity";
   "property_type"; "ownership_type"; "bedrooms"; "rooms"; "floor";
   "year_built"; "energy_label"; "area_bra_i"; "area_bra"; "plot_area";
   "facilities"; "finn_code"; "url"; "status"].

Definition parse_property_page (meta : Meta.RealestateMetadata)
  (neighbourhoods_geojson : value) : result Schema.Property :=
  fields <- parsed_fields meta neighbourhoods_geojson ;;
  Schema.new_property passed_keywords fields.

End ParsePage.

End Parser.

(** ** scraper.py *)

Module Scraper.

Import Zendriver.

Definition FINN_BASE_URL : string :=
  "https://www.finn.no/realestate/homes/search.html?filters".

(** [str(n)] for an [int]. *)
Definition str_of_int (n : Z) : string :=
  NilZero.string_of_int (Z.to_int n).

(** A [dict[str, str]] in insertion order. *)
Definition dict : Type := list (string * string).

(** [d[k] = v]: an existing key keeps its place. *)
Fixpoint setitem (k v : string) (d : dict) : dict :=
  match d with
  | [] => [(k, v)]
  | (k', v') :: rest =>
      if String.eqb k k' then (k, v) :: rest else (k', v') :: setitem k v rest
  end.

(** [urllib.parse.urlencode(d)] *)
Definition urlencode (d : dict) : string :=
  join "&" (map (fun kv => quote_plus (fst kv) ++ "=" ++ quote_plus (snd kv)) d).

Definition _generate_base_url (filters : dict) : string :=
  match filters with
  | [] => FINN_BASE_URL
  | _ => FINN_BASE_URL ++ "&" ++ urlencode filters
  end.

(** *** [REALESTATE_PATTERN] *)

(** [s] without the literal prefix [p], when it starts with it. *)
Fixpoint strip_prefix (p s : string) : option string :=
  match p, s with
  | EmptyString, _ => Some s
  | String a p', String b s' =>
      if Ascii.eqb a b then strip_prefix p' s' else None
  | String _ _, EmptyString => None
  end.

(** [$] without [re.MULTILINE]: the end of the string, or just before a
    line feed that ends it. *)
Definition at_end (s : string) : bool :=
  match s with
  | EmptyString => true
  | String c EmptyString => Ascii.eqb c newline
  | _ => false
  end.

(** [/realestate/(?P<cat>[a-zA-Z]+)/ad\.html\?finnkode=(?P<finncode>[0-9]+)$]
    at the start of [s].  A class followed by a character outside it can
    only match with its longest run. *)
Definition match_path (s : string) : option (string * string) :=
  match strip_prefix "/realestate/" s with
  | None => None
  | Some s1 =>
      let '(cat, s2) := span isalpha_ascii s1 in
      if str_truthy cat then
        match strip_prefix "/ad.html?finnkode=" s2 with
        | None => None
        | Some s3 =>
            let '(finncode, s4) := span isdigit s3 in
            if str_truthy finncode && at_end s4 then Some (cat, finncode)
            else None
        end
      else None
  end.

(** [REALESTATE_PATTERN.match(url)]: the groups [cat] and [finncode].
    The optional origin is tried first, then skipped. *)
Definition REALESTATE_PATTERN_match (url : string) : option (string * string) :=
  match strip_prefix "https://www.finn.no" url with
  | Some rest =>
      match match_path rest with
      | Some m => Some m
      | None => match_path url
      end
  | None => match_path url
  end.

(** The loop body of [_find_realestate_meta] for one anchor. *)
Definition harvest_href (url : string) : list Meta.RealestateMetadata :=
  match REALESTATE_PATTERN_match url with
  | Some (cat, finncode) =>
      [ {| Meta.url := "https://www.finn.no" ++ url;
           Meta.category := cat;
           Meta.finn_id := finncode |} ]
  | None => []
  end.

Fixpoint harvest (a_element : list Element)
  : result (list Meta.RealestateMetadata) :=
  match a_element with
  | [] => Ret []
  | element :: rest =>
      url <- attr "href" (attrs element) ;;
      meta <- harvest rest ;;
      Ret (harvest_href url ++ meta)%list
  end.

(** Iterating over what [select_all] returned: [None] is not iterable. *)
Definition elements (r : option (list Element)) : result (list Element) :=
  match r with
  | Some els => Ret els
  | None => Raise TypeError
  end.

Definition _find_realestate_meta (tab : Tab)
  : result (list Meta.RealestateMetadata) :=
  a_element <- select_all tab "a[href]" ;;
  els <- elements a_element ;;
  harvest els.

(** [int(el.text)] *)
Definition int_text (el : Element) : result Z :=
  t <- text el ;; int_of_opt t.

Fixpoint int_texts (els : list Element) : result (list Z) :=
  match els with
  | [] => Ret []
  | el :: rest =>
      n <- int_text el ;;
      ns <- int_texts rest ;;
      Ret (n :: ns)
  end.

(** [max(xs)]: [ValueError] on an empty list. *)
Definition max_of (xs : list Z) : result Z :=
  match xs with
  | [] => Raise ValueError
  | x :: rest => Ret (fold_left Z.max rest x)
  end.

Definition _has_more_pages (tab : Tab) : result bool :=
  current_page_element <- select tab ("a[aria-current=" ++ dq ++ "page" ++ dq ++ "]") ;;
  current_page <- match current_page_element with
                  | Some el => int_text el
                  | None => Raise AttributeError
                  end ;;
  all_page_elements <- select_all tab ("a[aria-label^=" ++ dq ++ "Side " ++ dq ++ "]") ;;
  els <- elements all_page_elements ;;
  all_pages <- int_texts els ;;
  max_page <- max_of all_pages ;;
  Ret (max_page >=? current_page)%Z.

(** *** [scrape] *)

(** Why the [while True] loop was left. *)
Inductive stop : Type :=
| NoMorePages                    (* [if not await _has_more_pages(tab): break] *)
| MaxPagesReached                (* [if max_pages and page >= max_pages: break] *)
| PageError (e : exn).           (* [except Exception] *)

Record crawl : Type := {
  reason : stop;
  page : Z;
  property_meta : list Meta.RealestateMetadata
}.

(** [if max_pages and page >= max_pages] for [max_pages: int | None]. *)
Definition max_pages_reached (max_pages : option Z) (page : Z) : bool :=
  match max_pages with
  | Some m => negb (m =? 0)%Z && (page >=? m)%Z
  | None => false
  end.

Section Scrape.

Variables point geometry : Type.
Variable Point : value -> value -> result point.
Variable shape : value -> result geometry.
Variable contains : geometry -> point -> result bool.
Variable browser_get : string -> result Tab.
Variable session_get : string -> result Schema.aiohttp.response.
(** The string hash of the process. *)
Variable seed : string -> Z.

(** The URL requested for [page]. *)
Definition page_url (filters : dict) (page : Z) : string :=
  _generate_base_url (setitem "page" (str_of_int page) filters).

(** The crawl loop from [page] on; [fuel] bounds the number of pages
    loaded, [None] means the bound was hit with the loop still running. *)
Fixpoint crawl_loop (fuel : nat) (filters : dict) (max_pages : option Z)
  (page : Z) (property_meta : list Meta.RealestateMetadata) : option crawl :=
  match fuel with
  | O => None
  | S fuel' =>
      match (tab <- browser_get (page_url filters page) ;;
             meta_for_page <- _find_realestate_meta tab ;;
             Ret (tab, meta_for_page)) with
      | Raise e => Some {| reason := PageError e; page := page;
                           property_meta := property_meta |}
      | Ret (tab, meta_for_page) =>
          let property_meta := (property_meta ++ meta_for_page)%list in
          match _has_more_pages tab with
          | Raise e => Some {| reason := PageError e; page := page;
                               property_meta := property_meta |}
          | Ret false => Some {| reason := NoMorePages; page := page;
                                 property_meta := property_meta |}
          | Ret true =>
              if max_pages_reached max_pages page
              then Some {| reason := MaxPagesReached; page := page;
                           property_meta := property_meta |}
              else crawl_loop fuel' filters max_pages (page + 1) property_meta
          end
      end
  end.

(** [properties = list(set(property_meta))] *)
Definition deduplicate (property_meta : list Meta.RealestateMetadata)
  : option (list Meta.RealestateMetadata) :=
  list_set Meta.__eq__ (Meta.__hash__ seed) property_meta.

(** The [for property in properties] loop: a listing whose page fails to
    parse is dropped. *)
Fixpoint parse_all (neighbourhoods : value)
  (properties : list Meta.RealestateMetadata) : list Schema.Property :=
  match properties with
  | [] => []
  | property :: rest =>
      match Parser.parse_property_page point geometry Point shape contains
              browser_get session_get property neighbourhoods with
      | Ret parsed => parsed :: parse_all neighbourhoods rest
      | Raise _ => parse_all neighbourhoods rest
      end
  end.

(** The listings of a run in the order in which its [for] loop takes
    them: the variable [properties]. *)
Definition properties (fuel : nat) (filters : dict) (max_pages : option Z)
  : option (list Meta.RealestateMetadata) :=
  match crawl_loop fuel filters max_pages 1 [] with
  | None => None
  | Some c => deduplicate (property_meta c)
  end.

(** [scrape], up to the list handed to the exporters. *)
Definition scrape (fuel : nat) (filters : dict) (max_pages : option Z)
  (neighbourhoods : value) : option (list Schema.Property) :=
  match properties fuel filters max_pages with
  | None => None
  | Some properties => Some (parse_all neighbourhoods properties)
  end.

End Scrape.

End Scraper.

(** ** parsers/csv_exporter.py *)

Module CsvExporter.

Import Schema.

(** [_CATEGORICAL_COLS] *)
Definition _CATEGORICAL_COLS : list string :=
  ["category"; "property_type"; "ownership_type"; "energy_label"; "status"].

(** [_NUMERIC_COLS] *)
Definition _NUMERIC_COLS : list string :=
  ["asking_price"; "total_price"; "transaction_costs"; "communal_fees";
   "assessed_wealth_value"; "shared_debt"; "shared_equity"; "bedrooms";
   "rooms"; "floor"; "year_built"; "area_bra_i"; "area_bra"; "plot_area"].

(** [_ADDRESS_COLS] *)
Definition _ADDRESS_COLS : list string := ["address"; "neighbourhood"].

(** [_EXPORT_COL_ORDER = _ADDRESS_COLS + _CATEGORICAL_COLS + _NUMERIC_COLS] *)
Definition _EXPORT_COL_ORDER : list string :=
  (_ADDRESS_COLS ++ _CATEGORICAL_COLS ++ _NUMERIC_COLS)%list.

(** What a cell of a row holds when it is not [None]. *)
Inductive any : Type :=
| AStr (s : string)
| AInt (n : Z)
| AFloat (x : float_literal)
| AValue (v : value).

Definition cell : Type := option any.

(** A [Dict[str, Any]] in insertion order. *)
Definition row : Type := list (string * cell).

(** [row[k] = v]: an existing key keeps its place. *)
Fixpoint setitem (k : string) (v : cell) (d : row) : row :=
  match d with
  | [] => [(k, v)]
  | (k', v') :: rest =>
      if String.eqb k k' then (k, v) :: rest else (k', v') :: setitem k v rest
  end.

(** The neighbourhood as the address holds it. *)
Definition of_value (v : value) : cell :=
  match v with
  | VNone => None
  | v => Some (AValue v)
  end.

(** [getattr(p, k, None)] for the names of the column lists. *)
Definition getattr (p : Property) (k : string) : cell :=
  if String.eqb k "category" then option_map AStr (category p)
  else if String.eqb k "property_type" then option_map AStr (property_type p)
  else if String.eqb k "ownership_type" then option_map AStr (ownership_type p)
  else if String.eqb k "energy_label" then option_map AStr (energy_label p)
  else if String.eqb k "status" then option_map AStr (status p)
  else if String.eqb k "asking_price" then option_map AInt (asking_price p)
  else if String.eqb k "total_price" then option_map AInt (total_price p)
  else if String.eqb k "transaction_costs"
       then option_map AInt (transaction_costs p)
  else if String.eqb k "communal_fees" then option_map AInt (communal_fees p)
  else if String.eqb k "assessed_wealth_value"
       then option_map AInt (assessed_wealth_value p)
  else if String.eqb k "shared_debt" then option_map AInt (shared_debt p)
  else if String.eqb k "shared_equity" then option_map AInt (shared_equity p)
  else if String.eqb k "bedrooms" then option_map AInt (bedrooms p)
  else if String.eqb k "rooms" then option_map AInt (rooms p)
  else if String.eqb k "floor" then option_map AInt (floor p)
  else if String.eqb k "year_built" then option_map AInt (year_built p)
  else if String.eqb k "area_bra_i" then option_map AFloat (area_bra_i p)
  else if String.eqb k "area_bra" then option_map AFloat (area_bra p)
  else if String.eqb k "plot_area" then option_map AFloat (plot_area p)
  else None.

(** [for k in cols: row[k] = getattr(p, k, None)] *)
Definition fill (p : Property) (cols : list string) (r : row) : row :=
  fold_left (fun r k => setitem k (getattr p k) r) cols r.

Definition _flatten_property (p : Property) : row :=
  let addr_line :=
    match address p with
    | Some a => option_map AStr (line a)
    | None => None
    end in
  let neighbourhood :=
    match address p with
    | Some a => of_value (neighbourhood a)
    | None => None
    end in
  let r := [("address", addr_line); ("neighbourhood", neighbourhood)] in
  let r := fill p _CATEGORICAL_COLS r in
  fill p _NUMERIC_COLS r.

End CsvExporter.

(** * Reference definitions

    The specification's own wording of some contracts, to be compared with
    the code, and the concrete inputs the properties are checked on. *)

Module Ref.

(** [c * n] *)
Fixpoint str_repeat (c : ascii) (n : nat) : string :=
  match n with
  | O => EmptyString
  | S n' => String c (str_repeat c n')
  end.

(** A run of digits one longer than the interpreter converts. *)
Definition long_digits : string := str_repeat "1" (S int_max_str_digits).


(** [AddressSplitter] as the specification words it.  An input is blank
    when it holds nothing but white space. *)
Definition blank (s : string) : bool := str_forall isspace s.

(** "A 4-digit postal code followed by a city", read off the start of a
    part. *)
Definition leading_postal_city (part : string) : option (string * string) :=
  match Parser.match_postal_city part with
  | Some (code, city) => Some (code, strip city)
  | None => None
  end.

Definition split_address_spec (addr : option string) : Parser.address_parts :=
  match addr with
  | None => (None, None, None)
  | Some a =>
      if blank a then (None, None, None)
      else
        match map strip (split "," a) with
        | [] => (None, None, None)
        | [token] =>
            match leading_postal_city token with
            | Some (code, city) => (None, Some code, Some city)
            | None => (Some token, None, None)
            end
        | first :: second :: _ =>
            match leading_postal_city second with
            | Some (code, city) => (Some first, Some code, Some city)
            | None => (Some first, None, None)
            end
        end
  end.

(** No comma in [s]. *)
Definition comma_free (s : string) : bool :=
  str_forall (fun c => negb (Ascii.eqb c ",")) s.

(** [s] is empty or begins with [c]. *)
Definition empty_or_starts (c : ascii) (s : string) : Prop :=
  s = EmptyString \/ exists rest, s = String c rest.

(** An occurrence in [s] of four digits, white space, and text on the
    same line: [s = before ++ code ++ gap ++ text ++ after]. *)
Definition occurrence (s before code gap text after : string) : Prop :=
  s = before ++ code ++ gap ++ text ++ after
  /\ String.length code = 4
  /\ str_forall isdigit code = true
  /\ str_truthy gap = true /\ str_forall isspace gap = true
  /\ str_truthy text = true /\ str_forall isdot text = true.


(** The listing pattern as the specification writes it:
    [/realestate/{category}/ad.html?finnkode={digits}]. *)
Definition listing_path (cat finncode : string) : string :=
  "/realestate/" ++ cat ++ "/ad.html?finnkode=" ++ finncode.

Definition origin : string := "https://www.finn.no".

(** A well-formed category and code. *)
Definition well_formed (cat finncode : string) : Prop :=
  str_truthy cat = true /\ str_forall isalpha_ascii cat = true
  /\ str_truthy finncode = true /\ str_forall isdigit finncode = true.

(** An anchor with the given [href] and nothing else. *)
Definition anchor (href : string) : Zendriver.Element :=
  {| Zendriver.text := Ret None;
     Zendriver.text_content := Ret None;
     Zendriver.attrs := [("href", href)] |}.


(** A pagination link showing [label]. *)
Definition page_link (label : string) : Zendriver.Element :=
  {| Zendriver.text := Ret (Some label);
     Zendriver.text_content := Ret (Some label);
     Zendriver.attrs := [] |}.

(** A rendered results page: its anchors, the label of the link marked
    as current, and the labels of the page links of its navigation
    control. *)
Definition results_page (hrefs : list string) (current : string)
  (labels : list string) : Zendriver.Tab :=
  {| Zendriver.select := fun _ => Ret (Some (page_link current));
     Zendriver.select_all := fun selector =>
       if String.eqb selector "a[href]" then Ret (Some (map anchor hrefs))
       else Ret (Some (map page_link labels)) |}.

(** The only page of a one-page result set: current page 1 of 1. *)
Definition only_page : Zendriver.Tab :=
  results_page ["/realestate/homes/ad.html?finnkode=1";
                "/realestate/homes/ad.html?finnkode=2"] "1" ["1"].

(** A site that renders [only_page] whatever page is asked for. *)
Definition one_page_site (url : string) : result Zendriver.Tab :=
  Ret only_page.

(** A site that has [only_page] as page 1 and times out beyond it. *)
Definition strict_one_page_site (url : string) : result Zendriver.Tab :=
  if String.eqb url (Scraper.page_url [] 1) then Ret only_page
  else Raise TimeoutError.

Definition listing (n : string) : Meta.RealestateMetadata :=
  {| Meta.url := origin ++ listing_path "homes" n;
     Meta.category := "homes";
     Meta.finn_id := n |}.


(** *** GeocodeResolver, in the specification's words *)

(** The coordinates of one result: its ["representasjonspunkt"] with
    both ["lat"] and ["lon"] present. *)
Definition result_coordinates (r : value) : option (value * value) :=
  match r with
  | VDict first =>
      match lookup "representasjonspunkt" first with
      | Some (VDict pt) =>
          match lookup "lat" pt, lookup "lon" pt with
          | Some la, Some lo =>
              if is_not_none la && is_not_none lo then Some (la, lo)
              else None
          | _, _ => None
          end
      | _ => None
      end
  | _ => None
  end.

(** The results of a response body: its ["adresser"], when the body is a
    mapping that holds a list there. *)
Definition results (data : value) : list value :=
  match data with
  | VDict d =>
      match lookup "adresser" d with
      | Some (VList rs) => rs
      | _ => []
      end
  | _ => []
  end.

(** The coordinates of the first result of a response body. *)
Definition body_coordinates (data : value) : option (value * value) :=
  match results data with
  | first :: _ => result_coordinates first
  | [] => None
  end.

(** "A response containing at least one result with both coordinates". *)
Definition some_result_located (data : value) : bool :=
  existsb (fun r => match result_coordinates r with
                    | Some _ => true
                    | None => false
                    end) (results data).

(** A successful response with at least one result; every other service
    outcome gives nothing. *)
Definition first_result_coordinates
  (outcome : result Schema.aiohttp.response) : option (value * value) :=
  match outcome with
  | Ret r =>
      if (Schema.aiohttp.status r =? 200)%Z then
        match Schema.aiohttp.json r with
        | Ret data => body_coordinates data
        | Raise _ => None
        end
      else None
  | Raise _ => None
  end.

(** The failure modes the specification lists. *)
Inductive failure : result Schema.aiohttp.response -> Prop :=
| network_error : failure (Raise ClientError)
| timeout : failure (Raise TimeoutError)
| non_success r :
    Schema.aiohttp.status r <> 200%Z -> failure (Ret r)
| malformed_response r e :
    Schema.aiohttp.json r = Raise e -> failure (Ret r)
| malformed_shape r data :
    Schema.aiohttp.json r = Ret data -> body_coordinates data = None ->
    failure (Ret r)
| empty_result_set r d :
    Schema.aiohttp.json r = Ret (VDict d) ->
    lookup "adresser" d = Some (VList []) -> failure (Ret r).

(** The request [resolve_lat_long] sends for an address. *)
Definition request (self : Schema.Address) : string :=
  Schema.geonorge_url (join " " (Schema.search_parts self)).

(** "[neighbourhood] is only set if both [lat] and [lon] are set." *)
Definition address_invariant (a : Schema.Address) : Prop :=
  is_not_none (Schema.neighbourhood a) = true ->
  is_not_none (Schema.lat a) = true /\ is_not_none (Schema.lon a) = true.

(** A coordinate that is present and equal to [0.0]. *)
Definition zero_coordinate (v : value) : bool :=
  match v with
  | VFloat f => PrimFloat.eqb f 0%float
  | _ => false
  end.

(** *** NeighbourhoodResolver, in the specification's words *)

Section RefGeometry.

Variables point geometry : Type.
Variable shape : value -> result geometry.
Variable contains : geometry -> point -> result bool.

(** The polygon of a feature, when it can be built. *)
Definition polygon_of (feature : value) : option geometry :=
  match feature with
  | VDict f =>
      match lookup "geometry" f with
      | Some g => match shape g with Ret poly => Some poly | Raise _ => None end
      | None => None
      end
  | _ => None
  end.

(** The label of a feature that contains [pt]; [None] for a feature
    that does not contain it or that is skipped for an error. *)
Definition label_of (pt : point) (feature : value) : option value :=
  match polygon_of feature, feature with
  | Some poly, VDict f =>
      match contains poly pt with
      | Ret true =>
          match lookup "properties" f with
          | Some (VDict props) =>
              Some (match lookup "neighbourhood" props with
                    | Some l => l
                    | None => VNone
                    end)
          | _ => None
          end
      | _ => None
      end
  | _, _ => None
  end.

(** The label of the last feature, in iteration order, that contains
    [pt]. *)
Fixpoint last_label (pt : point) (features : list value) : option value :=
  match features with
  | [] => None
  | f :: rest =>
      match last_label pt rest with
      | Some l => Some l
      | None => label_of pt f
      end
  end.

(** One containment test per feature whose polygon can be built, in
    iteration order, all against [pt]. *)
Definition tested (pt : point) (features : list value)
  : list (geometry * point) :=
  flat_map (fun f => match polygon_of f with
                     | Some poly => [(poly, pt)]
                     | None => []
                     end) features.

End RefGeometry.

(** A small geometry to run the resolver on: a point is a pair of
    numbers, a geometry is a mapping that says under ["covers"] whether
    it contains every point. *)
Definition is_number (v : value) : bool :=
  match v with VInt _ | VFloat _ => true | _ => false end.

Definition toy_Point (x y : value) : result (value * value) :=
  if is_number x && is_number y then Ret (x, y) else Raise TypeError.

Definition toy_shape (g : value) : result value :=
  match g with
  | VDict _ => Ret g
  | _ => Raise GeometryError
  end.

Definition toy_contains (g : value) (pt : value * value) : result bool :=
  match g with
  | VDict d =>
      match lookup "covers" d with
      | Some (VBool b) => Ret b
      | _ => Raise GeometryError
      end
  | _ => Raise GeometryError
  end.

Definition toy_feature (covers : bool) (label : string) : value :=
  VDict [("geometry", VDict [("covers", VBool covers)]);
         ("properties", VDict [("neighbourhood", VStr label)])].

(** Two overlapping regions, one malformed feature between them and one
    region elsewhere. *)
Definition toy_collection : value :=
  VDict [("features",
          VList [toy_feature true "Sentrum";
                 VDict [("properties", VDict [])];
                 toy_feature true "Gamle Oslo";
                 toy_feature false "Frogner"])].

Definition located (la lo : value) : Schema.Address :=
  Schema.set_lat_lon
    (Schema.new_address (Some "Jerikoveien 91B") (Some "0575") (Some "Oslo"))
    la lo.

(** A response body whose first result has a latitude only and whose
    second result has both coordinates. *)
Definition second_located : value :=
  VDict [("adresser",
    VList [VDict [("representasjonspunkt", VDict [("lat", VFloat 59.5)])];
           VDict [("representasjonspunkt",
                    VDict [("lat", VFloat 60.5); ("lon", VFloat 5.25)])]])].

Definition second_located_service (url : string)
  : result Schema.aiohttp.response :=
  Ret {| Schema.aiohttp.status := 200; Schema.aiohttp.json := Ret second_located |}.

(** A geocoding service that answers every request with one result. *)
Definition one_result_service (url : string) : result Schema.aiohttp.response :=
  Ret {| Schema.aiohttp.status := 200;
         Schema.aiohttp.json :=
           Ret (VDict [("adresser",
                  VList [VDict [("representasjonspunkt",
                           VDict [("lat", VFloat 59.5); ("lon", VFloat 10.75)])]])]) |}.


(** *** FieldExtractor *)

(** The selector of the detail region that [_status] scans. *)
Definition detail_region : string :=
  Zendriver.testid "object-details" ++ " *".

(** No text node of the detail region can be read: the query times out,
    finds nothing, or finds only elements without text. *)
Definition detail_region_unreadable (tab : Zendriver.Tab) : Prop :=
  Zendriver.select_all tab detail_region = Raise TimeoutError
  \/ Zendriver.select_all tab detail_region = Raise ProtocolException
  \/ Zendriver.select_all tab detail_region = Ret None
  \/ exists els,
       Zendriver.select_all tab detail_region = Ret (Some els)
       /\ Forall (fun el => Parser._clean (Parser.element_text el) = None) els.

(** A listing page on which every multi-element query finds one badge
    reading [label] and no single-element query finds anything. *)
Definition badge_page (label : string) : Zendriver.Tab :=
  {| Zendriver.select := fun _ => Ret None;
     Zendriver.select_all := fun _ => Ret (Some [page_link label]) |}.

(** A listing page on which every query times out. *)
Definition silent_page : Zendriver.Tab :=
  {| Zendriver.select := fun _ => Raise TimeoutError;
     Zendriver.select_all := fun _ => Raise TimeoutError |}.


(** *** Sets *)

(** Set semantics, independent of any table: the distinct elements in
    order of first appearance.  An element equal to an earlier one is
    dropped. *)
Section Distinct.

Context {A : Type}.
Variable eqb : A -> A -> bool.

Definition member (x : A) (acc : list A) : bool :=
  existsb (fun k => eqb k x) acc.

Fixpoint distinct_from (acc : list A) (xs : list A) : list A :=
  match xs with
  | [] => acc
  | x :: rest =>
      distinct_from (if member x acc then acc else acc ++ [x])%list rest
  end.

Definition distinct (xs : list A) : list A := distinct_from [] xs.

(** How many elements of [l] equal [x]. *)
Definition count (x : A) (l : list A) : nat :=
  List.length (filter (fun k => eqb k x) l).

End Distinct.

(** The probe sequence of [set_add_entry] and [set_insert_clean],
    followed until an entry satisfies [stop]. *)
Section Probing.

Context {A : Type}.
Variable eqb : A -> A -> bool.

Definition is_unused (e : @setentry A) : bool :=
  match e with Unused => true | Active _ _ => false end.

(** Where a search for [key] with hash [h] ends: at an unused entry or at
    an entry that holds an equal key. *)
Definition stops (key : A) (h : Z) (e : @setentry A) : bool :=
  match e with
  | Unused => true
  | Active h' k => Z.eqb h' h && eqb k key
  end.

Fixpoint run_stop (stop : @setentry A -> bool) (t : list (@setentry A))
  (i : Z) (probes : nat) : option Z :=
  if stop (entry_at t i) then Some i
  else match probes with
       | O => None
       | S p => run_stop stop t (i + 1) p
       end.

Fixpoint first_stop (stop : @setentry A -> bool) (fuel : nat)
  (t : list (@setentry A)) (m i perturb : Z) : option Z :=
  match fuel with
  | O => None
  | S fuel' =>
      match run_stop stop t i (probes_at i m) with
      | Some j => Some j
      | None =>
          let perturb := Z.shiftr perturb PERTURB_SHIFT in
          first_stop stop fuel' t m (next_slot i perturb m) perturb
      end
  end.

(** The search [set_add_key] runs for a key with hash [h]. *)
Definition find (stop : @setentry A -> bool) (t : list (@setentry A))
  (m h : Z) : option Z :=
  first_stop stop (probe_fuel m) t m (Z.land (to_size_t h) m) (to_size_t h).

(** What [set_add_entry] does once its search has ended at slot [j]. *)
Definition settle (so : @setobject A) (key : A) (h j : Z)
  : option (@setobject A) :=
  match entry_at (table so) j with
  | Active _ _ => Some so
  | Unused =>
      let so' := SetObject (store (table so) (Z.to_nat j) (Active h key))
                   (mask so) (fill so + 1) (used so + 1) in
      if (fill so' * 5 <? mask so' * 3)%Z then Some so'
      else set_table_resize so'
             (if (50000 <? used so')%Z then (used so' * 2)%Z
              else (used so' * 4)%Z)
  end.

End Probing.


(** The keys of a table, in table order. *)
Definition keys {A : Type} (t : list (@setentry A)) : list A :=
  flat_map (fun e => match e with Unused => [] | Active _ k => [k] end) t.

(** Every key of the table is where a search for it ends, under its own
    hash. *)
Definition searchable {A : Type} (eqb : A -> A -> bool) (hash : A -> Z)
  (t : list (@setentry A)) (m : Z) : Prop :=
  forall n h key,
    nth n t Unused = Active h key ->
    h = hash key /\ find (stops eqb key h) t m h = Some (Z.of_nat n).

(** A table [set_add_key] can work on: a power of two of slots, the
    counters in step with the keys, a load below three fifths, and every
    key searchable. *)
Record table_ok {A : Type} (eqb : A -> A -> bool) (hash : A -> Z)
  (so : @setobject A) : Prop := {
  ok_size : exists k : nat,
      (3 <= k <= 62)%nat /\ mask so = (2 ^ Z.of_nat k - 1)%Z
      /\ List.length (table so) = Z.to_nat (2 ^ Z.of_nat k);
  ok_used : used so = Z.of_nat (List.length (keys (table so)));
  ok_fill : fill so = used so;
  ok_load : (fill so * 5 < mask so * 3)%Z;
  ok_search : searchable eqb hash (table so) (mask so)
}.


(** The step of the loop of [set_table_resize] that copies the entries
    into the new table. *)
Definition reinsert {A : Type} (newmask : Z)
  (acc : option (list (@setentry A))) (e : @setentry A)
  : option (list (@setentry A)) :=
  match acc, e with
  | None, _ => None
  | Some t, Unused => Some t
  | Some t, Active h key =>
      set_insert_clean (probe_fuel newmask) t newmask key h
        (Z.land (to_size_t h) newmask) (to_size_t h)
  end.


(** *** Deduplication and ordering *)

(** The finn-codes of a list of entries. *)
Definition codes (l : list Meta.RealestateMetadata) : list string :=
  map Meta.finn_id l.

(** The same listing under another URL and category. *)
Definition listing_alias (n : string) : Meta.RealestateMetadata :=
  {| Meta.url := "HTTPS://WWW.FINN.NO" ++ listing_path "plots" n;
     Meta.category := "plots";
     Meta.finn_id := n |}.

(** Two string hashes that rank the codes ["1"] and ["2"] in opposite
    order, as two processes with different hash seeds may. *)
Definition seed_a (s : string) : Z := if String.eqb s "1" then 1 else 2.
Definition seed_b (s : string) : Z := if String.eqb s "1" then 2 else 1.

(** A site with one results page (two listings) and a readable page for
    every listing; anything else times out. *)
Definition small_site (url : string) : result Zendriver.Tab :=
  if String.eqb url (Scraper.page_url [] 1) then Ret only_page
  else match Scraper.strip_prefix (origin ++ "/realestate/") url with
       | Some _ => Ret silent_page
       | None => Raise TimeoutError
       end.

(** A geocoding service that is down. *)
Definition no_service (url : string) : result Schema.aiohttp.response :=
  Raise ClientError.

(** One run of [scrape] on [small_site] under the string hash [seed]:
    the finn-codes of the listings, in the order in which the [for] loop
    hands them to the extractor. *)
Definition run (seed : string -> Z) : option (list string) :=
  option_map codes (Scraper.properties small_site seed 3 [] (Some 1%Z)).


(** *** Normal forms of parsed text *)

(** A text without white space at either end. *)
Definition trimmed (s : string) : Prop := lstrip s = s /\ rstrip s = s.

(** A non-empty trimmed text: what [_clean] lets through. *)
Definition clean_text (s : string) : Prop :=
  str_truthy s = true /\ trimmed s.

(** No decimal digit in [s]. *)
Definition digit_free (s : string) : bool :=
  str_forall (fun c => negb (isdigit c)) s.

(** A non-empty run of decimal digits. *)
Definition digit_run (s : string) : Prop :=
  str_truthy s = true /\ str_forall isdigit s = true.

(** [s] is empty or begins with a character outside [p]. *)
Definition stops_run (p : ascii -> bool) (s : string) : Prop :=
  match s with
  | EmptyString => True
  | String c _ => p c = false
  end.


(** *** What a crawl gathers *)

(** An entry as the harvester builds it from an anchor: a well-formed
    category and code, read off an href that matches the listing
    pattern, and the origin put in front of that href. *)
Definition harvested (m : Meta.RealestateMetadata) : Prop :=
  well_formed (Meta.category m) (Meta.finn_id m)
  /\ exists href,
       Meta.url m = origin ++ href
       /\ Scraper.REALESTATE_PATTERN_match href
          = Some (Meta.category m, Meta.finn_id m).

(** The entries harvested on results page [p]; none when the page or
    its anchors cannot be read. *)
Definition page_harvest (browser_get : string -> result Zendriver.Tab)
  (filters : Scraper.dict) (p : Z) : list Meta.RealestateMetadata :=
  match (tab <- browser_get (Scraper.page_url filters p) ;;
         Scraper._find_realestate_meta tab)%py with
  | Ret metas => metas
  | Raise _ => []
  end.

(** [n] consecutive page numbers from [start] on. *)
Fixpoint pages_from (start : Z) (n : nat) : list Z :=
  match n with
  | O => []
  | S n' => start :: pages_from (start + 1) n'
  end.

(** How often [c] occurs in [s]. *)
Fixpoint count_char (c : ascii) (s : string) : nat :=
  match s with
  | EmptyString => O
  | String x s' => (if Ascii.eqb x c then 1 else 0) + count_char c s'
  end.

(** The characters of an escaped key or value: unreserved ones, [+] for
    a space and [%] with hexadecimal digits. *)
Definition escaped_char (c : ascii) : bool :=
  unreserved c || Ascii.eqb c "+" || Ascii.eqb c "%".

(** The characters of a query string: escaped text, [=] and [&]. *)
Definition query_char (c : ascii) : bool :=
  escaped_char c || Ascii.eqb c "=" || Ascii.eqb c "&".


(** The characters of a quoted path segment: unreserved ones, [/] and
    [%] with hexadecimal digits. *)
Definition quoted_char (c : ascii) : bool :=
  unreserved c || Ascii.eqb c "/" || Ascii.eqb c "%".


(** *** Exported rows *)

(** [row.get(k)] *)
Fixpoint column (k : string) (r : CsvExporter.row) : option CsvExporter.cell :=
  match r with
  | [] => None
  | (k', v) :: rest => if String.eqb k k' then Some v else column k rest
  end.

Definition is_text (c : CsvExporter.cell) : bool :=
  match c with
  | None | Some (CsvExporter.AStr _) => true
  | _ => false
  end.

Definition is_numeric (c : CsvExporter.cell) : bool :=
  match c with
  | None | Some (CsvExporter.AInt _) | Some (CsvExporter.AFloat _) => true
  | _ => false
  end.


(** *** The search for a postal code and city

    What [re.search(r"(\d{4})\s+(.+)", s)] finds, said without running
    it. *)

(** The white space before [text] is as long as it can be: no longer
    stretch of white space is followed by a character of the same
    line. *)
Definition greedy_gap (text after : string) : Prop :=
  forall w rest,
    text ++ after = w ++ rest -> str_truthy w = true -> blank w = true ->
    stops_run isdot rest.

(** [code] and [text] are the groups of the leftmost match in [s]: four
    digits, white space as long as it can be, and text up to the end of
    its line, at the first place where four digits are followed by white
    space and text. *)
Definition leftmost_hit (s code text : string) : Prop :=
  exists before gap after,
    occurrence s before code gap text after
    /\ stops_run isdot after
    /\ greedy_gap text after
    /\ forall b r,
         s = b ++ r -> (String.length b < String.length before)%nat ->
         forall c g t a, ~ occurrence r "" c g t a.

(** Nowhere in [s] are four digits followed by white space and text. *)
Definition no_hit (s : string) : Prop :=
  forall before code gap text after,
    ~ occurrence s before code gap text after.

End Ref.

(** * Properties *)

(** ** Facts about the runtime fragment *)

Module PyFacts.

Lemma bind_ret_inv {A B} (r : result A) (k : A -> result B) (b : B) :
  bind r k = Ret b -> exists a, r = Ret a /\ k a = Ret b.
Proof. destruct r as [a|e]; simpl; [eauto | discriminate]. Qed.

(** Boolean character tests as arithmetic on the code point. *)
Ltac char_arith :=
  unfold isdigit, isspace, isalpha_ascii, isdot, newline in *;
  repeat match goal with
         | H : _ && _ = true |- _ => apply andb_true_iff in H; destruct H
         | H : _ || _ = true |- _ => apply orb_true_iff in H; destruct H
         | H : (_ <=? _)%N = true |- _ => apply N.leb_le in H
         | H : (_ =? _)%N = true |- _ => apply N.eqb_eq in H
         end.

Lemma isdigit_not_space c : isdigit c = true -> isspace c = false.
Proof.
  intro H. char_arith. unfold isspace.
  repeat rewrite orb_false_iff. repeat split;
    try (apply andb_false_iff;
         destruct (N.leb_spec 9 (code c)); [right|left; reflexivity];
         apply N.leb_gt; lia);
    try (apply andb_false_iff;
         destruct (N.leb_spec 28 (code c)); [right|left; reflexivity];
         apply N.leb_gt; lia);
    apply N.eqb_neq; lia.
Qed.

Lemma isdigit_not_sign c :
  isdigit c = true ->
  Ascii.eqb c "-" = false /\ Ascii.eqb c "+" = false /\ Ascii.eqb c "_" = false.
Proof.
  intro H. repeat split; apply Ascii.eqb_neq; intro E; subst c; discriminate H.
Qed.

Lemma span_spec p s :
  s = fst (span p s) ++ snd (span p s)
  /\ str_forall p (fst (span p s)) = true
  /\ match snd (span p s) with
     | EmptyString => True
     | String c _ => p c = false
     end.
Proof.
  induction s as [|c s IH]; simpl; [auto|].
  destruct (p c) eqn:Hc.
  - destruct (span p s) as [a b]; simpl in *.
    destruct IH as (E & F & G). rewrite Hc, F. repeat split; auto.
    now f_equal.
  - simpl. rewrite Hc. auto.
Qed.

Lemma span_all p s : str_forall p s = true -> span p s = (s, EmptyString).
Proof.
  induction s as [|c s IH]; simpl; [reflexivity|].
  intro H. apply andb_true_iff in H. destruct H as [Hc Hs].
  rewrite Hc, (IH Hs). reflexivity.
Qed.

Lemma filter_all p s : str_forall p s = true -> str_filter p s = s.
Proof.
  induction s as [|c s IH]; simpl; [reflexivity|].
  intro H. apply andb_true_iff in H. destruct H as [Hc Hs].
  now rewrite Hc, (IH Hs).
Qed.

Lemma filter_forall p s : str_forall p (str_filter p s) = true.
Proof.
  induction s as [|c s IH]; simpl; [reflexivity|].
  destruct (p c) eqn:Hc; simpl; [now rewrite Hc|assumption].
Qed.

Lemma rstrip_no_space s :
  str_forall (fun c => negb (isspace c)) s = true -> rstrip s = s.
Proof.
  induction s as [|c s IH]; simpl; [reflexivity|].
  intro H. apply andb_true_iff in H. destruct H as [Hc Hs].
  rewrite (IH Hs). apply negb_true_iff in Hc. rewrite Hc.
  destruct s; reflexivity.
Qed.

Lemma lstrip_no_space s :
  str_forall (fun c => negb (isspace c)) s = true -> lstrip s = s.
Proof.
  destruct s as [|c s]; simpl; [reflexivity|].
  intro H. apply andb_true_iff in H. destruct H as [Hc _].
  apply negb_true_iff in Hc. now rewrite Hc.
Qed.

Lemma forall_impl (p q : ascii -> bool) s :
  (forall c, p c = true -> q c = true) ->
  str_forall p s = true -> str_forall q s = true.
Proof.
  intro Hpq. induction s as [|c s IH]; simpl; [reflexivity|].
  intro H. apply andb_true_iff in H. destruct H as [Hc Hs].
  now rewrite (Hpq _ Hc), (IH Hs).
Qed.

Lemma strip_digits s : str_forall isdigit s = true -> strip s = s.
Proof.
  intro H. unfold strip.
  assert (N : str_forall (fun c => negb (isspace c)) s = true).
  { revert H. apply forall_impl. intros c Hc.
    now rewrite (isdigit_not_space c Hc). }
  now rewrite (lstrip_no_space s N), (rstrip_no_space s N).
Qed.

Lemma isdigit_not_int_space c : isdigit c = true -> int_space c = false.
Proof.
  intro H. char_arith. unfold int_space.
  repeat rewrite orb_false_iff. repeat split;
    first [apply andb_false_iff; right; apply N.leb_gt; lia
          |apply N.eqb_neq; lia].
Qed.

Lemma int_strip_digits s :
  str_forall isdigit s = true -> int_rstrip (int_lstrip s) = s.
Proof.
  intro H.
  assert (L : int_lstrip s = s).
  { destruct s as [|c s]; [reflexivity|]. cbn in H.
    apply andb_true_iff in H. destruct H as [Hc _].
    cbn. now rewrite (isdigit_not_int_space c Hc). }
  rewrite L. induction s as [|c s IH]; [reflexivity|].
  cbn [str_forall] in H. apply andb_true_iff in H. destruct H as [Hc Hs].
  cbn [int_rstrip]. rewrite IH; [|exact Hs|].
  - rewrite (isdigit_not_int_space c Hc). destruct s; reflexivity.
  - destruct s as [|d s]; [reflexivity|]. cbn in Hs.
    apply andb_true_iff in Hs. destruct Hs as [Hd _].
    cbn. now rewrite (isdigit_not_int_space d Hd).
Qed.

Lemma int_body_digits s b :
  str_forall isdigit s = true -> int_body_ok b s = match s with
                                                     | EmptyString => b
                                                     | _ => true
                                                     end.
Proof.
  revert b. induction s as [|c s IH]; simpl; intros b H; [reflexivity|].
  apply andb_true_iff in H. destruct H as [Hc Hs].
  rewrite Hc, (IH true Hs). destruct s; reflexivity.
Qed.

(** [int()] on a non-empty run of digits: only the length limit can make
    it fail. *)
Lemma int_of_digits s :
  str_truthy s = true -> str_forall isdigit s = true ->
  int_of_str s =
    if Nat.ltb int_max_str_digits (String.length s) then Raise ValueError
    else Ret (digits_value 0 s).
Proof.
  intros Hne Hd. unfold int_of_str. rewrite (int_strip_digits s Hd).
  destruct s as [|c s]; [discriminate|].
  assert (Hc : isdigit c = true).
  { simpl in Hd. apply andb_true_iff in Hd. tauto. }
  destruct (isdigit_not_sign c Hc) as (Hm & Hp & _).
  assert (E : (match String c s with
               | String "-" r => ((-1)%Z, r)
               | String "+" r => (1%Z, r)
               | _ => (1%Z, String c s)
               end) = (1%Z, String c s)).
  { apply Ascii.eqb_neq in Hm, Hp.
    destruct c as [[] [] [] [] [] [] [] []]; try reflexivity; congruence. }
  rewrite E. rewrite (int_body_digits _ false Hd), (filter_all _ _ Hd).
  destruct (Nat.ltb _ _); [reflexivity|].
  f_equal. destruct (digits_value 0 (String c s)); reflexivity.
Qed.

(** [int()] raises nothing but [ValueError] on a [str]. *)
Lemma int_of_str_exn s e : int_of_str s = Raise e -> e = ValueError.
Proof.
  unfold int_of_str.
  destruct (match int_rstrip (int_lstrip s) with
            | String "-" r => ((-1)%Z, r)
            | String "+" r => (1%Z, r)
            | _ => (1%Z, int_rstrip (int_lstrip s))
            end) as [sign body].
  destruct (int_body_ok false body); [|congruence].
  destruct (Nat.ltb _ _); congruence.
Qed.

End PyFacts.

(** ** NumericNormalizer *)

Module NumericSpec.

Import PyFacts Parser.

Lemma search_digits_spec s g :
  search_digits s = Some g -> str_truthy g = true /\ str_forall isdigit g = true.
Proof.
  induction s as [|c s IH]; simpl; [discriminate|].
  destruct (isdigit c) eqn:Hc; [|exact IH].
  intro H. injection H as <-.
  destruct (span_spec isdigit s) as (_ & F & _).
  destruct (span isdigit s) as [a b]; simpl in *.
  now rewrite Hc, F.
Qed.

Lemma search_digits_none s :
  str_forall (fun c => negb (isdigit c)) s = true -> search_digits s = None.
Proof.
  induction s as [|c s IH]; simpl; [reflexivity|].
  intro H. apply andb_true_iff in H. destruct H as [Hc Hs].
  apply negb_true_iff in Hc. rewrite Hc. auto.
Qed.

Lemma search_decimal_none s :
  str_forall (fun c => negb (isdigit c)) s = true -> search_decimal s = None.
Proof.
  induction s as [|c s IH]; simpl; [reflexivity|].
  intro H. apply andb_true_iff in H. destruct H as [Hc Hs].
  apply negb_true_iff in Hc. rewrite Hc. auto.
Qed.

Lemma filter_no_digit (keep : ascii -> bool) s :
  str_forall (fun c => negb (isdigit c)) s = true ->
  str_forall (fun c => negb (isdigit c)) (str_filter keep s) = true.
Proof.
  induction s as [|c s IH]; simpl; [reflexivity|].
  intro H. apply andb_true_iff in H. destruct H as [Hc Hs].
  destruct (keep c); simpl; [rewrite Hc|]; auto.
Qed.

Lemma replace_no_digit s :
  str_forall (fun c => negb (isdigit c)) s = true ->
  str_forall (fun c => negb (isdigit c)) (replace_char "," "." s) = true.
Proof.
  unfold replace_char.
  induction s as [|c s IH]; simpl; [reflexivity|].
  intro H. apply andb_true_iff in H. destruct H as [Hc Hs].
  rewrite (IH Hs), andb_true_r.
  destruct (Ascii.eqb c ","); [reflexivity|exact Hc].
Qed.

Lemma filter_digits_none s :
  str_forall (fun c => negb (isdigit c)) s = true ->
  re_sub_empty _NUM s = EmptyString.
Proof.
  unfold re_sub_empty, _NUM.
  induction s as [|c s IH]; simpl; [reflexivity|].
  intro H. apply andb_true_iff in H. destruct H as [Hc Hs].
  rewrite Hc. simpl. auto.
Qed.

(** Integer mode is total: the [ValueError] of [int()] is caught. *)
Lemma to_int_total s : exists r, _to_int s = Ret r.
Proof.
  destruct s as [s|]; simpl; [|eauto].
  destruct (str_truthy s); simpl; [|eauto].
  destruct (str_truthy (re_sub_empty _NUM s)); simpl; [|eauto].
  destruct (int_of_str (re_sub_empty _NUM s)) as [n|e] eqn:E; simpl; [eauto|].
  rewrite (int_of_str_exn _ _ E). simpl. eauto.
Qed.

(** Decimal mode is total. *)
Lemma to_float_m2_total s : exists r, _to_float_m2 s = Ret r.
Proof.
  destruct s as [s|]; simpl; [|eauto].
  destruct (str_truthy s); simpl; [|eauto].
  destruct (search_decimal _); eauto.
Qed.

(** Safe-int mode raises exactly when the first run of digits is longer
    than [int()] converts. *)
Lemma to_int_safe_raises s e :
  _to_int_safe (Some s) = Raise e <->
  e = ValueError /\
  exists g, search_digits s = Some g /\ int_max_str_digits < String.length g.
Proof.
  unfold _to_int_safe.
  destruct (str_truthy s) eqn:Hs; simpl.
  - destruct (search_digits s) as [g|] eqn:Hg.
    + destruct (search_digits_spec _ _ Hg) as [Hne Hd].
      rewrite (int_of_digits g Hne Hd).
      destruct (Nat.ltb_spec int_max_str_digits (String.length g)); simpl.
      * split.
        -- intro H'. injection H' as <-. split; [reflexivity|]. eauto.
        -- intros [-> _]. reflexivity.
      * split; [discriminate|].
        intros [_ (g' & E & L)]. injection E as <-. lia.
    + split; [discriminate|]. intros [_ (g' & E & _)]. discriminate.
  - destruct s; [|discriminate]. simpl.
    split; [discriminate|]. intros [_ (g' & E & _)]. discriminate.
Qed.

(** With no digit in the input (or no input) every mode answers [None]. *)
Lemma no_digits_absent s :
  str_forall (fun c => negb (isdigit c)) s = true ->
  _to_int (Some s) = Ret None /\ _to_float_m2 (Some s) = Ret None
  /\ _to_int_safe (Some s) = Ret None
  /\ _to_int None = Ret None /\ _to_float_m2 None = Ret None
  /\ _to_int_safe None = Ret None.
Proof.
  intro H. unfold _to_int, _to_float_m2, _to_int_safe.
  rewrite (filter_digits_none s H), (search_digits_none s H).
  assert (E : search_decimal (replace_char "," "." (re_sub_empty _FLOAT s)) = None)
    by (apply search_decimal_none, replace_no_digit, filter_no_digit, H).
  rewrite E.
  destruct (str_truthy s); simpl; repeat split; reflexivity.
Qed.

(** C4 (the code departs from it).  The three parsing modes are meant
    never to raise.  On a text whose first run of digits has 4301 digits
    safe-int mode lets the [ValueError] of [int()] escape, while integer
    mode, which guards the same conversion, answers [None] and decimal
    mode returns the literal. *)
Theorem to_int_safe_raises_past_digit_limit :
  _to_int_safe (Some Ref.long_digits) = Raise ValueError
  /\ _to_int (Some Ref.long_digits) = Ret None
  /\ _to_float_m2 (Some Ref.long_digits)
     = Ret (Some (FloatLit Ref.long_digits None)).
Proof. vm_compute. repeat split; reflexivity. Qed.

End NumericSpec.

(** ** AddressSplitter *)

Module AddressSpec.

Import PyFacts Parser.

Lemma append_assoc (a b c : string) : (a ++ b) ++ c = a ++ b ++ c.
Proof. induction a as [|x a IH]; simpl; [reflexivity|now rewrite IH]. Qed.

Lemma append_empty (a : string) : a ++ "" = a.
Proof. induction a as [|x a IH]; simpl; [reflexivity|now rewrite IH]. Qed.

Lemma forall_append p a b :
  str_forall p (a ++ b) = str_forall p a && str_forall p b.
Proof.
  induction a as [|x a IH]; simpl; [reflexivity|].
  now rewrite IH, andb_assoc.
Qed.

Lemma split_not_nil sep s : split sep s <> [].
Proof.
  destruct s as [|c s]; simpl; [discriminate|].
  destruct (Ascii.eqb c sep); [discriminate|].
  destruct (split sep s); discriminate.
Qed.

(** Splitting a text without commas leaves it whole. *)
Lemma split_comma_free s : Ref.comma_free s = true -> split "," s = [s].
Proof.
  unfold Ref.comma_free.
  induction s as [|c s IH]; simpl; [reflexivity|].
  intro H. apply andb_true_iff in H. destruct H as [Hc Hs].
  apply negb_true_iff in Hc. rewrite Hc, (IH Hs). reflexivity.
Qed.

(** The first part is what stands before the first comma. *)
Lemma split_first a b :
  Ref.comma_free a = true ->
  split "," (a ++ String "," b) = a :: split "," b.
Proof.
  unfold Ref.comma_free.
  induction a as [|c a IH]; simpl; [reflexivity|].
  intro H. apply andb_true_iff in H. destruct H as [Hc Hs].
  apply negb_true_iff in Hc. rewrite Hc, (IH Hs). reflexivity.
Qed.

Lemma split_head a b :
  Ref.comma_free a = true -> Ref.empty_or_starts "," b ->
  exists tl, split "," (a ++ b) = a :: tl.
Proof.
  intros Ha [->|[m ->]].
  - rewrite append_empty, (split_comma_free a Ha). eauto.
  - rewrite (split_first a m Ha). eauto.
Qed.

(** What [.+] returns. *)
Lemma match_dot_plus_sound s g :
  match_dot_plus s = Some g ->
  exists after, s = g ++ after /\ str_truthy g = true
                /\ str_forall isdot g = true.
Proof.
  unfold match_dot_plus. intro H.
  destruct (span_spec isdot s) as (E & F & _).
  destruct (fst (span isdot s)) as [|c r] eqn:Hg; [discriminate|].
  injection H as <-. exists (snd (span isdot s)).
  repeat split; assumption.
Qed.

Lemma match_spaces_rest_sound s g :
  match_spaces_rest s = Some g ->
  exists gap after,
    s = gap ++ g ++ after
    /\ str_truthy gap = true /\ str_forall isspace gap = true
    /\ str_truthy g = true /\ str_forall isdot g = true.
Proof.
  revert g. induction s as [|c s IH]; simpl; intros g H; [discriminate|].
  destruct (isspace c) eqn:Hc; [|discriminate].
  destruct (match_spaces_rest s) as [g'|] eqn:Hr.
  - injection H as <-.
    destruct (IH g' eq_refl) as (gap & after & E & _ & Hs & Hg & Hd).
    exists (String c gap), after. simpl. rewrite Hc, Hs, <- E. auto.
  - destruct (match_dot_plus_sound s g H) as (after & E & Hg & Hd).
    exists (String c ""), after. simpl. rewrite Hc, <- E. auto.
Qed.

Lemma match_postal_city_sound s code g :
  match_postal_city s = Some (code, g) ->
  exists gap after, Ref.occurrence s "" code gap g after.
Proof.
  unfold match_postal_city.
  destruct s as [|a [|b [|c [|d r]]]]; try discriminate.
  destruct (isdigit a && isdigit b && isdigit c && isdigit d) eqn:Hd;
    [|discriminate].
  destruct (match_spaces_rest r) as [g'|] eqn:Hr; [|discriminate].
  intro H. injection H as <- <-.
  destruct (match_spaces_rest_sound r g' Hr) as (gap & after & E & P1 & P2 & P3 & P4).
  exists gap, after. unfold Ref.occurrence. simpl.
  apply andb_true_iff in Hd as [Hd H4].
  apply andb_true_iff in Hd as [Hd H3].
  apply andb_true_iff in Hd as [H1 H2].
  rewrite E, H1, H2, H3, H4. auto 10.
Qed.

Lemma search_postal_city_unfold s :
  search_postal_city s =
    match match_postal_city s with
    | Some m => Some m
    | None => match s with
              | EmptyString => None
              | String _ s' => search_postal_city s'
              end
    end.
Proof. destruct s; reflexivity. Qed.

(** A hit of the search is an occurrence of the pattern in the text. *)
Lemma search_postal_city_sound s code g :
  search_postal_city s = Some (code, g) ->
  exists before gap after, Ref.occurrence s before code gap g after.
Proof.
  induction s as [|c s IH]; rewrite search_postal_city_unfold.
  - discriminate.
  - destruct (match_postal_city (String c s)) as [[code' g']|] eqn:Hm.
    + intro H. injection H as <- <-.
      destruct (match_postal_city_sound _ _ _ Hm) as (gap & after & O).
      exists "", gap, after. exact O.
    + intro H. destruct (IH H) as (before & gap & after & O).
      exists (String c before), gap, after.
      destruct O as (E & R). split; [|exact R]. simpl. now rewrite E.
Qed.

Lemma match_spaces_rest_unfold c s :
  match_spaces_rest (String c s) =
    if isspace c then
      match match_spaces_rest s with
      | Some g => Some g
      | None => match_dot_plus s
      end
    else None.
Proof. reflexivity. Qed.

Lemma match_dot_plus_complete c tail :
  isdot c = true -> match_dot_plus (String c tail) <> None.
Proof.
  intro Hc. unfold match_dot_plus. cbn [span]. rewrite Hc.
  destruct (span isdot tail). discriminate.
Qed.

Lemma match_spaces_rest_complete gap c tail :
  str_truthy gap = true -> str_forall isspace gap = true -> isdot c = true ->
  match_spaces_rest (gap ++ String c tail) <> None.
Proof.
  induction gap as [|w gap IH]; [discriminate|].
  intros _ Hs Hc. cbn [str_forall] in Hs.
  apply andb_true_iff in Hs. destruct Hs as [Hw Hs].
  cbn [append]. rewrite match_spaces_rest_unfold, Hw.
  destruct gap as [|w' gap'].
  - cbn [append].
    destruct (match_spaces_rest (String c tail)); [discriminate|].
    now apply match_dot_plus_complete.
  - specialize (IH eq_refl Hs Hc).
    destruct (match_spaces_rest (String w' gap' ++ String c tail));
      [discriminate|congruence].
Qed.

(** The search finds a hit whenever the text holds an occurrence. *)
Lemma search_postal_city_complete s before code gap text after :
  Ref.occurrence s before code gap text after ->
  search_postal_city s <> None.
Proof.
  intros (E & L & D & G1 & G2 & T1 & T2). subst s.
  induction before as [|x before IH].
  - destruct code as [|a [|b [|c [|d [|]]]]]; try discriminate.
    destruct text as [|t text]; [discriminate|].
    simpl in D, T2. cbn [append].
    apply andb_true_iff in T2. destruct T2 as [Ht _].
    assert (M : match_postal_city
                  (String a (String b (String c (String d
                     (gap ++ String t text ++ after))))) <> None).
    { unfold match_postal_city.
      apply andb_true_iff in D as [H1 D].
      apply andb_true_iff in D as [H2 D].
      apply andb_true_iff in D as [H3 D].
      apply andb_true_iff in D as [H4 _].
      rewrite H1, H2, H3, H4. simpl.
      pose proof (match_spaces_rest_complete gap t (text ++ after) G1 G2 Ht) as N.
      simpl in N.
      destruct (match_spaces_rest (gap ++ String t (text ++ after)));
        [discriminate|congruence]. }
    rewrite search_postal_city_unfold.
    destruct (match_postal_city _); [discriminate|congruence].
  - rewrite search_postal_city_unfold.
    destruct (match_postal_city _); [discriminate|exact IH].
Qed.

Lemma lstrip_blank s : Ref.blank s = true -> lstrip s = "".
Proof.
  unfold Ref.blank. induction s as [|c s IH]; simpl; [reflexivity|].
  intro H. apply andb_true_iff in H. destruct H as [Hc Hs]. now rewrite Hc, IH.
Qed.

Lemma blank_comma_free s : Ref.blank s = true -> Ref.comma_free s = true.
Proof.
  unfold Ref.blank, Ref.comma_free. apply forall_impl.
  intros c Hc. apply negb_true_iff, Ascii.eqb_neq. intros ->. discriminate Hc.
Qed.

Lemma split_single token :
  str_truthy token = true -> Ref.comma_free token = true ->
  _split_address (Some token) =
    match search_postal_city (strip token) with
    | Some (code, text) => (None, Some code, Some (strip text))
    | None => (Some (strip token), None, None)
    end.
Proof.
  intros Ht Hc. unfold _split_address.
  rewrite Ht, (split_comma_free token Hc). cbn [negb map].
  destruct (search_postal_city (strip token)) as [[code text]|]; reflexivity.
Qed.

Lemma split_several first second more :
  Ref.comma_free first = true -> Ref.comma_free second = true ->
  Ref.empty_or_starts "," more ->
  _split_address (Some (first ++ "," ++ second ++ more)) =
    match search_postal_city (strip second) with
    | Some (code, text) => (Some (strip first), Some code, Some (strip text))
    | None => (Some (strip first), None, None)
    end.
Proof.
  intros Hf Hs Hm. unfold _split_address.
  assert (T : str_truthy (first ++ "," ++ second ++ more) = true)
    by (destruct first; reflexivity).
  rewrite T. cbn [negb].
  change (first ++ "," ++ second ++ more)
    with (first ++ String "," (second ++ more)).
  rewrite (split_first first _ Hf).
  destruct (split_head second more Hs Hm) as [tl ->]. cbn [map].
  destruct (search_postal_city (strip second)) as [[code text]|]; reflexivity.
Qed.

(** *** The search finds the leftmost, greedy match *)

Lemma match_spaces_rest_none r :
  match_spaces_rest r = None ->
  forall w rest,
    r = w ++ rest -> str_truthy w = true -> Ref.blank w = true ->
    Ref.stops_run isdot rest.
Proof.
  intros N w rest -> T B. destruct rest as [|x tail]; [exact I|].
  cbn. destruct (isdot x) eqn:D; [|reflexivity].
  destruct (match_spaces_rest_complete w x tail T B D N).
Qed.

Lemma match_spaces_rest_greedy r : forall text,
  match_spaces_rest r = Some text ->
  exists gap after,
    r = gap ++ text ++ after
    /\ str_truthy gap = true /\ Ref.blank gap = true
    /\ str_truthy text = true /\ str_forall isdot text = true
    /\ Ref.stops_run isdot after /\ Ref.greedy_gap text after.
Proof.
  induction r as [|c r IH]; intros text H; [discriminate|].
  rewrite match_spaces_rest_unfold in H.
  destruct (isspace c) eqn:Hc; [|discriminate].
  destruct (match_spaces_rest r) as [g|] eqn:M.
  - injection H as <-.
    destruct (IH g eq_refl) as (gap & after & E & T & B & T' & D & S & G).
    exists (String c gap), after. subst r.
    split; [reflexivity|]. split; [reflexivity|].
    split; [unfold Ref.blank in *; cbn; now rewrite Hc|]. auto.
  - unfold match_dot_plus in H.
    destruct (span_spec isdot r) as (E & F & S).
    destruct (fst (span isdot r)) as [|x g] eqn:Eg; [discriminate|].
    injection H as <-.
    exists (String c ""), (snd (span isdot r)).
    split; [cbn [append]; f_equal; exact E|]. split; [reflexivity|].
    split; [unfold Ref.blank; cbn; now rewrite Hc|].
    split; [reflexivity|]. split; [exact F|]. split; [exact S|].
    intros w rest Ew Tw Bw. rewrite <- E in Ew.
    exact (match_spaces_rest_none r M w rest Ew Tw Bw).
Qed.

Lemma match_postal_city_greedy s code text :
  match_postal_city s = Some (code, text) ->
  exists gap after,
    Ref.occurrence s "" code gap text after
    /\ Ref.stops_run isdot after /\ Ref.greedy_gap text after.
Proof.
  unfold match_postal_city.
  destruct s as [|a [|b [|c [|d r]]]]; try discriminate.
  destruct (isdigit a && isdigit b && isdigit c && isdigit d) eqn:Hd;
    [|discriminate].
  destruct (match_spaces_rest r) as [g'|] eqn:Hr; [|discriminate].
  intro H. injection H as <- <-.
  destruct (match_spaces_rest_greedy r g' Hr)
    as (gap & after & E & P1 & P2 & P3 & P4 & P5 & P6).
  exists gap, after. split; [|auto]. unfold Ref.occurrence. simpl.
  apply andb_true_iff in Hd as [Hd H4].
  apply andb_true_iff in Hd as [Hd H3].
  apply andb_true_iff in Hd as [H1 H2].
  rewrite E, H1, H2, H3, H4. auto 10.
Qed.

Lemma match_postal_city_complete s code gap text after :
  Ref.occurrence s "" code gap text after -> match_postal_city s <> None.
Proof.
  intros (E & L & D & G1 & G2 & T1 & T2). subst s.
  destruct code as [|a [|b [|c [|d [|]]]]]; try discriminate.
  destruct text as [|t text]; [discriminate|].
  simpl in D, T2. cbn [append].
  apply andb_true_iff in T2. destruct T2 as [Ht _].
  unfold match_postal_city.
  apply andb_true_iff in D as [H1 D].
  apply andb_true_iff in D as [H2 D].
  apply andb_true_iff in D as [H3 D].
  apply andb_true_iff in D as [H4 _].
  rewrite H1, H2, H3, H4. simpl.
  pose proof (match_spaces_rest_complete gap t (text ++ after) G1 G2 Ht) as N.
  simpl in N.
  destruct (match_spaces_rest (gap ++ String t (text ++ after)));
    [discriminate|congruence].
Qed.

(** A hit of the search is the leftmost, greedy match. *)
Lemma search_postal_city_leftmost s : forall code text,
  search_postal_city s = Some (code, text) -> Ref.leftmost_hit s code text.
Proof.
  induction s as [|x s IH]; intros code text; rewrite search_postal_city_unfold.
  - cbn. discriminate.
  - destruct (match_postal_city (String x s)) as [[code' text']|] eqn:M.
    + intro H. injection H as <- <-.
      destruct (match_postal_city_greedy _ _ _ M) as (gap & after & O & S & G).
      exists "", gap, after.
      split; [exact O|]. split; [exact S|]. split; [exact G|].
      intros b r _ L. cbn in L. lia.
    + intro H.
      destruct (IH code text H) as (before & gap & after & O & S & G & Lm).
      exists (String x before), gap, after.
      split; [|split; [exact S|split; [exact G|]]].
      * destruct O as (E & R). split; [cbn; now rewrite E|exact R].
      * intros b r E L c g t a O'. destruct b as [|y b].
        -- cbn in E. subst r.
           exact (match_postal_city_complete _ _ _ _ _ O' M).
        -- cbn in E, L. injection E as _ E.
           assert (L' : (String.length b < String.length before)%nat) by lia.
           exact (Lm b r E L' c g t a O').
Qed.

Lemma search_postal_city_no_hit s :
  search_postal_city s = None -> Ref.no_hit s.
Proof.
  intros N before code gap text after O.
  exact (search_postal_city_complete s _ _ _ _ _ O N).
Qed.

Lemma append_same_length a : forall a' b b',
  a ++ b = a' ++ b' -> String.length a = String.length a' ->
  a = a' /\ b = b'.
Proof.
  induction a as [|x a IH]; intros [|y a'] b b' E L; try discriminate L.
  - now split.
  - cbn in E, L. injection E as -> E. injection L as L.
    destruct (IH a' b b' E L) as [-> ->]. now split.
Qed.

Lemma append_shorter a : forall a' b b',
  a ++ b = a' ++ b' -> (String.length a < String.length a')%nat ->
  exists w, str_truthy w = true /\ a' = a ++ w /\ b = w ++ b'.
Proof.
  induction a as [|x a IH]; intros [|y a'] b b' E L; cbn in L; try lia.
  - cbn in E. exists (String y a'). now split.
  - cbn in E. injection E as -> E.
    destruct (IH a' b b' E) as (w & T & -> & ->); [lia|].
    exists w. now split.
Qed.

Lemma occurrence_here before code gap text after :
  Ref.occurrence (before ++ code ++ gap ++ text ++ after) before code gap
    text after ->
  Ref.occurrence (code ++ gap ++ text ++ after) "" code gap text after.
Proof. intros (_ & R). split; [reflexivity|exact R]. Qed.

Lemma dot_run_unique t : forall a t' a',
  str_forall isdot t = true -> Ref.stops_run isdot a ->
  str_forall isdot t' = true -> Ref.stops_run isdot a' ->
  t ++ a = t' ++ a' -> t = t'.
Proof.
  induction t as [|x t IH]; intros a [|y t'] a' D S D' S' E.
  - reflexivity.
  - cbn in E. subst a. cbn in S, D'.
    apply andb_true_iff in D'. destruct D' as [Dy _]. congruence.
  - cbn in E. subst a'. cbn in S', D.
    apply andb_true_iff in D. destruct D as [Dx _]. congruence.
  - cbn in E. injection E as -> E. cbn in D, D'.
    apply andb_true_iff in D. apply andb_true_iff in D'.
    f_equal. apply (IH a t' a'); tauto.
Qed.

Lemma gap_unique g t a g' t' a' :
  g ++ t ++ a = g' ++ t' ++ a' ->
  Ref.blank g' = true -> str_truthy t' = true -> str_forall isdot t' = true ->
  Ref.greedy_gap t a ->
  ~ (String.length g < String.length g')%nat.
Proof.
  intros E B' T' D' G L.
  destruct (append_shorter g g' _ _ E L) as (w & Tw & -> & Ew).
  unfold Ref.blank in B'. rewrite forall_append in B'.
  apply andb_true_iff in B'. destruct B' as [_ Bw].
  pose proof (G w (t' ++ a') Ew Tw Bw) as S.
  destruct t' as [|y t']; [discriminate|].
  cbn in S, D'. apply andb_true_iff in D'. destruct D' as [Dy _]. congruence.
Qed.

(** There is at most one leftmost, greedy match. *)
Lemma leftmost_hit_unique s code text code' text' :
  Ref.leftmost_hit s code text -> Ref.leftmost_hit s code' text' ->
  code = code' /\ text = text'.
Proof.
  intros (b & g & a & O & S & G & Lm) (b' & g' & a' & O' & S' & G' & Lm').
  assert (Lb : String.length b = String.length b').
  { destruct (Nat.lt_total (String.length b) (String.length b'))
      as [L|[L|L]]; [exfalso|exact L|exfalso].
    - destruct O as (E & R). apply (Lm' b _ E L code g text a).
      split; [reflexivity|exact R].
    - destruct O' as (E' & R'). apply (Lm b' _ E' L code' g' text' a').
      split; [reflexivity|exact R']. }
  destruct O as (E & Lc & Dc & Tg & Bg & Tt & Dt).
  destruct O' as (E' & Lc' & Dc' & Tg' & Bg' & Tt' & Dt').
  rewrite E in E'.
  destruct (append_same_length _ _ _ _ E' Lb) as [_ E1].
  destruct (append_same_length _ _ _ _ E1 (eq_trans Lc (eq_sym Lc')))
    as [<- E2].
  split; [reflexivity|].
  assert (Lg : String.length g = String.length g').
  { destruct (Nat.lt_total (String.length g) (String.length g'))
      as [L|[L|L]]; [exfalso|exact L|exfalso].
    - exact (gap_unique g text a g' text' a' E2 Bg' Tt' Dt' G L).
    - exact (gap_unique g' text' a' g text a (eq_sym E2) Bg Tt Dt G' L). }
  destruct (append_same_length _ _ _ _ E2 Lg) as [_ E3].
  exact (dot_run_unique text a text' a' Dt S Dt' S' E3).
Qed.

(** The search returns the leftmost, greedy match, and nothing exactly
    when there is no match. *)
Lemma search_postal_city_exact s code text :
  search_postal_city s = Some (code, text) <-> Ref.leftmost_hit s code text.
Proof.
  split; [apply search_postal_city_leftmost|].
  intro H. destruct (search_postal_city s) as [[code' text']|] eqn:E.
  - destruct (leftmost_hit_unique s code text code' text' H
                (search_postal_city_leftmost s _ _ E)) as [-> ->].
    reflexivity.
  - destruct H as (b & g & a & O & _).
    destruct (search_postal_city_no_hit s E _ _ _ _ _ O).
Qed.

Lemma search_postal_city_none s :
  search_postal_city s = None <-> Ref.no_hit s.
Proof.
  split; [apply search_postal_city_no_hit|].
  intro N. destruct (search_postal_city s) as [[code text]|] eqn:E;
    [|reflexivity].
  destruct (search_postal_city_leftmost s _ _ E) as (b & g & a & O & _).
  destruct (N _ _ _ _ _ O).
Qed.

(** C3, as the code has it.  An absent or empty input gives
    [(None, None, None)].  A non-empty input without a comma is trimmed
    and searched for the leftmost place where four digits are followed by
    white space and more text on the same line: on a hit the result is
    [(None, digits, trimmed text)], otherwise the trimmed input is the
    street line (the empty line for an input of white space only).  With
    one comma or more the trimmed first part is the street line and the
    trimmed second part is searched the same way.  A part either has
    such a place or has none, and the leftmost hit (the four digits and
    the text, which runs to the end of its line after the longest
    stretch of white space) is unique, so every result is fixed.  The
    function is total: no step of it can raise. *)
Theorem split_address_contract :
  _split_address None = (None, None, None)
  /\ _split_address (Some "") = (None, None, None)
  /\ (forall token,
        str_truthy token = true -> Ref.comma_free token = true ->
        (forall code text,
           Ref.leftmost_hit (strip token) code text ->
           _split_address (Some token)
           = (None, Some code, Some (strip text)))
        /\ (Ref.no_hit (strip token) ->
            _split_address (Some token) = (Some (strip token), None, None)))
  /\ (forall s,
        str_truthy s = true -> Ref.blank s = true ->
        _split_address (Some s) = (Some "", None, None))
  /\ (forall first second more,
        Ref.comma_free first = true -> Ref.comma_free second = true ->
        Ref.empty_or_starts "," more ->
        (forall code text,
           Ref.leftmost_hit (strip second) code text ->
           _split_address (Some (first ++ "," ++ second ++ more))
           = (Some (strip first), Some code, Some (strip text)))
        /\ (Ref.no_hit (strip second) ->
            _split_address (Some (first ++ "," ++ second ++ more))
            = (Some (strip first), None, None)))
  /\ (forall s,
        (exists code text, Ref.leftmost_hit s code text) \/ Ref.no_hit s)
  /\ (forall s code text code' text',
        Ref.leftmost_hit s code text -> Ref.leftmost_hit s code' text' ->
        code = code' /\ text = text')
  /\ (forall s code text, Ref.leftmost_hit s code text -> ~ Ref.no_hit s)
  /\ _split_address (Some "Jerikoveien 91B, 0575 Oslo")
     = (Some "Jerikoveien 91B", Some "0575", Some "Oslo").
Proof.
  split; [reflexivity|]. split; [reflexivity|].
  split.
  { intros token T C. rewrite (split_single token T C). split.
    - intros code text H. apply search_postal_city_exact in H.
      now rewrite H.
    - intro N. apply search_postal_city_none in N. now rewrite N. }
  split.
  { intros s Hs Hb.
    rewrite (split_single s Hs (blank_comma_free s Hb)).
    unfold strip. rewrite (lstrip_blank s Hb). reflexivity. }
  split.
  { intros first second more Cf Cs M.
    rewrite (split_several first second more Cf Cs M). split.
    - intros code text H. apply search_postal_city_exact in H.
      now rewrite H.
    - intro N. apply search_postal_city_none in N. now rewrite N. }
  split.
  { intro s. destruct (search_postal_city s) as [[code text]|] eqn:E.
    - left. exists code, text. now apply search_postal_city_leftmost.
    - right. now apply search_postal_city_no_hit. }
  split; [exact leftmost_hit_unique|].
  split; [|reflexivity].
  intros s code text (b & g & a & O & _) N. exact (N _ _ _ _ _ O).
Qed.

(** The contract at a postal code with its city, at an input of white
    space only, and at an address with two commas. *)
Lemma split_address_contract_witness :
  _split_address (Some "0575 Oslo") = (None, Some "0575", Some "Oslo")
  /\ _split_address (Some "   ") = (Some "", None, None)
  /\ _split_address (Some "Jerikoveien 91B, 0575 Oslo, Norge")
     = (Some "Jerikoveien 91B", Some "0575", Some "Oslo").
Proof.
  destruct split_address_contract as (_ & _ & S1 & S2 & S3 & _).
  split.
  { exact (proj1 (S1 "0575 Oslo" eq_refl eq_refl) "0575" "Oslo"
             (search_postal_city_leftmost "0575 Oslo" "0575" "Oslo"
                eq_refl)). }
  split; [exact (S2 "   " eq_refl eq_refl)|].
  exact (proj1 (S3 "Jerikoveien 91B" " 0575 Oslo" ", Norge" eq_refl eq_refl
                  (or_intror (ex_intro _ " Norge" eq_refl)))
           "0575" "Oslo"
           (search_postal_city_leftmost "0575 Oslo" "0575" "Oslo" eq_refl)).
Defined.

(** C3 as the specification states it fails on the code: an input of one
    space is blank, yet its street line comes back as the empty string,
    not as absent; and a second part is searched throughout, not only
    matched at its start. *)
Lemma split_address_not_as_specified :
  Ref.blank " " = true
  /\ Ref.split_address_spec (Some " ") = (None, None, None)
  /\ _split_address (Some " ") = (Some "", None, None)
  /\ Ref.split_address_spec (Some "Storgata 1, Postboks 0575 Oslo")
     = (Some "Storgata 1", None, None)
  /\ _split_address (Some "Storgata 1, Postboks 0575 Oslo")
     = (Some "Storgata 1", Some "0575", Some "Oslo")
  /\ _split_address (Some " ") <> Ref.split_address_spec (Some " ").
Proof. repeat split; try reflexivity. discriminate. Qed.

End AddressSpec.

(** ** ListingMetadataHarvester *)

Module HarvesterSpec.

Import PyFacts AddressSpec Scraper.

Lemma strip_prefix_spec p s r : strip_prefix p s = Some r <-> s = p ++ r.
Proof.
  revert s. induction p as [|a p IH]; intros s; simpl.
  - split; [intro H; now injection H|intros ->; reflexivity].
  - destruct s as [|b s]; [split; discriminate|].
    destruct (Ascii.eqb_spec a b) as [->|N].
    + rewrite IH. split; [intros ->; reflexivity|intro H; now injection H].
    + split; [discriminate|]. intro H. injection H as E _. congruence.
Qed.

(** A run of [p] followed by a character outside [p] is what [span]
    takes. *)
Lemma span_append p a b :
  str_forall p a = true ->
  match b with EmptyString => True | String c _ => p c = false end ->
  span p (a ++ b) = (a, b).
Proof.
  intros Ha Hb. induction a as [|x a IH]; simpl.
  - destruct b as [|c b]; [reflexivity|]. simpl. now rewrite Hb.
  - simpl in Ha. apply andb_true_iff in Ha. destruct Ha as [Hx Ha].
    now rewrite Hx, (IH Ha).
Qed.

Lemma span_eq p s a b :
  span p s = (a, b) ->
  s = a ++ b /\ str_forall p a = true
  /\ match b with EmptyString => True | String c _ => p c = false end.
Proof.
  intro E. pose proof (span_spec p s) as H. rewrite E in H. exact H.
Qed.

Lemma at_end_spec s :
  at_end s = true <-> s = "" \/ s = String newline "".
Proof.
  destruct s as [|c [|d s]]; simpl.
  - tauto.
  - rewrite Ascii.eqb_eq. split; [intros ->; auto|].
    intros [H|H]; [discriminate|now injection H].
  - split; [discriminate|]. intros [H|H]; discriminate.
Qed.

(** The path part of the pattern matches exactly the texts of the shape
    [/realestate/cat/ad.html?finnkode=code], possibly with one final line
    feed. *)
Lemma match_path_spec s cat finncode :
  match_path s = Some (cat, finncode) <->
  Ref.well_formed cat finncode /\
  (s = Ref.listing_path cat finncode
   \/ s = Ref.listing_path cat finncode ++ String newline "").
Proof.
  unfold match_path, Ref.well_formed, Ref.listing_path. split.
  - destruct (strip_prefix "/realestate/" s) as [s1|] eqn:E1; [|discriminate].
    apply strip_prefix_spec in E1.
    destruct (span isalpha_ascii s1) as [c s2] eqn:E2.
    apply span_eq in E2. destruct E2 as (E2 & A & _).
    destruct (str_truthy c) eqn:Tc; [|discriminate].
    destruct (strip_prefix "/ad.html?finnkode=" s2) as [s3|] eqn:E3;
      [|discriminate].
    apply strip_prefix_spec in E3.
    destruct (span isdigit s3) as [f s4] eqn:E4.
    apply span_eq in E4. destruct E4 as (E4 & D & _).
    destruct (str_truthy f) eqn:Tf; [|discriminate]. cbn [andb].
    destruct (at_end s4) eqn:E5; [|discriminate].
    intro H. injection H as <- <-.
    apply at_end_spec in E5.
    split; [auto|]. subst s s1 s2 s3.
    destruct E5 as [->| ->].
    + left. now rewrite append_empty.
    + right. now rewrite !append_assoc.
  - intros [(Tc & A & Tf & D) Hs].
    assert (G : forall tail, at_end tail = true ->
                s = "/realestate/" ++ cat ++ "/ad.html?finnkode=" ++ finncode ++ tail ->
                match strip_prefix "/realestate/" s with
                | Some s1 =>
                    let '(cat0, s2) := span isalpha_ascii s1 in
                    if str_truthy cat0 then
                      match strip_prefix "/ad.html?finnkode=" s2 with
                      | Some s3 =>
                          let '(finncode0, s4) := span isdigit s3 in
                          if str_truthy finncode0 && at_end s4
                          then Some (cat0, finncode0) else None
                      | None => None
                      end
                    else None
                | None => None
                end = Some (cat, finncode)).
    { intros tail Ht ->.
      rewrite (proj2 (strip_prefix_spec "/realestate/" _ _) eq_refl).
      rewrite (span_append isalpha_ascii cat
                 ("/ad.html?finnkode=" ++ finncode ++ tail) A eq_refl), Tc.
      rewrite (proj2 (strip_prefix_spec "/ad.html?finnkode=" _ _) eq_refl).
      assert (Hd : match tail with
                   | EmptyString => True
                   | String c _ => isdigit c = false
                   end).
      { apply at_end_spec in Ht. destruct Ht as [->| ->]; [exact I|reflexivity]. }
      rewrite (span_append isdigit finncode tail D Hd), Tf, Ht. reflexivity. }
    destruct Hs as [->| ->].
    + apply (G ""); [reflexivity|]. now rewrite append_empty.
    + apply (G (String newline "")); [reflexivity|].
      now rewrite !append_assoc.
Qed.

(** What one anchor contributes. *)
Lemma harvest_href_relative cat finncode :
  Ref.well_formed cat finncode ->
  harvest_href (Ref.listing_path cat finncode)
  = [ {| Meta.url := Ref.origin ++ Ref.listing_path cat finncode;
         Meta.category := cat;
         Meta.finn_id := finncode |} ].
Proof.
  intro W. unfold harvest_href, REALESTATE_PATTERN_match.
  assert (M : match_path (Ref.listing_path cat finncode) = Some (cat, finncode))
    by (apply match_path_spec; auto).
  destruct (strip_prefix "https://www.finn.no" (Ref.listing_path cat finncode))
    as [rest|] eqn:E.
  - apply strip_prefix_spec in E. discriminate E.
  - rewrite M. reflexivity.
Qed.

(** Entries come out in the order of the anchors, and an anchor that
    does not match contributes nothing. *)
Lemma harvest_in_order els metas :
  harvest els = Ret metas ->
  exists hrefs,
    Forall2 (fun el h => Zendriver.attr "href" (Zendriver.attrs el) = Ret h)
      els hrefs
    /\ metas = flat_map harvest_href hrefs.
Proof.
  revert metas. induction els as [|el els IH]; simpl; intros metas H.
  - injection H as <-. exists []. split; [constructor|reflexivity].
  - apply bind_ret_inv in H. destruct H as (h & Eh & H).
    apply bind_ret_inv in H. destruct H as (ms & Em & H).
    injection H as <-. destruct (IH ms Em) as (hrefs & F & ->).
    exists (h :: hrefs). split; [now constructor|reflexivity].
Qed.

Lemma harvest_anchors hrefs :
  harvest (map Ref.anchor hrefs) = Ret (flat_map harvest_href hrefs).
Proof.
  induction hrefs as [|h hrefs IH]; simpl; [reflexivity|].
  rewrite IH. reflexivity.
Qed.

(** C2 (the code departs from it).  A relative listing href yields the
    absolute URL, the category and the code, and a non-matching href
    yields nothing; but an href that already carries the origin, which
    the pattern accepts, gets the origin a second time: the entry's URL
    is not the listing's absolute URL. *)
Theorem harvest_doubles_origin :
  harvest_href "https://www.finn.no/realestate/homes/ad.html?finnkode=123456789"
  = [ {| Meta.url := "https://www.finn.nohttps://www.finn.no/realestate/homes/ad.html?finnkode=123456789";
         Meta.category := "homes";
         Meta.finn_id := "123456789" |} ]
  /\ harvest_href "/realestate/homes/ad.html?finnkode=123456789"
     = [ {| Meta.url := "https://www.finn.no/realestate/homes/ad.html?finnkode=123456789";
            Meta.category := "homes";
            Meta.finn_id := "123456789" |} ]
  /\ harvest_href "/realestate/homes/search.html" = [].
Proof. repeat split; reflexivity. Qed.

End HarvesterSpec.

(** ** PageNavigator *)

Module NavigatorSpec.

Import PyFacts Scraper.

Lemma fold_max_ge rest x c :
  (c <= x)%Z \/ In c rest -> (c <= fold_left Z.max rest x)%Z.
Proof.
  revert x. induction rest as [|y rest IH]; simpl; intros x H.
  - destruct H as [H|[]]. exact H.
  - apply IH. destruct H as [H|[<-|H]]; [left|left|right]; try lia. exact H.
Qed.

(** The maximum is at least every element. *)
Lemma max_of_ge xs m c : max_of xs = Ret m -> In c xs -> (c <= m)%Z.
Proof.
  destruct xs as [|x rest]; simpl; [discriminate|].
  intro H. injection H as <-. intros [<-|H]; apply fold_max_ge.
  - left. lia.
  - right. exact H.
Qed.

(** Whenever the page marked current is one of the page links, which is
    how a navigation control is rendered, [_has_more_pages] answers
    [True]: it cannot tell the last page from any other. *)
Lemma has_more_pages_on_listed_page tab el els c pages :
  Zendriver.select tab ("a[aria-current=" ++ Zendriver.dq ++ "page"
                        ++ Zendriver.dq ++ "]") = Ret (Some el) ->
  int_text el = Ret c ->
  Zendriver.select_all tab ("a[aria-label^=" ++ Zendriver.dq ++ "Side "
                            ++ Zendriver.dq ++ "]") = Ret (Some els) ->
  int_texts els = Ret pages ->
  In c pages ->
  _has_more_pages tab = Ret true.
Proof.
  intros E1 E2 E3 E4 Hin. unfold _has_more_pages.
  rewrite E1. cbn [bind]. rewrite E2. cbn [bind]. rewrite E3. cbn [bind elements].
  rewrite E4. cbn [bind].
  destruct (max_of pages) as [m|e] eqn:Em.
  - cbn [bind]. f_equal. apply Z.geb_le. exact (max_of_ge _ _ _ Em Hin).
  - destruct pages; [destruct Hin|discriminate Em].
Qed.

(** Why the loop was left, read back from its result. *)
Lemma crawl_loop_stops browser_get fuel filters max_pages page metas c :
  crawl_loop browser_get fuel filters max_pages page metas = Some c ->
  match reason c with
  | NoMorePages =>
      exists tab, browser_get (page_url filters (Scraper.page c)) = Ret tab
                  /\ _has_more_pages tab = Ret false
  | MaxPagesReached =>
      max_pages_reached max_pages (Scraper.page c) = true
      /\ exists tab, browser_get (page_url filters (Scraper.page c)) = Ret tab
                     /\ _has_more_pages tab = Ret true
  | PageError e =>
      (tab <- browser_get (page_url filters (Scraper.page c)) ;;
       _ <- _find_realestate_meta tab ;;
       _has_more_pages tab) = Raise e
  end.
Proof.
  revert page metas. induction fuel as [|fuel IH]; intros page metas;
    cbn [crawl_loop]; [discriminate|].
  destruct (browser_get (page_url filters page)) as [tab|e] eqn:Eb; cbn [bind].
  - destruct (_find_realestate_meta tab) as [ms|e] eqn:Em; cbn [bind].
    + destruct (_has_more_pages tab) as [[|]|e] eqn:Eh.
      * destruct (max_pages_reached max_pages page) eqn:Emax.
        -- intro H. injection H as <-. cbn. split; [exact Emax|].
           exists tab. auto.
        -- apply IH.
      * intro H. injection H as <-. cbn. exists tab. auto.
      * intro H. injection H as <-. cbn. rewrite Eb. cbn [bind].
        rewrite Em. cbn [bind]. exact Eh.
    + intro H. injection H as <-. cbn. rewrite Eb. cbn [bind].
      rewrite Em. reflexivity.
  - intro H. injection H as <-. cbn. rewrite Eb. reflexivity.
Qed.

Lemma only_page_harvest :
  _find_realestate_meta Ref.only_page = Ret [Ref.listing "1"; Ref.listing "2"].
Proof. reflexivity. Qed.

Lemma only_page_has_more : _has_more_pages Ref.only_page = Ret true.
Proof. reflexivity. Qed.

Lemma one_page_site_runs_on fuel page metas :
  crawl_loop Ref.one_page_site fuel [] None page metas = None.
Proof.
  revert page metas. induction fuel as [|fuel IH]; intros page metas;
    cbn [crawl_loop]; [reflexivity|].
  unfold Ref.one_page_site at 1. cbn [bind].
  rewrite only_page_harvest. cbn [bind].
  rewrite only_page_has_more. cbn [max_pages_reached]. apply IH.
Qed.

(** C1 (the code departs from it).  On the only page of a one-page result
    set the current page indicator equals the maximum, and the crawl is
    meant to end there.  [_has_more_pages] answers [True], so the loop
    asks for page 2: on a site that keeps rendering its last page it
    never ends, and on a site that fails beyond the last page it ends
    through the exception handler at page 2. *)
Theorem crawl_runs_past_last_page :
  _has_more_pages Ref.only_page = Ret true
  /\ (forall fuel, crawl_loop Ref.one_page_site fuel [] None 1 [] = None)
  /\ crawl_loop Ref.strict_one_page_site 2 [] None 1 []
     = Some {| reason := PageError TimeoutError;
               Scraper.page := 2;
               property_meta := [Ref.listing "1"; Ref.listing "2"] |}.
Proof.
  split; [reflexivity|]. split; [|reflexivity].
  intro fuel. apply one_page_site_runs_on.
Qed.

End NavigatorSpec.

(** ** GeocodeResolver and NeighbourhoodResolver *)

Module GeoSpec.

Import PyFacts Schema.

#[local] Arguments lookup : simpl never.

Ltac break_match :=
  match goal with
  | |- context [match ?x with _ => _ end] => destruct x eqn:?
  end.

Lemma truthy_not_none v : truthy v = true -> is_not_none v = true.
Proof. destruct v; simpl; congruence. Qed.

(** The code's walk through the response body finds exactly the
    coordinates of the first result; every malformed shape ends in an
    exception or in nothing. *)
Lemma first_point_spec data :
  match first_point data with
  | Ret (Some c) => Some c
  | Ret None => None
  | Raise _ => None
  end = Ref.body_coordinates data.
Proof.
  destruct data as [| | | | |l|d]; try reflexivity.
  unfold first_point, Ref.body_coordinates, Ref.results,
    Ref.result_coordinates, get, get_default, getitem.
  cbn [bind].
  destruct (lookup "adresser" d) as [adr|] eqn:Ea; [|reflexivity].
  destruct adr as [| | | |s|l|items]; cbn; try reflexivity.
  - destruct b; reflexivity.
  - destruct (negb (z =? 0)%Z); reflexivity.
  - destruct (negb (PrimFloat.eqb f 0)); reflexivity.
  - destruct s as [|c s]; cbn; [reflexivity|].
    destruct (String.length s); reflexivity.
  - destruct l as [|first rest]; cbn; [reflexivity|].
    destruct first as [| | | | | |f]; try reflexivity. cbn.
    destruct (lookup "representasjonspunkt" f) as [rp|]; [|reflexivity].
    destruct rp as [| | | | | |pt]; try reflexivity. cbn.
    destruct pt as [|kv pt']; [reflexivity|].
    destruct (lookup "lat" (kv :: pt')) as [la|]; cbn.
    + destruct (is_not_none la) eqn:Hla; cbn.
      * destruct (lookup "lon" (kv :: pt')) as [lo|]; cbn; [|reflexivity].
        destruct (is_not_none lo); reflexivity.
      * destruct (lookup "lon" (kv :: pt')); reflexivity.
    + destruct (lookup "lon" (kv :: pt')); reflexivity.
  - destruct items; cbn; reflexivity.
Qed.

(** [resolve_lat_long] against the specification's reading of the
    service outcome. *)
Lemma resolve_lat_long_spec session_get self :
  resolve_lat_long session_get self =
    match search_parts self with
    | [] => (self, Ret None)
    | _ :: _ =>
        match Ref.first_result_coordinates (session_get (Ref.request self)) with
        | Some (la, lo) => (set_lat_lon self la lo, Ret (Some (la, lo)))
        | None => (self, Ret None)
        end
    end.
Proof.
  unfold resolve_lat_long, Ref.request, Ref.first_result_coordinates.
  destruct (search_parts self) as [|p parts]; [reflexivity|].
  destruct (session_get _) as [r|e]; cbn [bind]; [|reflexivity].
  destruct (aiohttp.status r =? 200)%Z; [|reflexivity].
  destruct (aiohttp.json r) as [data|e]; cbn [bind]; [|reflexivity].
  rewrite <- (first_point_spec data).
  destruct (first_point data) as [[[la lo]|]|e]; reflexivity.
Qed.

Lemma failure_no_coordinates outcome :
  Ref.failure outcome -> Ref.first_result_coordinates outcome = None.
Proof.
  intros [ | |r N|r e E|r data E B|r d E A]; cbn; try reflexivity.
  - apply Z.eqb_neq in N. now rewrite N.
  - rewrite E. now destruct (_ =? _)%Z.
  - rewrite E, B. now destruct (_ =? _)%Z.
  - rewrite E. unfold Ref.body_coordinates, Ref.results. rewrite A.
    now destruct (_ =? _)%Z.
Qed.

(** C6, as the code has it.  For every address and every outcome of
    the lookup, [resolve_lat_long] returns without raising; when the
    response is a success whose first result carries both coordinates
    it stores that result's latitude and longitude; under every failure
    mode (network error, timeout, non-success status, undecodable or
    misshapen body, empty result set) and whenever the first result
    lacks a coordinate, whatever the later results hold, the address is
    left as it was. *)
Theorem resolve_lat_long_contract :
  forall (session_get : string -> result aiohttp.response) (self : Address),
    let outcome := session_get (Ref.request self) in
    let after := fst (resolve_lat_long session_get self) in
    (exists r, snd (resolve_lat_long session_get self) = Ret r)
    /\ (forall la lo,
          search_parts self <> [] ->
          Ref.first_result_coordinates outcome = Some (la, lo) ->
          after = set_lat_lon self la lo
          /\ lat after = la /\ lon after = lo
          /\ is_not_none la = true /\ is_not_none lo = true)
    /\ (Ref.first_result_coordinates outcome = None -> after = self)
    /\ (Ref.failure outcome -> after = self)
    /\ (search_parts self = [] -> after = self).
Proof.
  intros session_get self outcome after. subst outcome after.
  rewrite resolve_lat_long_spec.
  destruct (search_parts self) as [|p parts] eqn:Hp.
  - repeat split; cbn; eauto; congruence.
  - destruct (Ref.first_result_coordinates (session_get (Ref.request self)))
      as [[la lo]|] eqn:Hc.
    + split; [cbn; eauto|]. split.
      * intros la' lo' _ E. injection E as <- <-. cbn.
        repeat split; try reflexivity.
        -- revert Hc. unfold Ref.first_result_coordinates, Ref.body_coordinates,
             Ref.results, Ref.result_coordinates.
           repeat break_match; try discriminate.
           intro E. injection E as <- <-.
           match goal with
           | H : _ && _ = true |- _ => apply andb_true_iff in H; tauto
           end.
        -- revert Hc. unfold Ref.first_result_coordinates, Ref.body_coordinates,
             Ref.results, Ref.result_coordinates.
           repeat break_match; try discriminate.
           intro E. injection E as <- <-.
           match goal with
           | H : _ && _ = true |- _ => apply andb_true_iff in H; tauto
           end.
      * split; [discriminate|]. split; [|discriminate].
        intro F. apply failure_no_coordinates in F. congruence.
    + split; [cbn; eauto|]. split; [intros la lo _ E; discriminate E|].
      repeat split; reflexivity.
Qed.

(** The contract at a service that answers with one located result. *)
Lemma resolve_lat_long_contract_witness :
  let self := new_address (Some "Jerikoveien 91B") (Some "0575") (Some "Oslo") in
  lat (fst (resolve_lat_long Ref.one_result_service self)) = VFloat 59.5
  /\ lon (fst (resolve_lat_long Ref.one_result_service self)) = VFloat 10.75.
Proof.
  intro self.
  destruct (resolve_lat_long_contract Ref.one_result_service self)
    as (_ & S & _).
  destruct (S (VFloat 59.5) (VFloat 10.75)) as (_ & Hla & Hlo & _).
  - discriminate.
  - reflexivity.
  - split; [exact Hla|exact Hlo].
Defined.

(** C6 as the specification states it fails on the code: a successful
    response contains a result with both coordinates, the second one,
    but nothing is stored, not even the latitude of the first result. *)
Lemma resolve_lat_long_ignores_later_results :
  let self := new_address (Some "Jerikoveien 91B") (Some "0575") (Some "Oslo") in
  Ref.some_result_located Ref.second_located = true
  /\ nth_error (Ref.results Ref.second_located) 0
     = Some (VDict [("representasjonspunkt", VDict [("lat", VFloat 59.5)])])
  /\ resolve_lat_long Ref.second_located_service self = (self, Ret None)
  /\ lat (fst (resolve_lat_long Ref.second_located_service self)) = VNone.
Proof. repeat split; reflexivity. Qed.

Example resolve_lat_long_one_result :
  resolve_lat_long Ref.one_result_service
    (new_address (Some "Jerikoveien 91B") (Some "0575") (Some "Oslo"))
  = (Ref.located (VFloat 59.5) (VFloat 10.75),
     Ret (Some (VFloat 59.5, VFloat 10.75))).
Proof. reflexivity. Qed.

Section Neighbourhood.

Variables point geometry : Type.
Variable Point : value -> value -> result point.
Variable shape : value -> result geometry.
Variable contains : geometry -> point -> result bool.

Local Abbreviation visit := (Schema.visit point geometry shape contains).
Local Abbreviation visit_all := (Schema.visit_all point geometry shape contains).
Local Abbreviation find_neighbourhood :=
  (Schema.find_neighbourhood point geometry Point shape contains).
Local Abbreviation label_of := (Ref.label_of point geometry shape contains).
Local Abbreviation last_label := (Ref.last_label point geometry shape contains).
Local Abbreviation tested := (Ref.tested point geometry shape).
Local Abbreviation polygon_of := (Ref.polygon_of geometry shape).

(** One feature: the test it runs and the label it assigns. *)
Lemma visit_spec pt feature :
  fst (visit pt feature)
  = match polygon_of feature with Some poly => [(poly, pt)] | None => [] end
  /\ match snd (visit pt feature) with
     | Ret (Some l) => Some l
     | Ret None => None
     | Raise _ => None
     end = label_of pt feature.
Proof.
  unfold Schema.visit, Ref.label_of, Ref.polygon_of, getitem, get, get_default.
  destruct feature as [| | | | | |f]; cbn; auto.
  destruct (lookup "geometry" f) as [g|]; cbn; auto.
  destruct (shape g) as [poly|e]; cbn; auto.
  split; [reflexivity|].
  destruct (contains poly pt) as [[|]|e]; cbn; auto.
  destruct (lookup "properties" f) as [props|]; cbn; auto.
  destruct props; cbn; auto.
Qed.

Lemma set_neighbourhood_twice self a b :
  set_neighbourhood (set_neighbourhood self a) b = set_neighbourhood self b.
Proof. reflexivity. Qed.

(** The loop assigns the label of the last containing feature and tests
    every feature whose polygon can be built, in order. *)
Lemma visit_all_spec pt features self done :
  visit_all pt features self done
  = (match last_label pt features with
     | Some l => set_neighbourhood self l
     | None => self
     end, (done ++ tested pt features)%list).
Proof.
  revert self done. induction features as [|f rest IH]; intros self done.
  - cbn. now rewrite app_nil_r.
  - cbn [Schema.visit_all Ref.last_label Ref.tested flat_map].
    destruct (visit_spec pt f) as [Ht Hl].
    destruct (visit pt f) as [ts r]. cbn [fst snd] in Ht, Hl.
    rewrite IH, <- Hl, <- app_assoc, Ht.
    fold (tested pt rest).
    destruct (last_label pt rest) as [l|]; destruct r as [[n|]|e];
      reflexivity.
Qed.

Lemma set_neighbourhood_fields self n :
  line (set_neighbourhood self n) = line self
  /\ postal_code (set_neighbourhood self n) = postal_code self
  /\ city (set_neighbourhood self n) = city self
  /\ lat (set_neighbourhood self n) = lat self
  /\ lon (set_neighbourhood self n) = lon self.
Proof. repeat split. Qed.

(** The guard of [find_neighbourhood]. *)
Lemma find_neighbourhood_guarded self geojson_data :
  truthy (lat self) = false \/ truthy (lon self) = false ->
  find_neighbourhood self geojson_data = (self, [], Ret tt).
Proof.
  intro H. unfold Schema.find_neighbourhood.
  destruct H as [-> | ->]; [reflexivity|].
  now rewrite orb_true_r.
Qed.

Lemma find_neighbourhood_spec self geojson_data pt features :
  truthy (lat self) = true -> truthy (lon self) = true ->
  Point (lon self) (lat self) = Ret pt ->
  (fs <- get_default geojson_data "features" (VList []) ;; iterate fs)
  = Ret features ->
  find_neighbourhood self geojson_data
  = (match last_label pt features with
     | Some l => set_neighbourhood self l
     | None => self
     end, tested pt features, Ret tt).
Proof.
  intros Hla Hlo Hp Hf. unfold Schema.find_neighbourhood.
  rewrite Hla, Hlo, Hp. cbn [negb orb]. rewrite Hf.
  rewrite visit_all_spec. reflexivity.
Qed.

(** [find_neighbourhood] keeps the invariant of [Address]. *)
Lemma find_neighbourhood_invariant self geojson_data :
  Ref.address_invariant self ->
  Ref.address_invariant (fst (fst (find_neighbourhood self geojson_data))).
Proof.
  intro Inv. unfold Schema.find_neighbourhood.
  destruct (truthy (lat self)) eqn:Hla; [|exact Inv].
  destruct (truthy (lon self)) eqn:Hlo; [|exact Inv]. cbn [negb orb].
  destruct (Point (lon self) (lat self)) as [pt|e]; [|exact Inv].
  destruct (fs <- get_default geojson_data "features" (VList []) ;; iterate fs)
    as [features|e]; [|exact Inv].
  rewrite visit_all_spec. cbn [fst].
  destruct (last_label pt features) as [l|]; [|exact Inv].
  intros _. cbn. split; now apply truthy_not_none.
Qed.

End Neighbourhood.

Lemma resolve_lat_long_invariant session_get self :
  Ref.address_invariant self ->
  Ref.address_invariant (fst (resolve_lat_long session_get self)).
Proof.
  intro Inv. rewrite resolve_lat_long_spec.
  destruct (search_parts self); [exact Inv|].
  destruct (Ref.first_result_coordinates _) as [[la lo]|] eqn:Hc; [|exact Inv].
  intros _. cbn.
  revert Hc. unfold Ref.first_result_coordinates, Ref.body_coordinates,
             Ref.results, Ref.result_coordinates.
  repeat break_match; try discriminate.
  intro E. injection E as <- <-.
  match goal with H : _ && _ = true |- _ => apply andb_true_iff in H end.
  assumption.
Qed.

(** C7, as the code has it.  For every address whose latitude and
    longitude are both truthy (present and not zero), for which [Point]
    accepts them, and every feature collection that can be iterated:
    the point is built from (lon, lat); one containment test is run, in
    iteration order and against that point, for every feature whose
    polygon can be built; the neighbourhood becomes the label of the
    last feature that contains the point and whose label can be read,
    and stays as it was when there is none; a feature that raises is
    skipped and later features are still tested; no other field changes
    and nothing is raised. *)
Theorem find_neighbourhood_contract :
  forall (point geometry : Type)
         (Point : value -> value -> result point)
         (shape : value -> result geometry)
         (contains : geometry -> point -> result bool)
         (self : Address) (geojson_data : value) (features : list value)
         (pt : point),
    truthy (lat self) = true -> truthy (lon self) = true ->
    Point (lon self) (lat self) = Ret pt ->
    (fs <- get_default geojson_data "features" (VList []) ;; iterate fs)
    = Ret features ->
    let '(after, tests_run, outcome) :=
      find_neighbourhood point geometry Point shape contains self geojson_data in
    outcome = Ret tt
    /\ tests_run = Ref.tested point geometry shape pt features
    /\ neighbourhood after
       = match Ref.last_label point geometry shape contains pt features with
         | Some label => label
         | None => neighbourhood self
         end
    /\ line after = line self /\ postal_code after = postal_code self
    /\ city after = city self /\ lat after = lat self /\ lon after = lon self.
Proof.
  intros point geometry Point shape contains self geojson_data features pt
    Hla Hlo Hp Hf.
  rewrite (find_neighbourhood_spec _ _ _ _ _ _ _ _ _ Hla Hlo Hp Hf).
  destruct (Ref.last_label _ _ _ _ pt features); cbn; auto 10.
Qed.

(** The contract at an address in Oslo: both regions that cover it are
    tested, the malformed feature between them is skipped, and the label
    of the later region is kept. *)
Lemma find_neighbourhood_contract_witness :
  let self := Ref.located (VFloat 59.5) (VFloat 10.75) in
  let '(after, tests_run, outcome) :=
    find_neighbourhood _ _ Ref.toy_Point Ref.toy_shape Ref.toy_contains
      self Ref.toy_collection in
  outcome = Ret tt
  /\ tests_run
     = [(VDict [("covers", VBool true)], (VFloat 10.75, VFloat 59.5));
        (VDict [("covers", VBool true)], (VFloat 10.75, VFloat 59.5));
        (VDict [("covers", VBool false)], (VFloat 10.75, VFloat 59.5))]
  /\ neighbourhood after = VStr "Gamle Oslo"
  /\ line after = line self /\ postal_code after = postal_code self
  /\ city after = city self /\ lat after = lat self /\ lon after = lon self.
Proof.
  exact (find_neighbourhood_contract _ _ Ref.toy_Point Ref.toy_shape
           Ref.toy_contains (Ref.located (VFloat 59.5) (VFloat 10.75))
           Ref.toy_collection
           [Ref.toy_feature true "Sentrum";
            VDict [("properties", VDict [])];
            Ref.toy_feature true "Gamle Oslo";
            Ref.toy_feature false "Frogner"]
           (VFloat 10.75, VFloat 59.5)
           eq_refl eq_refl eq_refl eq_refl).
Defined.

(** C7 as the specification states it fails on the code: an address on
    the equator carries both coordinates and lies in a region of the
    collection, yet no test is run and no neighbourhood is assigned. *)
Lemma find_neighbourhood_skips_zero_latitude :
  let self := Ref.located (VFloat 0) (VFloat 10.75) in
  is_not_none (lat self) = true /\ is_not_none (lon self) = true
  /\ Ref.last_label _ _ Ref.toy_shape Ref.toy_contains
       (VFloat 10.75, VFloat 0) [Ref.toy_feature true "Sentrum"]
     = Some (VStr "Sentrum")
  /\ find_neighbourhood _ _ Ref.toy_Point Ref.toy_shape Ref.toy_contains self
       (VDict [("features", VList [Ref.toy_feature true "Sentrum"])])
     = (self, [], Ret tt)
  /\ neighbourhood self = VNone.
Proof. repeat split; reflexivity. Qed.

(** C9.  When latitude and longitude are both present and either of them
    is [0.0], [find_neighbourhood] runs no containment test and leaves
    the address, its neighbourhood included, as it was: the guard tests
    truthiness, not presence.  Every operation on an [Address] keeps
    "a neighbourhood is only set when both coordinates are set". *)
Theorem find_neighbourhood_zero_coordinate :
  forall (point geometry : Type)
         (Point : value -> value -> result point)
         (shape : value -> result geometry)
         (contains : geometry -> point -> result bool)
         (self : Address) (geojson_data : value),
    is_not_none (lat self) = true -> is_not_none (lon self) = true ->
    Ref.zero_coordinate (lat self) = true
    \/ Ref.zero_coordinate (lon self) = true ->
    find_neighbourhood point geometry Point shape contains self geojson_data
    = (self, [], Ret tt)
    /\ (forall l p c, Ref.address_invariant (new_address l p c))
    /\ (forall session_get a,
          Ref.address_invariant a ->
          Ref.address_invariant (fst (resolve_lat_long session_get a)))
    /\ (forall a data,
          Ref.address_invariant a ->
          Ref.address_invariant
            (fst (fst (find_neighbourhood point geometry Point shape contains
                         a data)))).
Proof.
  intros point geometry Point shape contains self geojson_data _ _ Hz.
  split; [|split; [|split]].
  - apply find_neighbourhood_guarded.
    destruct Hz as [Hz|Hz]; [left|right];
      [destruct (lat self)|destruct (lon self)]; try discriminate Hz;
      cbn in *; now rewrite Hz.
  - intros l p c H. discriminate H.
  - intros session_get a. apply resolve_lat_long_invariant.
  - intros a data. apply find_neighbourhood_invariant.
Qed.

Lemma find_neighbourhood_zero_coordinate_witness :
  find_neighbourhood _ _ Ref.toy_Point Ref.toy_shape Ref.toy_contains
    (Ref.located (VFloat 59.5) (VFloat 0)) Ref.toy_collection
  = (Ref.located (VFloat 59.5) (VFloat 0), [], Ret tt).
Proof.
  exact (proj1 (find_neighbourhood_zero_coordinate _ _ Ref.toy_Point
                  Ref.toy_shape Ref.toy_contains
                  (Ref.located (VFloat 59.5) (VFloat 0)) Ref.toy_collection
                  eq_refl eq_refl (or_intror eq_refl))).
Defined.

End GeoSpec.

(** ** FieldExtractor *)

Module ExtractorSpec.

Import PyFacts Parser.

Lemma status_of_texts_cases texts :
  status_of_texts texts = "sold" \/ status_of_texts texts = "active".
Proof.
  induction texts as [|t rest IH]; cbn [status_of_texts]; [now right|].
  destruct (str_truthy t && String.eqb (lower (strip t)) "solgt");
    [now left|exact IH].
Qed.

(** [_status] answers ["sold"] or ["active"] whenever it returns. *)
Lemma status_cases tab s :
  _status tab = Ret s -> s = Some "sold" \/ s = Some "active".
Proof.
  unfold _status. intro H.
  apply bind_ret_inv in H. destruct H as (texts & _ & H).
  injection H as <-.
  destruct (status_of_texts_cases texts) as [-> | ->]; auto.
Qed.

Lemma cleaned_texts_none els :
  Forall (fun el => _clean (element_text el) = None) els ->
  cleaned_texts els = [].
Proof.
  induction 1 as [|el els H _ IH]; cbn [cleaned_texts]; [reflexivity|].
  now rewrite H.
Qed.

(** With nothing to read in the detail region the status is ["active"]. *)
Lemma status_default tab :
  Ref.detail_region_unreadable tab -> _status tab = Ret (Some "active").
Proof.
  unfold Ref.detail_region_unreadable, Ref.detail_region, _status, _all_texts.
  intros [E|[E|[E|(els & E & F)]]]; rewrite E; cbn; try reflexivity.
  now rewrite (cleaned_texts_none els F).
Qed.

(** The [status] argument carries the answer of [_status] on the
    listing's page. *)
Lemma parsed_fields_status
  (point geometry : Type) (Point : value -> value -> result point)
  (shape : value -> result geometry)
  (contains : geometry -> point -> result bool)
  (browser_get : string -> result Zendriver.Tab)
  (session_get : string -> result Schema.aiohttp.response)
  (meta : Meta.RealestateMetadata) (neighbourhoods_geojson : value)
  (fields : Schema.Property) :
  parsed_fields point geometry Point shape contains browser_get
    session_get meta neighbourhoods_geojson = Ret fields ->
  exists tab, browser_get (Meta.url meta) = Ret tab
              /\ _status tab = Ret (Schema.status fields).
Proof.
  unfold parsed_fields. intro H.
  apply bind_ret_inv in H. destruct H as (tab & Etab & H).
  exists tab. split; [exact Etab|].
  apply bind_ret_inv in H. destruct H as (title & _ & H).
  apply bind_ret_inv in H. destruct H as (subtitle & _ & H).
  apply bind_ret_inv in H. destruct H as (status_val & Es & H).
  rewrite Es. f_equal.
  apply bind_ret_inv in H. destruct H as (address_line & _ & H).
  destruct (_split_address address_line) as [[line postal_code] city].
  repeat (apply bind_ret_inv in H; destruct H as (? & _ & H)).
  injection H as <-. reflexivity.
Qed.

(** A record the constructor returns has the fields it was given. *)
Lemma new_property_fields keywords fields prop :
  Schema.new_property keywords fields = Ret prop -> prop = fields.
Proof.
  unfold Schema.new_property.
  destruct (forallb _ _); [|discriminate]. intro H. now injection H.
Qed.

(** C10.  The status the extractor gives a record, that is the [status]
    argument it computes for the call [Property(...)], is ["sold"] or
    ["active"], never ["unknown"]; when no text of the detail region
    can be read (the query times out, finds nothing, or finds elements
    without text) it is ["active"].  Any record [parse_property_page]
    returns has exactly the fields computed. *)
Theorem status_sold_or_active :
  forall (point geometry : Type) (Point : value -> value -> result point)
         (shape : value -> result geometry)
         (contains : geometry -> point -> result bool)
         (browser_get : string -> result Zendriver.Tab)
         (session_get : string -> result Schema.aiohttp.response)
         (meta : Meta.RealestateMetadata) (neighbourhoods_geojson : value)
         (fields : Schema.Property),
    parsed_fields point geometry Point shape contains browser_get
      session_get meta neighbourhoods_geojson = Ret fields ->
    (Schema.status fields = Some "sold"
     \/ Schema.status fields = Some "active")
    /\ Schema.status fields <> Some "unknown"
    /\ (forall tab,
          browser_get (Meta.url meta) = Ret tab ->
          Ref.detail_region_unreadable tab ->
          Schema.status fields = Some "active")
    /\ (forall prop,
          parse_property_page point geometry Point shape contains
            browser_get session_get meta neighbourhoods_geojson = Ret prop ->
          prop = fields).
Proof.
  intros point geometry Point shape contains browser_get session_get meta
    geo fields H.
  destruct (parsed_fields_status _ _ _ _ _ _ _ _ _ _ H)
    as (tab & Etab & Es).
  pose proof (status_cases tab _ Es) as C.
  split; [exact C|]. split; [|split].
  - destruct C as [-> | ->]; discriminate.
  - intros tab' Etab' U. rewrite Etab in Etab'. injection Etab' as <-.
    rewrite (status_default tab U) in Es. now injection Es.
  - intros prop P. unfold parse_property_page in P. rewrite H in P.
    exact (new_property_fields _ _ _ P).
Qed.

(** A sold listing and a page on which nothing can be read. *)
Lemma status_sold_or_active_witness :
  exists sold silent,
    parsed_fields _ _ Ref.toy_Point Ref.toy_shape Ref.toy_contains
      (fun _ => Ret (Ref.badge_page " Solgt ")) Ref.one_result_service
      (Ref.listing "1") Ref.toy_collection = Ret sold
    /\ Schema.status sold = Some "sold"
    /\ parsed_fields _ _ Ref.toy_Point Ref.toy_shape Ref.toy_contains
         (fun _ => Ret Ref.silent_page) Ref.one_result_service
         (Ref.listing "1") VNone = Ret silent
    /\ Schema.status silent = Some "active"
    /\ (Schema.status silent = Some "sold"
        \/ Schema.status silent = Some "active").
Proof.
  eexists. eexists.
  split; [vm_compute; reflexivity|].
  split; [reflexivity|].
  split; [vm_compute; reflexivity|].
  split; [reflexivity|].
  exact (proj1 (status_sold_or_active _ _ Ref.toy_Point Ref.toy_shape
                  Ref.toy_contains (fun _ => Ret Ref.silent_page)
                  Ref.one_result_service (Ref.listing "1") VNone _ eq_refl)).
Defined.

End ExtractorSpec.

(** ** Sets: the table against set semantics *)

Module SetSpec.

Import PyFacts.

Local Open Scope Z_scope.

(** *** The loops as searches *)

Section Probes.

Context {A : Type}.
Variable eqb : A -> A -> bool.

Local Abbreviation entry := (@setentry A).
Local Abbreviation is_unused := (@Ref.is_unused A).
Local Abbreviation stops := (Ref.stops eqb).

Lemma probe_clean_run (t : list entry) i probes :
  probe_clean t i probes = Ref.run_stop is_unused t i probes.
Proof.
  revert i. induction probes as [|p IH]; intro i; cbn;
    destruct (entry_at t i); cbn; auto.
Qed.

Lemma probe_run_stop (t : list entry) key h i probes :
  probe_run eqb t key h i probes
  = match Ref.run_stop (stops key h) t i probes with
    | None => Collision
    | Some j => match entry_at t j with
                | Unused => FoundUnused j
                | Active _ _ => FoundActive
                end
    end.
Proof.
  revert i. induction probes as [|p IH]; intro i; cbn;
    destruct (entry_at t i) as [|h' k] eqn:E; cbn; rewrite ?E; auto;
    destruct ((h' =? h) && eqb k key); rewrite ?E; auto.
Qed.

Lemma insert_clean_spec fuel (t : list entry) m key h i p :
  set_insert_clean fuel t m key h i p
  = option_map (fun j => store t (Z.to_nat j) (Active h key))
      (Ref.first_stop is_unused fuel t m i p).
Proof.
  revert i p. induction fuel as [|fuel IH]; intros i p; cbn; [reflexivity|].
  rewrite probe_clean_run.
  destruct (Ref.run_stop is_unused t i (probes_at i m)); [reflexivity|].
  apply IH.
Qed.

Lemma add_loop_spec fuel so key h i p :
  set_add_loop eqb fuel so key h i p
  = match Ref.first_stop (stops key h) fuel (table so) (mask so) i p with
    | None => None
    | Some j => Ref.settle so key h j
    end.
Proof.
  revert i p. induction fuel as [|fuel IH]; intros i p; cbn; [reflexivity|].
  rewrite probe_run_stop.
  destruct (Ref.run_stop (stops key h) (table so) i (probes_at i (mask so)))
    as [j|]; [|apply IH].
  unfold Ref.settle. destruct (entry_at (table so) j); reflexivity.
Qed.

End Probes.

(** *** The recurrence [i -> 5 i + 1] visits every slot

    Once the perturbation has died out the probe sequence is the linear
    congruential sequence [i -> (5 i + 1) mod 2^k], which has full
    period. *)

Definition step5 (y : Z) : Z := 5 * y + 1.

Lemma iter_step5 n y : 4 * Nat.iter n step5 y + 1 = 5 ^ Z.of_nat n * (4 * y + 1).
Proof.
  induction n as [|n IH].
  - change (5 ^ Z.of_nat 0) with 1.
    change (Nat.iter 0 step5 y) with y. lia.
  - rewrite Nat2Z.inj_succ, Z.pow_succ_r by lia.
    change (Nat.iter (S n) step5 y) with (step5 (Nat.iter n step5 y)).
    unfold step5 at 1. rewrite <- Z.mul_assoc, <- IH. lia.
Qed.

Lemma iter_add {B} (f : B -> B) n m x :
  Nat.iter (n + m) f x = Nat.iter n f (Nat.iter m f x).
Proof.
  induction n as [|n IH]; [reflexivity|].
  change (Nat.iter (S n + m) f x) with (f (Nat.iter (n + m) f x)).
  now rewrite IH.
Qed.

(** [5 ^ (2 ^ j) = 1 + 2 ^ (j + 2) * u] with [u] odd. *)
Lemma pow5_pow2 (j : nat) :
  exists u, 5 ^ (2 ^ Z.of_nat j) = 1 + 2 ^ (Z.of_nat j + 2) * (2 * u + 1).
Proof.
  induction j as [|j [u IH]].
  - exists 0. reflexivity.
  - rewrite Nat2Z.inj_succ, Z.pow_succ_r by lia.
    replace (2 * 2 ^ Z.of_nat j) with (2 ^ Z.of_nat j + 2 ^ Z.of_nat j) by lia.
    rewrite Z.pow_add_r by (apply Z.pow_nonneg; lia). rewrite IH.
    set (P := 2 ^ Z.of_nat j).
    replace (2 ^ (Z.of_nat j + 2)) with (4 * P)
      by (unfold P; rewrite Z.pow_add_r by lia; lia).
    replace (2 ^ (Z.succ (Z.of_nat j) + 2)) with (8 * P)
      by (unfold P; rewrite Z.add_succ_l, Z.pow_succ_r, Z.pow_add_r by lia; lia).
    exists (u + P * (2 * u + 1) * (2 * u + 1)). lia.
Qed.

(** Advancing by [2 ^ j] steps adds an odd multiple of [2 ^ j]. *)
Lemma iter_step5_shift (j : nat) y :
  exists v,
    Nat.iter (Z.to_nat (2 ^ Z.of_nat j)) step5 y
    = y + 2 ^ Z.of_nat j * (2 * v + 1).
Proof.
  destruct (pow5_pow2 j) as [u Hu].
  pose proof (iter_step5 (Z.to_nat (2 ^ Z.of_nat j)) y) as H.
  rewrite Z2Nat.id in H by (apply Z.pow_nonneg; lia).
  rewrite Hu in H. rewrite Z.pow_add_r in H by lia.
  set (P := 2 ^ Z.of_nat j) in *.
  set (Y := Nat.iter (Z.to_nat P) step5 y) in *.
  exists (u + 4 * u * y + 2 * y).
  change (2 ^ 2) with 4 in H. nia.
Qed.

(** Every residue is reached within [2 ^ j] steps. *)
Lemma step5_full_cycle (j : nat) y target :
  exists n, (n < Z.to_nat (2 ^ Z.of_nat j))%nat
            /\ (Nat.iter n step5 y) mod 2 ^ Z.of_nat j
               = target mod 2 ^ Z.of_nat j.
Proof.
  induction j as [|j IH].
  - exists O. split; [cbn; lia|]. now rewrite !Z.mod_1_r.
  - destruct IH as (n & Hn & E).
    assert (Pp : 0 < 2 ^ Z.of_nat j) by (apply Z.pow_pos_nonneg; lia).
    rewrite Nat2Z.inj_succ, Z.pow_succ_r by lia.
    set (P := 2 ^ Z.of_nat j) in *.
    set (a := Nat.iter n step5 y) in *.
    destruct (Z.eq_dec (a mod (2 * P)) (target mod (2 * P))) as [Heq|Hne].
    + exists n. split; [lia|exact Heq].
    + exists (Z.to_nat P + n)%nat. split; [lia|].
      rewrite iter_add. fold a.
      destruct (iter_step5_shift j a) as [v Hv]. fold P in Hv. rewrite Hv.
      (* a and target agree mod P and differ mod 2P *)
      pose proof (Z.div_mod a P ltac:(lia)) as Da.
      pose proof (Z.div_mod target P ltac:(lia)) as Dt.
      pose proof (Z.mod_pos_bound a P Pp) as Ba.
      rewrite E in Da.
      assert (Hodd : exists w, a - target = P * (2 * w + 1)).
      { assert (Hd : a - target = P * (a / P - target / P)) by lia.
        destruct (Z.Even_or_Odd (a / P - target / P)) as [[w Hw]|[w Hw]].
        - exfalso. apply Hne.
          replace a with (target + w * (2 * P)) by nia.
          now rewrite Z.mod_add by lia.
        - exists w. rewrite Hd, Hw. reflexivity. }
      destruct Hodd as [w Hw].
      replace (a + P * (2 * v + 1)) with (target + (w + v + 1) * (2 * P)) by nia.
      now rewrite Z.mod_add by lia.
Qed.


(** *** The probe sequence ends *)

Section Termination.

Context {A : Type}.
Variable stop : @setentry A -> bool.
Variable t : list (@setentry A).
Variable k : nat.
Variable m : Z.
Hypothesis Hk : (k <= 64)%nat.
Hypothesis Hm : m = 2 ^ Z.of_nat k - 1.

Let size_pos : 0 < 2 ^ Z.of_nat k.
Proof. apply Z.pow_pos_nonneg; lia. Qed.

Definition slot_step (i : Z) : Z := step5 i mod 2 ^ Z.of_nat k.

Lemma land_mask x : Z.land x m = x mod 2 ^ Z.of_nat k.
Proof.
  rewrite Hm.
  replace (2 ^ Z.of_nat k - 1) with (Z.ones (Z.of_nat k))
    by (rewrite Z.ones_equiv; lia).
  apply Z.land_ones. lia.
Qed.

Lemma next_slot_range i p : 0 <= next_slot i p m <= m.
Proof.
  unfold next_slot. rewrite land_mask.
  pose proof (Z.mod_pos_bound (to_size_t (i * 5 + 1 + p)) _ size_pos). lia.
Qed.

Lemma next_slot_zero i : next_slot i 0 m = slot_step i.
Proof.
  unfold next_slot, slot_step, step5, to_size_t. rewrite land_mask.
  replace (i * 5 + 1 + 0) with (5 * i + 1) by lia.
  apply Z.mod_mod_divide.
  exists (2 ^ (64 - Z.of_nat k)).
  rewrite <- Z.pow_add_r by lia. f_equal. lia.
Qed.

Lemma slot_step_iter n i :
  (Nat.iter n slot_step i) mod 2 ^ Z.of_nat k
  = (Nat.iter n step5 i) mod 2 ^ Z.of_nat k.
Proof.
  induction n as [|n IH]; [reflexivity|].
  change (Nat.iter (S n) slot_step i) with (slot_step (Nat.iter n slot_step i)).
  change (Nat.iter (S n) step5 i) with (step5 (Nat.iter n step5 i)).
  unfold slot_step at 1. rewrite Z.mod_mod by lia. unfold step5.
  rewrite Z.add_mod, Z.mul_mod, IH, <- Z.mul_mod, <- Z.add_mod by lia.
  reflexivity.
Qed.

Lemma slot_step_iter_range n i :
  0 <= i < 2 ^ Z.of_nat k -> 0 <= Nat.iter n slot_step i < 2 ^ Z.of_nat k.
Proof.
  intro Hi. destruct n as [|n]; [exact Hi|].
  change (Nat.iter (S n) slot_step i) with (slot_step (Nat.iter n slot_step i)).
  apply Z.mod_pos_bound, size_pos.
Qed.

(** From any slot the recurrence reaches any other slot. *)
Lemma slot_step_reaches i target :
  0 <= i < 2 ^ Z.of_nat k -> 0 <= target < 2 ^ Z.of_nat k ->
  exists n, (n < Z.to_nat (2 ^ Z.of_nat k))%nat /\ Nat.iter n slot_step i = target.
Proof.
  intros Hi Ht. destruct (step5_full_cycle k i target) as (n & Hn & E).
  exists n. split; [exact Hn|].
  rewrite <- slot_step_iter in E.
  rewrite !Z.mod_small in E; auto using slot_step_iter_range.
Qed.

Lemma run_stop_here i probes :
  stop (entry_at t i) = true -> Ref.run_stop stop t i probes = Some i.
Proof. intro H. destruct probes; cbn; now rewrite H. Qed.

Lemma run_stop_none_here i probes :
  Ref.run_stop stop t i probes = None -> stop (entry_at t i) = false.
Proof.
  destruct probes; cbn; destruct (stop (entry_at t i)); congruence.
Qed.

(** With the perturbation at zero the search follows the recurrence. *)
Lemma first_stop_reaches n : forall fuel i,
  (n < fuel)%nat ->
  stop (entry_at t (Nat.iter n slot_step i)) = true ->
  Ref.first_stop stop fuel t m i 0 <> None.
Proof.
  induction n as [|n IH]; intros fuel i Hf Hs;
    (destruct fuel as [|fuel]; [lia|]); cbn [Ref.first_stop].
  - change (Nat.iter 0 slot_step i) with i in Hs.
    now rewrite (run_stop_here i _ Hs).
  - destruct (Ref.run_stop stop t i (probes_at i m)); [discriminate|].
    rewrite Z.shiftr_0_l, next_slot_zero.
    apply IH; [lia|]. now rewrite <- Nat.iter_succ_r.
Qed.

(** A perturbation below [2 ^ (5 j)] is gone after [j] rounds. *)
Lemma first_stop_terminates j : forall fuel i p,
  0 <= p < 2 ^ (5 * Z.of_nat j) ->
  0 <= i <= m ->
  (j + Z.to_nat (2 ^ Z.of_nat k) < fuel)%nat ->
  (exists s, 0 <= s <= m /\ stop (entry_at t s) = true) ->
  Ref.first_stop stop fuel t m i p <> None.
Proof.
  induction j as [|j IH]; intros fuel i p Hp Hi Hf (s & Hs & Ps).
  - assert (p = 0) by (change (2 ^ (5 * Z.of_nat 0)) with 1 in Hp; lia).
    subst p.
    destruct (slot_step_reaches i s) as (n & Hn & E); [lia|lia|].
    apply (first_stop_reaches n); [lia|]. now rewrite E.
  - destruct fuel as [|fuel]; [lia|]. cbn [Ref.first_stop].
    destruct (Ref.run_stop stop t i (probes_at i m)); [discriminate|].
    apply IH.
    + rewrite Z.shiftr_div_pow2 by (unfold PERTURB_SHIFT; lia).
      unfold PERTURB_SHIFT. split; [apply Z.div_pos; lia|].
      apply Z.div_lt_upper_bound; [lia|].
      rewrite <- Z.pow_add_r by lia.
      replace (5 + 5 * Z.of_nat j) with (5 * Z.of_nat (S j)) by lia. lia.
    + apply next_slot_range.
    + lia.
    + eauto.
Qed.

(** The search of [set_add_key] and of [set_insert_clean] ends as long
    as one entry stops it. *)
Lemma find_terminates h :
  (exists s, 0 <= s <= m /\ stop (entry_at t s) = true) ->
  Ref.find stop t m h <> None.
Proof.
  intro Hs. unfold Ref.find.
  assert (Hh : 0 <= to_size_t h < 2 ^ 64)
    by (unfold to_size_t; apply Z.mod_pos_bound; lia).
  apply (first_stop_terminates 13).
  - change (2 ^ (5 * Z.of_nat 13)) with (2 ^ 65).
    assert (2 ^ 64 < 2 ^ 65) by (apply Z.pow_lt_mono_r; lia). lia.
  - rewrite land_mask.
    pose proof (Z.mod_pos_bound (to_size_t h) _ size_pos). lia.
  - unfold probe_fuel. rewrite Hm.
    replace (2 ^ Z.of_nat k - 1 + 1) with (2 ^ Z.of_nat k) by lia. lia.
  - exact Hs.
Qed.

End Termination.


(** *** Storing into a table *)

Section Store.

Context {A : Type}.

Local Abbreviation entry := (@setentry A).

Lemma nth_store_other (t : list entry) n e i :
  i <> n -> nth i (store t n e) Unused = nth i t Unused.
Proof.
  revert n i. induction t as [|x t IH]; intros n i Hne.
  - destruct n, i; reflexivity.
  - destruct n as [|n], i as [|i]; cbn; try reflexivity; try congruence.
    apply IH. congruence.
Qed.

Lemma nth_store_same (t : list entry) n e :
  (n < List.length t)%nat -> nth n (store t n e) Unused = e.
Proof.
  revert n. induction t as [|x t IH]; intros n Hn; cbn in Hn; [lia|].
  destruct n as [|n]; cbn; [reflexivity|]. apply IH. lia.
Qed.

Lemma length_store (t : list entry) n e :
  List.length (store t n e) = List.length t.
Proof.
  revert n. induction t as [|x t IH]; intro n; destruct n; cbn; auto.
Qed.

Lemma keys_store (t : list entry) n h k :
  (n < List.length t)%nat -> nth n t Unused = Unused ->
  Permutation (Ref.keys (store t n (Active h k))) (k :: Ref.keys t).
Proof.
  revert n. induction t as [|x t IH]; intros n Hn Hu; cbn in Hn; [lia|].
  destruct n as [|n]; cbn in Hu |- *.
  - subst x. reflexivity.
  - specialize (IH n ltac:(lia) Hu).
    destruct x as [|h' k']; cbn; [exact IH|].
    rewrite IH. apply perm_swap.
Qed.

Lemma keys_nth (t : list entry) k :
  In k (Ref.keys t) <-> exists n h, nth n t Unused = Active h k.
Proof.
  induction t as [|x t IH]; cbn.
  - split; [intros []|]. intros (n & h & H). destruct n; discriminate.
  - rewrite in_app_iff, IH. split.
    + intros [H|(n & h & H)].
      * destruct x as [|h k']; [destruct H|]. destruct H as [<-|[]].
        exists O, h. reflexivity.
      * exists (S n), h. exact H.
    + intros (n & h & H). destruct n as [|n].
      * left. subst x. now left.
      * right. eauto.
Qed.

Lemma nth_active_lt (t : list entry) n h k :
  nth n t Unused = Active h k -> (n < List.length t)%nat.
Proof.
  intro H. destruct (Nat.lt_ge_cases n (List.length t)) as [L|G]; [exact L|].
  rewrite nth_overflow in H by exact G. discriminate.
Qed.

End Store.

(** *** Searches *)

Section Search.

Context {A : Type}.
Variable k : nat.
Variable m : Z.
Hypothesis Hk : (k <= 64)%nat.
Hypothesis Hm : m = 2 ^ Z.of_nat k - 1.

Local Abbreviation entry := (@setentry A).

Lemma probes_at_range i : i + Z.of_nat (probes_at i m) <= Z.max i m.
Proof.
  unfold probes_at. destruct (Z.leb_spec (i + Z.of_nat LINEAR_PROBES) m); lia.
Qed.

Lemma run_stop_sound (stop : entry -> bool) t i probes j :
  Ref.run_stop stop t i probes = Some j ->
  stop (entry_at t j) = true /\ i <= j <= i + Z.of_nat probes.
Proof.
  revert i. induction probes as [|p IH]; intro i; cbn;
    destruct (stop (entry_at t i)) eqn:E; try discriminate.
  - intro H. injection H as <-. split; [exact E|lia].
  - intro H. injection H as <-. split; [exact E|lia].
  - intro H. destruct (IH _ H) as [S R]. split; [exact S|lia].
Qed.

(** A search ends at a slot of the table that stops it. *)
Lemma first_stop_sound (stop : entry -> bool) fuel t : forall i p j,
  0 <= i <= m ->
  Ref.first_stop stop fuel t m i p = Some j ->
  stop (entry_at t j) = true /\ 0 <= j <= m.
Proof.
  induction fuel as [|fuel IH]; intros i p j Hi; cbn; [discriminate|].
  destruct (Ref.run_stop stop t i (probes_at i m)) as [j'|] eqn:E.
  - intro H. injection H as <-.
    destruct (run_stop_sound _ _ _ _ _ E) as [S R].
    pose proof (probes_at_range i). split; [exact S|lia].
  - apply IH. eapply next_slot_range; eassumption.
Qed.

Lemma run_stop_ext (P Q : entry -> bool) t i probes :
  (forall s, P (entry_at t s) = Q (entry_at t s)) ->
  Ref.run_stop P t i probes = Ref.run_stop Q t i probes.
Proof.
  intro H. revert i. induction probes as [|p IH]; intro i; cbn;
    rewrite H; [reflexivity|]. now rewrite IH.
Qed.

(** Two stopping rules that agree on the entries of the table end the
    search at the same slot. *)
Lemma first_stop_ext (P Q : entry -> bool) fuel t i p :
  (forall s, P (entry_at t s) = Q (entry_at t s)) ->
  Ref.first_stop P fuel t m i p = Ref.first_stop Q fuel t m i p.
Proof.
  intro H. revert i p. induction fuel as [|fuel IH]; intros i p; cbn;
    [reflexivity|].
  rewrite (run_stop_ext P Q t i _ H).
  destruct (Ref.run_stop Q t i (probes_at i m)); [reflexivity|apply IH].
Qed.

Lemma run_stop_frame (P : entry -> bool) t t' i probes :
  (forall s, P (entry_at t s) = false -> entry_at t' s = entry_at t s) ->
  match Ref.run_stop P t i probes with
  | Some j => P (entry_at t' j) = true -> Ref.run_stop P t' i probes = Some j
  | None => Ref.run_stop P t' i probes = None
  end.
Proof.
  intro H. revert i. induction probes as [|p IH]; intro i; cbn.
  - destruct (P (entry_at t i)) eqn:E.
    + intros ->. reflexivity.
    + now rewrite (H i E), E.
  - destruct (P (entry_at t i)) eqn:E.
    + intros ->. reflexivity.
    + rewrite (H i E), E. apply IH.
Qed.

(** A search is not disturbed by changes to entries that stop it, as
    long as the entry it ends at still stops it. *)
Lemma first_stop_frame (P : entry -> bool) fuel t t' : forall i p j,
  (forall s, P (entry_at t s) = false -> entry_at t' s = entry_at t s) ->
  Ref.first_stop P fuel t m i p = Some j ->
  P (entry_at t' j) = true ->
  Ref.first_stop P fuel t' m i p = Some j.
Proof.
  induction fuel as [|fuel IH]; intros i p j H; cbn; [discriminate|].
  pose proof (run_stop_frame P t t' i (probes_at i m) H) as R.
  destruct (Ref.run_stop P t i (probes_at i m)) as [j'|].
  - intro E. injection E as <-. intro S. now rewrite (R S).
  - rewrite R. apply IH. exact H.
Qed.

End Search.


(** *** Tables that can be searched *)

Section Tables.

Context {A : Type}.
Variable eqb : A -> A -> bool.
Variable hash : A -> Z.
Hypothesis eqb_refl : forall a, eqb a a = true.
Hypothesis eqb_sym : forall a b, eqb a b = eqb b a.
Hypothesis eqb_trans :
  forall a b c, eqb a b = true -> eqb b c = true -> eqb a c = true.
Hypothesis hash_eqb : forall a b, eqb a b = true -> hash a = hash b.

Local Abbreviation entry := (@setentry A).
Local Abbreviation stops := (Ref.stops eqb).
Local Abbreviation searchable := (Ref.searchable eqb hash).

Lemma entry_at_of_nat (t : list entry) n :
  entry_at t (Z.of_nat n) = nth n t Unused.
Proof. unfold entry_at. now rewrite Nat2Z.id. Qed.

(** Searches for equal keys stop at the same entries. *)
Lemma stops_equal key key' h (e : entry) :
  eqb key key' = true -> stops key h e = stops key' h e.
Proof.
  intro E. destruct e as [|h1 k1]; cbn; [reflexivity|]. f_equal.
  destruct (eqb k1 key) eqn:E1, (eqb k1 key') eqn:E2; try reflexivity.
  - rewrite (eqb_trans _ _ _ E1 E) in E2. discriminate.
  - rewrite eqb_sym in E. rewrite (eqb_trans _ _ _ E2 E) in E1. discriminate.
Qed.

(** In a searchable table equal keys sit in the same slot. *)
Lemma searchable_distinct (t : list entry) m n1 n2 h1 h2 k1 k2 :
  searchable t m ->
  nth n1 t Unused = Active h1 k1 -> nth n2 t Unused = Active h2 k2 ->
  eqb k1 k2 = true -> n1 = n2.
Proof.
  intros S H1 H2 E.
  destruct (S _ _ _ H1) as [-> F1]. destruct (S _ _ _ H2) as [-> F2].
  rewrite (hash_eqb _ _ E) in F1.
  unfold Ref.find in F1, F2.
  rewrite (first_stop_ext m (stops k1 (hash k2)) (stops k2 (hash k2))) in F1
    by (intro s; now apply stops_equal).
  rewrite F1 in F2. injection F2 as F2. now apply Nat2Z.inj.
Qed.

Lemma store_frame (P : entry -> bool) (t : list entry) u e s :
  P Unused = true -> entry_at t u = Unused ->
  P (entry_at t s) = false ->
  entry_at (store t (Z.to_nat u) e) s = entry_at t s.
Proof.
  intros PU Hu Hs. unfold entry_at in *. apply nth_store_other.
  intro E. rewrite E, Hu, PU in Hs. discriminate.
Qed.

Lemma stops_unused key h : stops key h Unused = true.
Proof. reflexivity. Qed.

(** Storing a key where the search for it ended at an unused entry keeps
    the table searchable and adds the key to its keys. *)
Lemma insert_ok (t : list entry) (k : nat) m key h u :
  (k <= 64)%nat -> m = 2 ^ Z.of_nat k - 1 ->
  List.length t = Z.to_nat (2 ^ Z.of_nat k) ->
  searchable t m ->
  Ref.find (stops key h) t m h = Some u ->
  entry_at t u = Unused ->
  h = hash key ->
  searchable (store t (Z.to_nat u) (Active h key)) m
  /\ Permutation (Ref.keys (store t (Z.to_nat u) (Active h key)))
       (key :: Ref.keys t).
Proof.
  intros Hk Hm Hl S F Hu Hh.
  assert (Pp : 0 < 2 ^ Z.of_nat k) by (apply Z.pow_pos_nonneg; lia).
  assert (Ru : 0 <= u <= m).
  { unfold Ref.find in F.
    eapply (first_stop_sound k m Hk Hm) in F; [tauto|].
    rewrite (land_mask k m Hk Hm).
    pose proof (Z.mod_pos_bound (to_size_t h) _ Pp). lia. }
  assert (Lu : (Z.to_nat u < List.length t)%nat) by (rewrite Hl; lia).
  split.
  - intros n h1 k1 Hn.
    destruct (Nat.eq_dec n (Z.to_nat u)) as [->|Hne].
    + rewrite nth_store_same in Hn by exact Lu. injection Hn as <- <-.
      split; [exact Hh|]. rewrite Z2Nat.id by lia.
      unfold Ref.find in *.
      eapply first_stop_frame; [|exact F|].
      * intros s. now apply store_frame.
      * unfold entry_at. rewrite nth_store_same by exact Lu.
        cbn. now rewrite Z.eqb_refl, eqb_refl.
    + rewrite nth_store_other in Hn by exact Hne.
      destruct (S _ _ _ Hn) as [Hh1 F1]. split; [exact Hh1|].
      unfold Ref.find in *.
      eapply first_stop_frame; [|exact F1|].
      * intros s. now apply store_frame.
      * rewrite entry_at_of_nat, nth_store_other, Hn by exact Hne.
        cbn. now rewrite Z.eqb_refl, eqb_refl.
  - apply keys_store; [exact Lu|exact Hu].
Qed.

(** A search that ends at an active entry has found an equal key. *)
Lemma found_active (t : list entry) (k : nat) m x h j h1 k1 :
  (k <= 64)%nat -> m = 2 ^ Z.of_nat k - 1 ->
  Ref.find (stops x h) t m h = Some j ->
  entry_at t j = Active h1 k1 ->
  eqb k1 x = true /\ In k1 (Ref.keys t).
Proof.
  intros Hk Hm F Hj.
  assert (Pp : 0 < 2 ^ Z.of_nat k) by (apply Z.pow_pos_nonneg; lia).
  unfold Ref.find in F.
  eapply (first_stop_sound k m Hk Hm) in F.
  - destruct F as [St _]. rewrite Hj in St. cbn in St.
    apply andb_true_iff in St. split; [tauto|].
    apply keys_nth. exists (Z.to_nat j), h1. exact Hj.
  - rewrite (land_mask k m Hk Hm).
    pose proof (Z.mod_pos_bound (to_size_t h) _ Pp). lia.
Qed.

(** A search that ends at an unused entry shows that no key of the table
    equals the one searched for. *)
Lemma found_unused (t : list entry) m x j k1 :
  searchable t m ->
  Ref.find (stops x (hash x)) t m (hash x) = Some j ->
  entry_at t j = Unused ->
  In k1 (Ref.keys t) -> eqb k1 x = false.
Proof.
  intros S F Hj Hin.
  destruct (eqb k1 x) eqn:E; [exfalso|reflexivity].
  apply keys_nth in Hin. destruct Hin as (n & h1 & Hn).
  destruct (S _ _ _ Hn) as [-> F1].
  rewrite (hash_eqb _ _ E) in F1. unfold Ref.find in F, F1.
  rewrite (first_stop_ext m (stops k1 (hash x)) (stops x (hash x))) in F1
    by (intro s; now apply stops_equal).
  rewrite F in F1. injection F1 as ->.
  rewrite entry_at_of_nat, Hn in Hj. discriminate.
Qed.

Lemma exists_unused (t : list entry) :
  (List.length (Ref.keys t) < List.length t)%nat ->
  exists n, (n < List.length t)%nat /\ nth n t Unused = Unused.
Proof.
  unfold Ref.keys.
  induction t as [|e t IH]; cbn; [lia|].
  destruct e as [|h k]; cbn.
  - intros _. exists O. split; [lia|reflexivity].
  - intro H. destruct IH as (n & Hn & E); [lia|].
    exists (S n). split; [lia|exact E].
Qed.

Lemma keys_length_le (t : list entry) :
  (List.length (Ref.keys t) <= List.length t)%nat.
Proof.
  unfold Ref.keys.
  induction t as [|e t IH]; cbn; [lia|].
  destruct e; cbn; lia.
Qed.

End Tables.


(** *** Resizing *)

Lemma grow_spec fuel : forall (k0 : nat) minused,
  0 <= minused < 2 ^ Z.of_nat (k0 + fuel) ->
  exists k : nat,
    (k0 <= k <= k0 + fuel)%nat
    /\ grow fuel (2 ^ Z.of_nat k0) minused = 2 ^ Z.of_nat k
    /\ minused < 2 ^ Z.of_nat k
    /\ (k = k0 \/ 2 ^ Z.of_nat k <= 2 * minused).
Proof.
  induction fuel as [|fuel IH]; intros k0 minused H; cbn [grow].
  - exists k0. rewrite Nat.add_0_r in H. repeat split; auto; lia.
  - destruct (Z.leb_spec (2 ^ Z.of_nat k0) minused) as [L|G].
    + replace (2 ^ Z.of_nat k0 * 2) with (2 ^ Z.of_nat (S k0))
        by (rewrite Nat2Z.inj_succ, Z.pow_succ_r by lia; lia).
      destruct (IH (S k0) minused) as (k & Rk & E & U & D).
      { replace (S k0 + fuel)%nat with (k0 + S fuel)%nat by lia. exact H. }
      exists k. repeat split; try lia; try assumption.
      right. destruct D as [->|D]; [|exact D].
      rewrite Nat2Z.inj_succ, Z.pow_succ_r by lia. lia.
    + exists k0. repeat split; auto; lia.
Qed.

Lemma set_table_resize_unfold {A} (so : @setobject A) minused :
  set_table_resize so minused
  = let newsize := grow 64 PySet_MINSIZE minused in
    match fold_left (Ref.reinsert (newsize - 1)) (table so)
            (Some (empty_table newsize)) with
    | Some t => Some (SetObject t (newsize - 1) (used so) (used so))
    | None => None
    end.
Proof. reflexivity. Qed.

Lemma keys_app {A} (a b : list (@setentry A)) :
  Ref.keys (a ++ b) = (Ref.keys a ++ Ref.keys b)%list.
Proof. unfold Ref.keys. apply flat_map_app. Qed.

Lemma keys_empty_table {A} n : Ref.keys (@empty_table A n) = [].
Proof.
  unfold empty_table, Ref.keys.
  induction (Z.to_nat n) as [|x IH]; cbn; auto.
Qed.

Lemma nth_empty_table {A} n i : nth i (@empty_table A n) Unused = Unused.
Proof. unfold empty_table. apply nth_repeat. Qed.

Section Resize.

Context {A : Type}.
Variable eqb : A -> A -> bool.
Variable hash : A -> Z.
Hypothesis eqb_refl : forall a, eqb a a = true.
Hypothesis eqb_sym : forall a b, eqb a b = eqb b a.
Hypothesis eqb_trans :
  forall a b c, eqb a b = true -> eqb b c = true -> eqb a c = true.
Hypothesis hash_eqb : forall a b, eqb a b = true -> hash a = hash b.

Local Abbreviation entry := (@setentry A).
Local Abbreviation stops := (Ref.stops eqb).
Local Abbreviation searchable := (Ref.searchable eqb hash).

Variable k' : nat.
Variable m' : Z.
Hypothesis Hk' : (k' <= 64)%nat.
Hypothesis Hm' : m' = 2 ^ Z.of_nat k' - 1.

(** The old table. *)
Variable L : list entry.
Hypothesis L_hash :
  forall n h key, nth n L Unused = Active h key -> h = hash key.
Hypothesis L_distinct :
  forall n1 n2 h1 h2 k1 k2,
    nth n1 L Unused = Active h1 k1 -> nth n2 L Unused = Active h2 k2 ->
    eqb k1 k2 = true -> n1 = n2.
Hypothesis L_fits :
  (List.length (Ref.keys L) < Z.to_nat (2 ^ Z.of_nat k'))%nat.

(** Copying the remaining entries [R] of the old table into the new
    table [T], which holds the entries [done] copied so far. *)
Lemma reinsert_all : forall R done T,
  L = (done ++ R)%list ->
  List.length T = Z.to_nat (2 ^ Z.of_nat k') ->
  searchable T m' ->
  Permutation (Ref.keys T) (Ref.keys done) ->
  exists T',
    fold_left (Ref.reinsert m') R (Some T) = Some T'
    /\ List.length T' = Z.to_nat (2 ^ Z.of_nat k')
    /\ searchable T' m'
    /\ Permutation (Ref.keys T') (Ref.keys L).
Proof.
  assert (Pp : 0 < 2 ^ Z.of_nat k') by (apply Z.pow_pos_nonneg; lia).
  induction R as [|e R IH]; intros done T HL HT ST PT.
  - exists T. rewrite app_nil_r in HL. subst done. cbn. auto.
  - assert (HL' : L = ((done ++ [e]) ++ R)%list)
      by (rewrite <- app_assoc; exact HL).
    destruct e as [|h key].
    + cbn [fold_left Ref.reinsert].
      apply (IH (done ++ [Unused])%list T HL' HT ST).
      rewrite keys_app. cbn. now rewrite app_nil_r.
    + cbn [fold_left Ref.reinsert]. rewrite insert_clean_spec.
      fold (Ref.find (@Ref.is_unused A) T m' h).
      assert (Hpos : nth (List.length done) L Unused = Active h key)
        by (rewrite HL; apply nth_middle).
      assert (Hh : h = hash key) by exact (L_hash _ _ _ Hpos).
      (* the new table has room *)
      assert (Room : (List.length (Ref.keys T) < List.length T)%nat).
      { rewrite (Permutation_length PT), HT.
        rewrite HL, keys_app, length_app in L_fits. cbn in L_fits. lia. }
      destruct (exists_unused T Room) as (n & Hn & En).
      destruct (Ref.find (@Ref.is_unused A) T m' h) as [u|] eqn:F.
      2:{ exfalso. revert F. apply (find_terminates _ T k' m' Hk' Hm').
          exists (Z.of_nat n). split; [rewrite HT in Hn; lia|].
          now rewrite entry_at_of_nat, En. }
      (* no key of the new table equals the one being copied *)
      assert (New : forall s, Ref.is_unused (entry_at T s)
                              = stops key h (entry_at T s)).
      { intro s. destruct (entry_at T s) as [|h1 k1] eqn:Es; [reflexivity|].
        cbn. symmetry. apply andb_false_iff. right.
        destruct (eqb k1 key) eqn:E; [exfalso|reflexivity].
        assert (In k1 (Ref.keys done)).
        { apply (Permutation_in _ PT). apply keys_nth.
          exists (Z.to_nat s), h1. exact Es. }
        apply keys_nth in H. destruct H as (n1 & h1' & Hn1).
        pose proof (nth_active_lt _ _ _ _ Hn1) as Lt.
        assert (Hn1L : nth n1 L Unused = Active h1' k1)
          by (rewrite HL, app_nth1 by exact Lt; exact Hn1).
        pose proof (L_distinct _ _ _ _ _ _ Hn1L Hpos E). lia. }
      assert (F' : Ref.find (stops key h) T m' h = Some u).
      { unfold Ref.find in *. rewrite <- F. symmetry.
        apply first_stop_ext. exact New. }
      assert (Eu : entry_at T u = Unused).
      { unfold Ref.find in F.
        eapply (first_stop_sound k' m' Hk' Hm') in F.
        - destruct F as [Su _]. destruct (entry_at T u); [reflexivity|discriminate].
        - rewrite (land_mask k' m' Hk' Hm').
          pose proof (Z.mod_pos_bound (to_size_t h) _ Pp). lia. }
      destruct (insert_ok eqb hash eqb_refl T k' m' key h u Hk' Hm' HT ST F' Eu Hh)
        as [ST' PT'].
      cbn [option_map].
      apply (IH (done ++ [Active h key])%list _ HL').
      * now rewrite length_store.
      * exact ST'.
      * rewrite PT', keys_app. cbn. rewrite PT.
        apply Permutation_cons_append.
Qed.

End Resize.

Section ResizeOk.

Context {A : Type}.
Variable eqb : A -> A -> bool.
Variable hash : A -> Z.
Hypothesis eqb_refl : forall a, eqb a a = true.
Hypothesis eqb_sym : forall a b, eqb a b = eqb b a.
Hypothesis eqb_trans :
  forall a b c, eqb a b = true -> eqb b c = true -> eqb a c = true.
Hypothesis hash_eqb : forall a b, eqb a b = true -> hash a = hash b.

(** [set_table_resize] on a searchable table gives a well-formed set
    with the same keys. *)
Lemma resize_ok (so : @setobject A) minused :
  Ref.searchable eqb hash (table so) (mask so) ->
  used so = Z.of_nat (List.length (Ref.keys (table so))) ->
  1 <= used so -> 2 * used so <= minused <= 2 ^ 61 ->
  exists so',
    set_table_resize so minused = Some so'
    /\ Ref.table_ok eqb hash so'
    /\ Permutation (Ref.keys (table so')) (Ref.keys (table so)).
Proof.
  intros S U U1 M. rewrite set_table_resize_unfold. cbv zeta.
  destruct (grow_spec 64 3 minused) as (k & Rk & G & Gt & Gs).
  { split; [lia|]. change (2 ^ Z.of_nat (3 + 64)) with (2 ^ 67).
    assert (2 ^ 61 < 2 ^ 67) by (apply Z.pow_lt_mono_r; lia). lia. }
  change (2 ^ Z.of_nat 3) with PySet_MINSIZE in G. rewrite G.
  assert (K : (k <= 62)%nat).
  { destruct Gs as [->|Gs]; [lia|].
    assert (2 ^ Z.of_nat k <= 2 ^ 62)
      by (change (2 ^ 62) with (2 * 2 ^ 61); lia).
    apply Z.pow_le_mono_r_iff in H; lia. }
  destruct (reinsert_all eqb hash eqb_refl k
              (2 ^ Z.of_nat k - 1) ltac:(lia) eq_refl (table so))
    with (R := table so) (done := @nil (@setentry A))
         (T := @empty_table A (2 ^ Z.of_nat k))
    as (T' & F & LT & ST & PT).
  - intros n h key H. exact (proj1 (S _ _ _ H)).
  - intros n1 n2 h1 h2 k1 k2 H1 H2 E.
    exact (searchable_distinct eqb hash eqb_sym eqb_trans hash_eqb _ _ _ _ _ _ _ _
             S H1 H2 E).
  - lia.
  - reflexivity.
  - unfold empty_table. apply repeat_length.
  - intros n h key H. rewrite nth_empty_table in H. discriminate.
  - rewrite keys_empty_table. reflexivity.
  - rewrite F. eexists. split; [reflexivity|]. split; [|exact PT].
    constructor; cbn [table mask fill used].
    + exists k. repeat split; first [lia|exact LT].
    + now rewrite (Permutation_length PT).
    + reflexivity.
    + lia.
    + exact ST.
Qed.

End ResizeOk.

(** *** Adding keys *)

Section AddOk.

Context {A : Type}.
Variable eqb : A -> A -> bool.
Variable hash : A -> Z.
Hypothesis eqb_refl : forall a, eqb a a = true.
Hypothesis eqb_sym : forall a b, eqb a b = eqb b a.
Hypothesis eqb_trans :
  forall a b c, eqb a b = true -> eqb b c = true -> eqb a c = true.
Hypothesis hash_eqb : forall a b, eqb a b = true -> hash a = hash b.

Local Abbreviation stops := (Ref.stops eqb).
Local Abbreviation table_ok := (Ref.table_ok eqb hash).

Lemma set_new_ok : table_ok (@set_new A).
Proof.
  constructor; cbn.
  - exists 3%nat. repeat split; lia.
  - reflexivity.
  - reflexivity.
  - lia.
  - intros n h key H.
    change (nth n (@empty_table A 8) Unused = Active h key) in H.
    rewrite nth_empty_table in H. discriminate.
Qed.

Lemma member_spec x (acc : list A) :
  Ref.member eqb x acc = true <-> exists k, In k acc /\ eqb k x = true.
Proof. unfold Ref.member. apply existsb_exists. Qed.

(** One [set_add_key] against set semantics: an element equal to a key
    of the set changes nothing, any other element becomes a new key. *)
Lemma add_ok (so : @setobject A) x acc :
  table_ok so -> Permutation (Ref.keys (table so)) acc ->
  used so < 2 ^ 60 ->
  exists so',
    set_add_key eqb hash so x = Some so'
    /\ table_ok so'
    /\ Permutation (Ref.keys (table so'))
         (if Ref.member eqb x acc then acc else (acc ++ [x])%list)
    /\ used so <= used so' <= used so + 1.
Proof.
  intros [(k & Rk & Hm & Hl) U Fl Ld S] P B.
  assert (Pp : 0 < 2 ^ Z.of_nat k) by (apply Z.pow_pos_nonneg; lia).
  assert (Hk : (k <= 64)%nat) by lia.
  unfold set_add_key. rewrite add_loop_spec.
  fold (Ref.find (stops x (hash x)) (table so) (mask so) (hash x)).
  assert (Room : (List.length (Ref.keys (table so)) < List.length (table so))%nat).
  { rewrite Hl. apply Nat2Z.inj_lt. rewrite <- U, Z2Nat.id by lia. lia. }
  destruct (exists_unused _ Room) as (n & Hn & En).
  destruct (Ref.find (stops x (hash x)) (table so) (mask so) (hash x))
    as [j|] eqn:F.
  2:{ exfalso. revert F. apply (find_terminates _ _ k (mask so) Hk Hm).
      exists (Z.of_nat n). split; [rewrite Hl in Hn; lia|].
      now rewrite entry_at_of_nat, En. }
  unfold Ref.settle. destruct (entry_at (table so) j) as [|h1 k1] eqn:Ej.
  - (* a new key *)
    assert (M : Ref.member eqb x acc = false).
    { destruct (Ref.member eqb x acc) eqn:M; [exfalso|reflexivity].
      apply member_spec in M. destruct M as (k1 & Hin & E).
      apply (Permutation_in _ (Permutation_sym P)) in Hin.
      rewrite (found_unused eqb hash eqb_sym eqb_trans hash_eqb _ _ _ _ _
                 S F Ej Hin) in E. discriminate. }
    rewrite M.
    destruct (insert_ok eqb hash eqb_refl _ k _ x (hash x) j Hk Hm Hl S F Ej
                eq_refl) as [S' P'].
    set (t' := store (table so) (Z.to_nat j) (Active (hash x) x)) in *.
    assert (L' : Z.of_nat (List.length (Ref.keys t')) = used so + 1).
    { rewrite (Permutation_length P'). cbn [List.length]. lia. }
    assert (PA : Permutation (Ref.keys t') (acc ++ [x])).
    { rewrite P', P. apply Permutation_cons_append. }
    cbn [fill mask used].
    destruct (Z.ltb_spec ((fill so + 1) * 5) (mask so * 3)) as [Lt|Ge].
    + eexists. split; [reflexivity|]. split; [|split; [exact PA|cbn; lia]].
      constructor; cbn [table mask fill used].
      * exists k. repeat split; try lia. unfold t'. now rewrite length_store.
      * lia.
      * lia.
      * exact Lt.
      * exact S'.
    + destruct (resize_ok eqb hash eqb_refl eqb_sym eqb_trans hash_eqb
                  (SetObject t' (mask so) (fill so + 1) (used so + 1))
                  (if 50000 <? used so + 1 then (used so + 1) * 2
                   else (used so + 1) * 4))
        as (so'' & R & Ok & PR); cbn [table mask fill used].
      * exact S'.
      * lia.
      * lia.
      * assert (2 ^ 61 = 2 * 2 ^ 60) by reflexivity.
        assert (200004 < 2 ^ 60) by reflexivity.
        destruct (Z.ltb_spec 50000 (used so + 1)); lia.
      * exists so''. split; [exact R|]. split; [exact Ok|].
        cbn [table] in PR. split; [now rewrite PR|].
        destruct Ok as [_ U'' _ _ _]. rewrite U'', (Permutation_length PR). lia.
  - (* an equal key is there already *)
    destruct (found_active eqb _ k _ x _ j h1 k1 Hk Hm F Ej) as [E Hin].
    assert (M : Ref.member eqb x acc = true).
    { apply member_spec. exists k1. split; [|exact E].
      exact (Permutation_in _ P Hin). }
    rewrite M. exists so. split; [reflexivity|].
    split; [constructor; eauto|]. split; [exact P|lia].
Qed.

(** [set(xs)] holds the distinct elements of [xs], one key for each. *)
Lemma add_all_ok xs : forall (so : @setobject A) acc,
  table_ok so -> Permutation (Ref.keys (table so)) acc ->
  used so + Z.of_nat (List.length xs) <= 2 ^ 60 ->
  exists so',
    fold_left (fun acc x =>
                 match acc with
                 | Some so => set_add_key eqb hash so x
                 | None => None
                 end) xs (Some so) = Some so'
    /\ table_ok so'
    /\ Permutation (Ref.keys (table so')) (Ref.distinct_from eqb acc xs).
Proof.
  induction xs as [|x xs IH]; intros so acc Ok P B.
  - exists so. cbn. auto.
  - cbn [List.length] in B. cbn [fold_left Ref.distinct_from].
    destruct (add_ok so x acc Ok P ltac:(lia)) as (so1 & E & Ok1 & P1 & U1).
    rewrite E. apply IH; [exact Ok1|exact P1|lia].
Qed.

Theorem list_set_distinct xs :
  Z.of_nat (List.length xs) <= 2 ^ 60 ->
  exists ys,
    list_set eqb hash xs = Some ys
    /\ Permutation ys (Ref.distinct eqb xs).
Proof.
  intro B. unfold list_set, set_of_list.
  destruct (add_all_ok xs set_new [] set_new_ok) as (so & E & _ & P).
  - reflexivity.
  - cbn [used set_new]. lia.
  - rewrite E. exists (set_to_list so). split; [reflexivity|exact P].
Qed.

End AddOk.

(** The table depends on the hash function only through the hashes of
    the elements added. *)
Lemma set_of_list_hash_ext {A} (eqb : A -> A -> bool) (h1 h2 : A -> Z) xs :
  (forall x, In x xs -> h1 x = h2 x) ->
  set_of_list eqb h1 xs = set_of_list eqb h2 xs.
Proof.
  unfold set_of_list. generalize (Some (@set_new A)).
  induction xs as [|x xs IH]; intros acc H; [reflexivity|].
  cbn [fold_left].
  assert (E : match acc with
              | Some so => set_add_key eqb h1 so x
              | None => None
              end = match acc with
                    | Some so => set_add_key eqb h2 so x
                    | None => None
                    end).
  { destruct acc; [|reflexivity]. unfold set_add_key.
    now rewrite (H x (or_introl eq_refl)). }
  rewrite E. apply IH. intros y Hy. apply H. now right.
Qed.

End SetSpec.

(** ** Deduplication and the order of listings *)

Module DedupSpec.

Import PyFacts Meta.

Lemma eq_iff a b : __eq__ a b = true <-> finn_id a = finn_id b.
Proof. unfold __eq__. apply String.eqb_eq. Qed.

Lemma eq_refl' a : __eq__ a a = true.
Proof. apply eq_iff. reflexivity. Qed.

Lemma eq_sym' a b : __eq__ a b = __eq__ b a.
Proof. unfold __eq__. apply String.eqb_sym. Qed.

Lemma eq_trans' a b c :
  __eq__ a b = true -> __eq__ b c = true -> __eq__ a c = true.
Proof. rewrite !eq_iff. congruence. Qed.

Lemma hash_eq seed a b : __eq__ a b = true -> __hash__ seed a = __hash__ seed b.
Proof. rewrite eq_iff. unfold __hash__. now intros ->. Qed.

Lemma member_codes x acc :
  Ref.member __eq__ x acc = true <-> In (finn_id x) (Ref.codes acc).
Proof.
  unfold Ref.member, Ref.codes. rewrite existsb_exists, in_map_iff.
  split; intros (k & H1 & H2); exists k.
  - apply eq_iff in H2. tauto.
  - rewrite eq_iff. tauto.
Qed.

Lemma codes_app a b : Ref.codes (a ++ b) = (Ref.codes a ++ Ref.codes b)%list.
Proof. apply map_app. Qed.

(** Set semantics keeps one entry for each code. *)
Lemma distinct_from_nodup xs : forall acc,
  NoDup (Ref.codes acc) -> NoDup (Ref.codes (Ref.distinct_from __eq__ acc xs)).
Proof.
  induction xs as [|x xs IH]; intros acc N; cbn; [exact N|].
  apply IH. destruct (Ref.member __eq__ x acc) eqn:M; [exact N|].
  rewrite codes_app. cbn.
  apply NoDup_app; [exact N|repeat constructor; intros []|].
  intros c Hc [<-|[]]. apply member_codes in Hc. congruence.
Qed.

Lemma distinct_from_codes xs : forall acc c,
  In c (Ref.codes (Ref.distinct_from __eq__ acc xs))
  <-> In c (Ref.codes acc) \/ In c (Ref.codes xs).
Proof.
  induction xs as [|x xs IH]; intros acc c; cbn; [tauto|].
  rewrite IH. destruct (Ref.member __eq__ x acc) eqn:M.
  - apply member_codes in M. split; [tauto|].
    intros [H|[<-|H]]; tauto.
  - rewrite codes_app, in_app_iff. cbn. tauto.
Qed.

(** The entry kept for a code is the first one harvested with it. *)
Lemma distinct_from_first xs : forall acc m,
  In m (Ref.distinct_from __eq__ acc xs) ->
  In m acc
  \/ exists before after,
       xs = (before ++ m :: after)%list
       /\ ~ In (finn_id m) (Ref.codes acc)
       /\ ~ In (finn_id m) (Ref.codes before).
Proof.
  induction xs as [|x xs IH]; intros acc m H; cbn in H; [now left|].
  destruct (Ref.member __eq__ x acc) eqn:M.
  - destruct (IH _ _ H) as [Hin|(b & a & E & N1 & N2)]; [now left|].
    right. exists (x :: b), a. split; [cbn; now rewrite E|].
    split; [exact N1|]. cbn. intros [E'|H']; [|tauto].
    apply member_codes in M. rewrite E' in M. tauto.
  - destruct (IH _ _ H) as [Hin|(b & a & E & N1 & N2)].
    + apply in_app_or in Hin. destruct Hin as [Hin|[<-|[]]]; [now left|].
      right. exists [], xs. split; [reflexivity|]. split; [|intros []].
      intro Hc. apply member_codes in Hc. congruence.
    + right. rewrite codes_app, in_app_iff in N1. cbn in N1.
      exists (x :: b), a. split; [cbn; now rewrite E|].
      split; [tauto|]. cbn. tauto.
Qed.

Lemma distinct_from_length xs : forall acc,
  (List.length (Ref.distinct_from __eq__ acc xs)
   <= List.length acc + List.length xs)%nat.
Proof.
  induction xs as [|x xs IH]; intros acc; cbn; [lia|].
  specialize (IH (if Ref.member __eq__ x acc then acc else acc ++ [x])%list).
  destruct (Ref.member __eq__ x acc); [lia|].
  rewrite length_app in IH. cbn in IH. lia.
Qed.

(** Entries with pairwise different codes are all kept, in order. *)
Lemma distinct_from_id xs : forall acc,
  NoDup (Ref.codes (acc ++ xs)) ->
  Ref.distinct_from __eq__ acc xs = (acc ++ xs)%list.
Proof.
  induction xs as [|x xs IH]; intros acc N; cbn; [now rewrite app_nil_r|].
  assert (M : Ref.member __eq__ x acc = false).
  { destruct (Ref.member __eq__ x acc) eqn:M; [exfalso|reflexivity].
    apply member_codes in M. rewrite codes_app in N. cbn in N.
    apply NoDup_remove_2 in N. apply N. apply in_or_app. now left. }
  rewrite M, IH; rewrite <- app_assoc; [reflexivity|exact N].
Qed.

(** [deduplicate] against set semantics. *)
Lemma deduplicate_distinct seed xs :
  (Z.of_nat (List.length xs) <= 2 ^ 60)%Z ->
  exists ys, Scraper.deduplicate seed xs = Some ys
             /\ Permutation ys (Ref.distinct __eq__ xs).
Proof.
  intro B. unfold Scraper.deduplicate.
  exact (SetSpec.list_set_distinct __eq__ (__hash__ seed) eq_refl' eq_sym'
           eq_trans' (hash_eq seed) xs B).
Qed.

(** C5.  Two entries are equal exactly when their finn-codes are, and
    equal codes give equal hashes, whatever the URLs and categories.
    Deduplicating through a set succeeds and keeps exactly one entry for
    each finn-code: the codes of the result are pairwise different, they
    are the codes of the input, their number is the number of distinct
    codes, the entry kept for a code is the first one harvested with it,
    and deduplicating the result again gives the same entries. *)
Theorem metadata_set_semantics :
  forall (seed : string -> Z) (xs : list RealestateMetadata),
    (Z.of_nat (List.length xs) <= 2 ^ 60)%Z ->
    (forall a b, __eq__ a b = true <-> finn_id a = finn_id b)
    /\ (forall a b, finn_id a = finn_id b -> __hash__ seed a = __hash__ seed b)
    /\ exists ys,
         Scraper.deduplicate seed xs = Some ys
         /\ NoDup (Ref.codes ys)
         /\ (forall c, In c (Ref.codes ys) <-> In c (Ref.codes xs))
         /\ List.length ys = List.length (nodup string_dec (Ref.codes xs))
         /\ (forall m, In m ys ->
               exists before after,
                 xs = (before ++ m :: after)%list
                 /\ ~ In (finn_id m) (Ref.codes before))
         /\ exists zs,
              Scraper.deduplicate seed ys = Some zs /\ Permutation zs ys.
Proof.
  intros seed xs B.
  split; [exact eq_iff|].
  split; [intros a b E; apply hash_eq; now apply eq_iff|].
  destruct (deduplicate_distinct seed xs B) as (ys & E & P).
  assert (N : NoDup (Ref.codes ys)).
  { apply (Permutation_NoDup (Permutation_map finn_id (Permutation_sym P))).
    apply distinct_from_nodup. constructor. }
  assert (C : forall c, In c (Ref.codes ys) <-> In c (Ref.codes xs)).
  { intro c. split.
    - intro H. apply (Permutation_in _ (Permutation_map finn_id P)) in H.
      apply distinct_from_codes in H. destruct H as [[]|H]. exact H.
    - intro H.
      apply (Permutation_in _ (Permutation_map finn_id (Permutation_sym P))).
      apply distinct_from_codes. now right. }
  exists ys. split; [exact E|]. split; [exact N|]. split; [exact C|].
  split; [|split].
  - unfold Ref.codes in *. rewrite <- (length_map finn_id ys).
    apply Permutation_length, NoDup_Permutation;
      [exact N|apply NoDup_nodup|].
    intro c. rewrite nodup_In. apply C.
  - intros m H. apply (Permutation_in _ P) in H.
    destruct (distinct_from_first xs [] m H) as [[]|(b & a & E1 & _ & N2)].
    exists b, a. auto.
  - assert (B' : (Z.of_nat (List.length ys) <= 2 ^ 60)%Z).
    { rewrite (Permutation_length P).
      pose proof (distinct_from_length xs []). cbn in H.
      unfold Ref.distinct. lia. }
    destruct (deduplicate_distinct seed ys B') as (zs & E' & P').
    exists zs. split; [exact E'|].
    unfold Ref.distinct in P'. now rewrite (distinct_from_id ys [] N) in P'.
Qed.

(** Three harvested entries, two of them for the same listing under
    different URLs, under a string hash that sends every code to the
    same slot. *)
Lemma metadata_set_semantics_witness :
  exists ys,
    Scraper.deduplicate (fun _ => 0%Z)
      [Ref.listing "1"; Ref.listing_alias "1"; Ref.listing "2"] = Some ys
    /\ NoDup (Ref.codes ys)
    /\ List.length ys = 2%nat.
Proof.
  destruct (metadata_set_semantics (fun _ => 0%Z)
              [Ref.listing "1"; Ref.listing_alias "1"; Ref.listing "2"])
    as (_ & _ & ys & E & N & _ & L & _).
  - cbn. lia.
  - exists ys. split; [exact E|]. split; [exact N|exact L].
Defined.

Example deduplicate_keeps_first :
  Scraper.deduplicate (fun _ => 0%Z)
    [Ref.listing "1"; Ref.listing_alias "1"; Ref.listing "2"]
  = Some [Ref.listing "1"; Ref.listing "2"].
Proof. reflexivity. Qed.

(** The records of a run follow the order of its listings: the loop
    appends the record of each listing that parses and skips the
    others. *)
Lemma parse_all_in_order
  (point geometry : Type) (Point : value -> value -> result point)
  (shape : value -> result geometry)
  (contains : geometry -> point -> result bool)
  (browser_get : string -> result Zendriver.Tab)
  (session_get : string -> result Schema.aiohttp.response)
  (neighbourhoods : value) (ys : list RealestateMetadata) :
  Scraper.parse_all point geometry Point shape contains browser_get
    session_get neighbourhoods ys
  = flat_map
      (fun m =>
         match Parser.parse_property_page point geometry Point shape
                 contains browser_get session_get m neighbourhoods with
         | Ret parsed => [parsed]
         | Raise _ => []
         end) ys.
Proof.
  induction ys as [|m ys IH]; cbn [Scraper.parse_all flat_map]; [reflexivity|].
  rewrite IH. now destruct (Parser.parse_property_page _ _ _ _ _ _ _ _ _).
Qed.

(** C8 as the specification states it fails on the code: on the same
    pages, with the same harvested metadata, two runs whose string
    hashes rank the two harvested codes differently hand the two
    listings to the extractor in opposite orders. *)
Lemma listing_order_depends_on_hash :
  (exists c,
     Scraper.crawl_loop Ref.small_site 3 [] (Some 1%Z) 1 [] = Some c
     /\ Scraper.property_meta c = [Ref.listing "1"; Ref.listing "2"])
  /\ Scraper.properties Ref.small_site Ref.seed_a 3 [] (Some 1%Z)
     = Some [Ref.listing "1"; Ref.listing "2"]
  /\ Scraper.properties Ref.small_site Ref.seed_b 3 [] (Some 1%Z)
     = Some [Ref.listing "2"; Ref.listing "1"]
  /\ Ref.run Ref.seed_a = Some ["1"; "2"]
  /\ Ref.run Ref.seed_b = Some ["2"; "1"]
  /\ Ref.run Ref.seed_a <> Ref.run Ref.seed_b.
Proof.
  assert (A : Scraper.properties Ref.small_site Ref.seed_a 3 [] (Some 1%Z)
              = Some [Ref.listing "1"; Ref.listing "2"])
    by (vm_compute; reflexivity).
  assert (B : Scraper.properties Ref.small_site Ref.seed_b 3 [] (Some 1%Z)
              = Some [Ref.listing "2"; Ref.listing "1"])
    by (vm_compute; reflexivity).
  split; [eexists; split; [vm_compute; reflexivity|reflexivity]|].
  split; [exact A|]. split; [exact B|].
  unfold Ref.run. rewrite A, B. cbn. repeat split. discriminate.
Qed.

(** C8, as the code has it.  The crawl does not depend on the string
    hash.  Two runs on the same pages process the same listings, one for
    each harvested finn-code; each run takes them in the iteration order
    of its set and appends its records in that order; and when the two
    string hashes agree on the harvested codes the two orders are the
    same. *)
Theorem listing_order_fixed_by_hashes :
  forall (point geometry : Type) (Point : value -> value -> result point)
         (shape : value -> result geometry)
         (contains : geometry -> point -> result bool)
         (browser_get : string -> result Zendriver.Tab)
         (session_get : string -> result Schema.aiohttp.response)
         (fuel : nat) (filters : Scraper.dict) (max_pages : option Z)
         (neighbourhoods : value) (seed1 seed2 : string -> Z)
         (c : Scraper.crawl),
    Scraper.crawl_loop browser_get fuel filters max_pages 1 [] = Some c ->
    (Z.of_nat (List.length (Scraper.property_meta c)) <= 2 ^ 60)%Z ->
    exists ys1 ys2,
      Scraper.properties browser_get seed1 fuel filters max_pages = Some ys1
      /\ Scraper.properties browser_get seed2 fuel filters max_pages
         = Some ys2
      /\ Scraper.deduplicate seed1 (Scraper.property_meta c) = Some ys1
      /\ Scraper.deduplicate seed2 (Scraper.property_meta c) = Some ys2
      /\ Scraper.scrape point geometry Point shape contains browser_get
           session_get seed1 fuel filters max_pages neighbourhoods
         = Some (Scraper.parse_all point geometry Point shape contains
                   browser_get session_get neighbourhoods ys1)
      /\ Scraper.scrape point geometry Point shape contains browser_get
           session_get seed2 fuel filters max_pages neighbourhoods
         = Some (Scraper.parse_all point geometry Point shape contains
                   browser_get session_get neighbourhoods ys2)
      /\ (forall ys,
            Scraper.parse_all point geometry Point shape contains
              browser_get session_get neighbourhoods ys
            = flat_map
                (fun m =>
                   match Parser.parse_property_page point geometry Point
                           shape contains browser_get session_get m
                           neighbourhoods with
                   | Ret parsed => [parsed]
                   | Raise _ => []
                   end) ys)
      /\ Permutation ys1 ys2
      /\ NoDup (Ref.codes ys1)
      /\ (forall code, In code (Ref.codes ys1)
                       <-> In code (Ref.codes (Scraper.property_meta c)))
      /\ ((forall m, In m (Scraper.property_meta c) ->
             hash_str seed1 (finn_id m) = hash_str seed2 (finn_id m)) ->
          ys1 = ys2).
Proof.
  intros point geometry Point shape contains browser_get session_get fuel
    filters max_pages geo seed1 seed2 c Hc B.
  destruct (deduplicate_distinct seed1 _ B) as (ys1 & E1 & P1).
  destruct (deduplicate_distinct seed2 _ B) as (ys2 & E2 & P2).
  exists ys1, ys2.
  unfold Scraper.scrape, Scraper.properties. rewrite Hc, E1, E2.
  split; [reflexivity|]. split; [reflexivity|].
  split; [reflexivity|]. split; [reflexivity|].
  split; [reflexivity|]. split; [reflexivity|].
  split; [apply parse_all_in_order|].
  split; [now rewrite P1, P2|]. split; [|split].
  - apply (Permutation_NoDup (Permutation_map finn_id (Permutation_sym P1))).
    apply distinct_from_nodup. constructor.
  - intro code. split.
    + intro H. apply (Permutation_in _ (Permutation_map finn_id P1)) in H.
      apply distinct_from_codes in H. destruct H as [[]|H]. exact H.
    + intro H.
      apply (Permutation_in _ (Permutation_map finn_id (Permutation_sym P1))).
      apply distinct_from_codes. now right.
  - intro H. unfold Scraper.deduplicate, list_set in E1, E2.
    rewrite (SetSpec.set_of_list_hash_ext __eq__ (__hash__ seed1)
               (__hash__ seed2) _ H) in E1.
    rewrite E1 in E2. now injection E2.
Qed.

Lemma listing_order_fixed_by_hashes_witness :
  exists ys1 ys2,
    Scraper.properties Ref.small_site Ref.seed_a 3 [] (Some 1%Z) = Some ys1
    /\ Scraper.properties Ref.small_site Ref.seed_b 3 [] (Some 1%Z) = Some ys2
    /\ Permutation ys1 ys2.
Proof.
  destruct (listing_order_fixed_by_hashes _ _ Ref.toy_Point Ref.toy_shape
              Ref.toy_contains Ref.small_site Ref.no_service 3 []
              (Some 1%Z) VNone Ref.seed_a Ref.seed_b
              {| Scraper.reason := Scraper.MaxPagesReached;
                 Scraper.page := 1;
                 Scraper.property_meta := [Ref.listing "1"; Ref.listing "2"] |}
              eq_refl)
    as (ys1 & ys2 & E1 & E2 & _ & _ & _ & _ & _ & P & _).
  - cbn. lia.
  - exists ys1, ys2. auto.
Defined.

End DedupSpec.

(** * Further properties of the code *)

(** ** Text normalisation and the numeric modes *)

Module ParserProps.

Import PyFacts AddressSpec NumericSpec Parser.

Lemma rstrip_cons_nonspace c s :
  isspace c = false -> exists r, rstrip (String c s) = String c r.
Proof.
  intro H. cbn [rstrip]. destruct (rstrip s); rewrite ?H; eauto.
Qed.

Lemma rstrip_cons c s :
  rstrip (String c s)
  = match rstrip s with
    | EmptyString => if isspace c then EmptyString else String c EmptyString
    | r => String c r
    end.
Proof. reflexivity. Qed.

Lemma rstrip_idem s : rstrip (rstrip s) = rstrip s.
Proof.
  induction s as [|c s IH]; [reflexivity|]. rewrite rstrip_cons.
  destruct (rstrip s) as [|d r] eqn:E.
  - destruct (isspace c) eqn:Hc; [reflexivity|]. cbn. now rewrite Hc.
  - rewrite rstrip_cons, IH. reflexivity.
Qed.

Lemma lstrip_head s :
  match lstrip s with
  | EmptyString => True
  | String c _ => isspace c = false
  end.
Proof.
  induction s as [|c s IH]; cbn; [exact I|].
  destruct (isspace c) eqn:Hc; [exact IH|exact Hc].
Qed.

Lemma lstrip_fixed s :
  match s with EmptyString => True | String c _ => isspace c = false end ->
  lstrip s = s.
Proof. destruct s as [|c s]; cbn; [reflexivity|]. now intros ->. Qed.

(** [strip] returns a trimmed text. *)
Lemma strip_trimmed s : Ref.trimmed (strip s).
Proof.
  unfold Ref.trimmed, strip. split; [|apply rstrip_idem].
  pose proof (lstrip_head s) as H.
  destruct (lstrip s) as [|c t]; [reflexivity|].
  destruct (rstrip_cons_nonspace c t H) as [r ->].
  cbn. now rewrite H.
Qed.

Lemma strip_of_trimmed s : Ref.trimmed s -> strip s = s.
Proof. intros [L R]. unfold strip. now rewrite L, R. Qed.

Lemma strip_blank s : Ref.blank s = true -> strip s = "".
Proof. intro H. unfold strip. now rewrite (lstrip_blank s H). Qed.

Lemma rstrip_empty_blank s : rstrip s = "" -> Ref.blank s = true.
Proof.
  unfold Ref.blank. induction s as [|c s IH]; [reflexivity|]. cbn.
  destruct (rstrip s) as [|d r]; [|discriminate].
  destruct (isspace c); [intros _; now rewrite IH|discriminate].
Qed.

Lemma lstrip_blank_inv s : Ref.blank (lstrip s) = true -> Ref.blank s = true.
Proof.
  unfold Ref.blank. induction s as [|c s IH]; [reflexivity|]. cbn.
  destruct (isspace c) eqn:Hc; [exact IH|]. cbn. now rewrite Hc.
Qed.

Lemma strip_empty_blank s : strip s = "" -> Ref.blank s = true.
Proof.
  unfold strip. intro H. apply lstrip_blank_inv, rstrip_empty_blank, H.
Qed.

Lemma clean_unfold u :
  _clean (Some u) = if str_truthy (strip u) then Some (strip u) else None.
Proof. unfold _clean. cbn. destruct u; reflexivity. Qed.

Lemma clean_some_text o t : _clean o = Some t -> Ref.clean_text t.
Proof.
  destruct o as [u|]; [|discriminate]. rewrite clean_unfold.
  destruct (str_truthy (strip u)) eqn:T; [|discriminate].
  intro H. injection H as <-. split; [exact T|apply strip_trimmed].
Qed.

(** X1.  [_clean] returns either nothing or a non-empty text with no
    white space at either end; it returns nothing exactly for [None] and
    for texts of white space only; and cleaning twice is cleaning once
    (the parser cleans several fields twice). *)
Theorem clean_normal_form :
  forall s : option string,
    match _clean s with
    | Some t => Ref.clean_text t
    | None => s = None \/ exists u, s = Some u /\ Ref.blank u = true
    end
    /\ (forall u, s = Some u -> Ref.blank u = true -> _clean s = None)
    /\ _clean (_clean s) = _clean s.
Proof.
  intros [u|]; [|cbn; auto].
  rewrite clean_unfold. destruct (str_truthy (strip u)) eqn:T.
  - split; [split; [exact T|apply strip_trimmed]|]. split.
    + intros u' E B. injection E as <-. rewrite (strip_blank u B) in T.
      discriminate.
    + rewrite clean_unfold, (strip_of_trimmed _ (strip_trimmed u)), T.
      reflexivity.
  - split; [|split; [reflexivity|reflexivity]].
    right. exists u. split; [reflexivity|].
    apply strip_empty_blank. destruct (strip u); [reflexivity|discriminate].
Qed.

Lemma filter_ext (p q : ascii -> bool) s :
  (forall c, p c = q c) -> str_filter p s = str_filter q s.
Proof.
  intro H. induction s as [|c s IH]; cbn; [reflexivity|].
  now rewrite H, IH.
Qed.

Lemma digits_removed s : re_sub_empty _NUM s = str_filter isdigit s.
Proof.
  unfold re_sub_empty, _NUM. apply filter_ext. intro c.
  now rewrite negb_involutive.
Qed.

Lemma digit_value_range c : isdigit c = true -> (0 <= digit_value c <= 9)%Z.
Proof.
  intro H. unfold digit_value. char_arith. lia.
Qed.

Lemma digits_value_nonneg s : forall acc,
  (0 <= acc)%Z -> str_forall isdigit s = true -> (0 <= digits_value acc s)%Z.
Proof.
  induction s as [|c s IH]; cbn [digits_value str_forall];
    intros acc Ha H; [exact Ha|].
  apply andb_true_iff in H. destruct H as [Hc Hs].
  pose proof (digit_value_range c Hc). apply IH; [lia|exact Hs].
Qed.

(** X2.  Integer mode reads the number spelt by all the digits of the
    text, whatever stands between them (separators, units, a minus
    sign): with one to 4300 digits it returns that number, which is
    never negative; with none, or with more than [int()] converts, it
    returns nothing.  It never raises. *)
Theorem to_int_reads_all_digits :
  forall s : string,
    _to_int (Some s)
    = (if negb (str_truthy (str_filter isdigit s))
          || Nat.ltb int_max_str_digits (String.length (str_filter isdigit s))
       then Ret None
       else Ret (Some (digits_value 0 (str_filter isdigit s))))
    /\ (forall n, _to_int (Some s) = Ret (Some n) -> (0 <= n)%Z).
Proof.
  intro s.
  assert (E : _to_int (Some s)
    = (if negb (str_truthy (str_filter isdigit s))
          || Nat.ltb int_max_str_digits (String.length (str_filter isdigit s))
       then Ret None
       else Ret (Some (digits_value 0 (str_filter isdigit s))))).
  { unfold _to_int. rewrite digits_removed.
    destruct (str_truthy s) eqn:Ts.
    - cbn [negb]. pose proof (filter_forall isdigit s) as D.
      destruct (str_truthy (str_filter isdigit s)) eqn:F; [|reflexivity].
      cbn [str_truthy negb orb]. rewrite (int_of_digits _ F D).
      destruct (Nat.ltb _ _); reflexivity.
    - destruct s; [reflexivity|discriminate]. }
  split; [exact E|].
  intros n H. rewrite E in H.
  pose proof (filter_forall isdigit s) as D.
  destruct (negb _ || _)%bool; [discriminate|].
  injection H as <-. now apply digits_value_nonneg.
Qed.

Lemma search_digits_first pre run rest :
  Ref.digit_free pre = true -> Ref.digit_run run ->
  Ref.stops_run isdigit rest ->
  search_digits (pre ++ run ++ rest) = Some run.
Proof.
  intros Hp [Tr Dr] Hr. unfold Ref.digit_free in Hp.
  induction pre as [|c pre IH]; cbn [append].
  - destruct run as [|d run]; [discriminate|].
    cbn [append search_digits]. cbn in Dr.
    apply andb_true_iff in Dr. destruct Dr as [Hd Dr]. rewrite Hd.
    change (String d (run ++ rest)) with (String d run ++ rest).
    rewrite (HarvesterSpec.span_append isdigit (String d run) rest); [reflexivity| |exact Hr].
    cbn. now rewrite Hd, Dr.
  - cbn in Hp. apply andb_true_iff in Hp. destruct Hp as [Hc Hp].
    apply negb_true_iff in Hc. cbn [search_digits]. rewrite Hc. now apply IH.
Qed.

(** X3.  Safe-int mode reads the first run of digits and nothing after
    it: for a text made of a digit-free prefix, a run of at most 4300
    digits and a rest that does not start with a digit, it returns the
    number spelt by the run. *)
Theorem to_int_safe_reads_first_run :
  forall pre run rest : string,
    Ref.digit_free pre = true -> Ref.digit_run run ->
    Ref.stops_run isdigit rest ->
    (String.length run <= int_max_str_digits)%nat ->
    _to_int_safe (Some (pre ++ run ++ rest))
    = Ret (Some (digits_value 0 run)).
Proof.
  intros pre run rest Hp Hr Hs L. unfold _to_int_safe.
  assert (T : str_truthy (pre ++ run ++ rest) = true).
  { destruct Hr as [Tr _]. destruct pre; [|reflexivity].
    destruct run; [discriminate|reflexivity]. }
  rewrite T, (search_digits_first pre run rest Hp Hr Hs). cbn [negb].
  destruct Hr as [Tr Dr]. rewrite (int_of_digits run Tr Dr).
  destruct (Nat.ltb_spec int_max_str_digits (String.length run)); [lia|].
  reflexivity.
Qed.

Lemma to_int_safe_reads_first_run_witness :
  _to_int_safe (Some "ca. 3 rom (2 soverom)") = Ret (Some 3%Z).
Proof.
  exact (to_int_safe_reads_first_run "ca. " "3" " rom (2 soverom)"
           eq_refl (conj eq_refl eq_refl) eq_refl
           ltac:(vm_compute; lia)).
Defined.

Lemma digit_free_filter (keep : ascii -> bool) s :
  (forall c, isdigit c = true -> keep c = true) ->
  Ref.digit_free (str_filter keep s) = Ref.digit_free s.
Proof.
  intro K. unfold Ref.digit_free.
  induction s as [|c s IH]; cbn [str_filter str_forall]; [reflexivity|].
  destruct (keep c) eqn:Kc; cbn [str_forall]; rewrite IH; [reflexivity|].
  destruct (isdigit c) eqn:Dc; [|reflexivity].
  rewrite (K c Dc) in Kc. discriminate.
Qed.

Lemma digit_free_replace s :
  Ref.digit_free (replace_char "," "." s) = Ref.digit_free s.
Proof.
  unfold Ref.digit_free, replace_char.
  induction s as [|c s IH]; cbn [str_map str_forall]; [reflexivity|].
  rewrite IH. destruct (Ascii.eqb_spec c ","); [subst c|]; reflexivity.
Qed.

Lemma float_keeps_digits c : isdigit c = true -> negb (_FLOAT c) = true.
Proof. intro H. unfold _FLOAT. now rewrite negb_involutive, H. Qed.

Lemma span_digits_cons c s :
  isdigit c = true ->
  exists r, fst (span isdigit (String c s)) = String c r
            /\ snd (span isdigit (String c s)) = snd (span isdigit s).
Proof.
  intro H. cbn [span]. rewrite H. destruct (span isdigit s). cbn. eauto.
Qed.

Lemma match_fraction_run s f : match_fraction s = Some f -> Ref.digit_run f.
Proof.
  unfold match_fraction. destruct s as [|c r]; [discriminate|].
  destruct (Ascii.eqb_spec c "."); [subst c|].
  - destruct (span_spec isdigit r) as (_ & F & _).
    destruct (fst (span isdigit r)) as [|d f'] eqn:E; [discriminate|].
    intro H. injection H as <-. split; [reflexivity|exact F].
  - destruct c as [[] [] [] [] [] [] [] []]; try discriminate;
      exfalso; apply n; reflexivity.
Qed.

Lemma search_decimal_shape s :
  match search_decimal s with
  | None => Ref.digit_free s = true
  | Some lit =>
      Ref.digit_free s = false
      /\ Ref.digit_run (integral lit)
      /\ match fractional lit with
         | Some f => Ref.digit_run f
         | None => True
         end
  end.
Proof.
  unfold Ref.digit_free.
  induction s as [|c s IH]; cbn [search_decimal str_forall]; [reflexivity|].
  destruct (isdigit c) eqn:Hc; cbn [negb andb].
  - destruct (span_spec isdigit (String c s)) as (_ & F & _).
    destruct (span_digits_cons c s Hc) as (r & E1 & _).
    destruct (span isdigit (String c s)) as [ip rest]. cbn [fst] in *.
    cbn [integral fractional]. split; [reflexivity|]. split.
    + split; [now rewrite E1|exact F].
    + destruct (match_fraction rest) as [f|] eqn:M; [|exact I].
      exact (match_fraction_run rest f M).
  - destruct (search_decimal s); exact IH.
Qed.

(** X4.  Decimal mode returns nothing exactly for a text without any
    digit.  Otherwise it returns a literal made of a non-empty run of
    digits and, optionally, a dot and a second non-empty run of digits:
    a sign is never part of it, and [float()] accepts it, so the mode
    never raises. *)
Theorem to_float_m2_shape :
  forall s : string,
    (_to_float_m2 (Some s) = Ret None <-> Ref.digit_free s = true)
    /\ (forall lit,
          _to_float_m2 (Some s) = Ret (Some lit) ->
          Ref.digit_run (integral lit)
          /\ match fractional lit with
             | Some f => Ref.digit_run f
             | None => True
             end)
    /\ exists r, _to_float_m2 (Some s) = Ret r.
Proof.
  intro s.
  pose proof (search_decimal_shape
                (replace_char "," "." (re_sub_empty _FLOAT s))) as S.
  unfold re_sub_empty in S.
  rewrite digit_free_replace,
    (digit_free_filter _ s float_keeps_digits) in S.
  unfold _to_float_m2, re_sub_empty.
  destruct s as [|c s].
  - cbn. repeat split; eauto; discriminate.
  - cbn [str_truthy negb].
    destruct (search_decimal _) as [lit|].
    + destruct S as (N & I1 & I2). repeat split; eauto.
      * discriminate.
      * intro H. rewrite H in N. discriminate.
      * injection H as <-. apply I1.
      * injection H as <-. apply I1.
      * injection H as <-. exact I2.
    + repeat split; eauto; discriminate.
Qed.

Lemma rstrip_fixed_tail c s :
  rstrip (String c s) = String c s -> rstrip s = s.
Proof.
  rewrite rstrip_cons. destruct (rstrip s) as [|d r].
  - destruct (isspace c); [discriminate|]. intro H. now injection H as <-.
  - intro H. now injection H as <-.
Qed.

Lemma rstrip_fixed_last c : rstrip (String c "") = String c "" ->
  isspace c = false.
Proof. cbn. destruct (isspace c); [discriminate|reflexivity]. Qed.

(** After the white space of a trimmed part comes a character that is
    not white space: the greedy [\s+] never has to give any back. *)
Lemma match_spaces_rest_head s :
  rstrip s = s ->
  match s with
  | EmptyString => True
  | String c _ =>
      isspace c = true ->
      exists d g, match_spaces_rest s = Some (String d g)
                  /\ isspace d = false
  end.
Proof.
  induction s as [|c s IH]; [exact (fun _ => I)|].
  intros R Hc. pose proof (rstrip_fixed_tail c s R) as R'.
  rewrite match_spaces_rest_unfold, Hc.
  destruct s as [|c' s'].
  - rewrite (rstrip_fixed_last c R) in Hc. discriminate.
  - destruct (isspace c') eqn:Hc'.
    + destruct (IH R' eq_refl) as (d & g & -> & Hd). eauto.
    + rewrite match_spaces_rest_unfold, Hc'.
      unfold match_dot_plus. cbn [span].
      assert (D : isdot c' = true).
      { unfold isdot. apply negb_true_iff.
        destruct (Ascii.eqb_spec c' newline) as [->|]; [|reflexivity].
        discriminate Hc'. }
      rewrite D. destruct (span isdot s') as [a b]. cbn. eauto.
Qed.

Lemma strip_clean_of_head d g :
  isspace d = false -> Ref.clean_text (strip (String d g)).
Proof.
  intro H. split; [|apply strip_trimmed].
  unfold strip. cbn [lstrip]. rewrite H.
  destruct (rstrip_cons_nonspace d g H) as [r ->]. reflexivity.
Qed.

Lemma match_postal_city_normal p pc g :
  rstrip p = p -> match_postal_city p = Some (pc, g) ->
  String.length pc = 4 /\ str_forall isdigit pc = true
  /\ Ref.clean_text (strip g).
Proof.
  intros R H. unfold match_postal_city in H.
  destruct p as [|a [|b [|c [|d r]]]]; try discriminate.
  destruct (isdigit a && isdigit b && isdigit c && isdigit d) eqn:D;
    [|discriminate].
  pose proof (rstrip_fixed_tail _ _ (rstrip_fixed_tail _ _
             (rstrip_fixed_tail _ _ (rstrip_fixed_tail _ _ R)))) as R'.
  pose proof (match_spaces_rest_head r R') as M.
  destruct r as [|w r']; [discriminate|].
  destruct (isspace w) eqn:W.
  - destruct (M eq_refl) as (x & g' & E & X). rewrite E in H.
    injection H as <- <-. split; [reflexivity|]. split.
    + cbn [str_forall]. now rewrite andb_true_r, <- !andb_assoc in *.
    + now apply strip_clean_of_head.
  - rewrite match_spaces_rest_unfold, W in H. discriminate.
Qed.

Lemma search_postal_city_normal p pc g :
  rstrip p = p -> search_postal_city p = Some (pc, g) ->
  String.length pc = 4 /\ str_forall isdigit pc = true
  /\ Ref.clean_text (strip g).
Proof.
  induction p as [|c p IH]; rewrite search_postal_city_unfold.
  - cbn. discriminate.
  - intros R. destruct (match_postal_city (String c p)) as [[pc' g']|] eqn:M.
    + intro H. injection H as <- <-.
      exact (match_postal_city_normal _ _ _ R M).
    + apply IH. exact (rstrip_fixed_tail c p R).
Qed.

Lemma normal_with_postal (a line : option string) pc t :
  (forall l, line = Some l -> Ref.trimmed l) ->
  String.length pc = 4 -> str_forall isdigit pc = true -> Ref.clean_text t ->
  (Some pc = None <-> Some t = None)
  /\ (forall pc', Some pc = Some pc' ->
        String.length pc' = 4 /\ str_forall isdigit pc' = true)
  /\ (forall t', Some t = Some t' -> Ref.clean_text t')
  /\ (forall l, line = Some l -> Ref.trimmed l)
  /\ (line = None -> Some pc = None -> a = None \/ a = Some "").
Proof.
  intros Hl L D C.
  split; [split; discriminate|].
  split; [intros pc' E; injection E as <-; auto|].
  split; [intros t' E; now injection E as <-|].
  split; [exact Hl|discriminate].
Qed.

Lemma normal_without_postal (a : option string) l :
  Ref.trimmed l ->
  (@None string = None <-> @None string = None)
  /\ (forall pc', None = Some pc' ->
        String.length pc' = 4 /\ str_forall isdigit pc' = true)
  /\ (forall t', None = Some t' -> Ref.clean_text t')
  /\ (forall l', Some l = Some l' -> Ref.trimmed l')
  /\ (Some l = None -> @None string = None -> a = None \/ a = Some "").
Proof.
  intro T.
  split; [tauto|].
  split; [discriminate|].
  split; [discriminate|].
  split; [intros l' E; now injection E as <-|discriminate].
Qed.

(** X5.  What [_split_address] returns is normalised: the postal code
    and the city are present together or not at all, a postal code is
    exactly four digits, a city is a non-empty text without white space
    at either end, a street line has no white space at either end, and
    all three are absent only for no text or the empty text. *)
Theorem split_address_normal_form :
  forall addr : option string,
    let '(line, postal, city) := _split_address addr in
    (postal = None <-> city = None)
    /\ (forall pc, postal = Some pc ->
          String.length pc = 4 /\ str_forall isdigit pc = true)
    /\ (forall t, city = Some t -> Ref.clean_text t)
    /\ (forall l, line = Some l -> Ref.trimmed l)
    /\ (line = None -> postal = None -> addr = None \/ addr = Some "").
Proof.
  intros [a|]; [|cbn; intuition discriminate].
  unfold _split_address. destruct a as [|c a].
  { cbn. intuition discriminate. }
  cbn [str_truthy negb].
  pose proof (split_not_nil "," (String c a)) as NN.
  destruct (split "," (String c a)) as [|q0 [|q1 qs]]; [congruence| |];
    cbn [map].
  - pose proof (strip_trimmed q0) as T0.
    destruct (search_postal_city (strip q0)) as [[pc g]|] eqn:S.
    + destruct (search_postal_city_normal _ _ _ (proj2 T0) S) as (L & D & C).
      apply normal_with_postal; auto. discriminate.
    + now apply normal_without_postal.
  - pose proof (strip_trimmed q0) as T0. pose proof (strip_trimmed q1) as T1.
    destruct (search_postal_city (strip q1)) as [[pc g]|] eqn:S.
    + destruct (search_postal_city_normal _ _ _ (proj2 T1) S) as (L & D & C).
      apply normal_with_postal; auto.
      intros l E. now injection E as <-.
    + now apply normal_without_postal.
Qed.

End ParserProps.

(** ** Page queries and the record *)

Module ExtractorProps.

Import PyFacts ParserProps Parser Zendriver.

(** X6.  [_text] raises only what the page query raises, a time-out
    excepted.  A time-out, an absent element and an element whose text
    cannot be read (both [text] and [text_content()] raise) all give
    nothing; otherwise it returns the cleaned text of the element, read
    from [text] or, when that raises, from [text_content()].  A text it
    returns is non-empty and has no white space at either end. *)
Theorem text_errors_and_shape :
  forall (tab : Tab) (selector : string),
    (forall e, _text tab selector = Raise e
               <-> select tab selector = Raise e /\ e <> TimeoutError)
    /\ (forall t, _text tab selector = Ret (Some t) -> Ref.clean_text t)
    /\ (select tab selector = Raise TimeoutError ->
        _text tab selector = Ret None)
    /\ (select tab selector = Ret None -> _text tab selector = Ret None)
    /\ (forall el,
          select tab selector = Ret (Some el) ->
          (forall t, text el = Ret t -> _text tab selector = Ret (_clean t))
          /\ (forall e t,
                text el = Raise e -> text_content el = Ret t ->
                _text tab selector = Ret (_clean t))
          /\ (forall e e',
                text el = Raise e -> text_content el = Raise e' ->
                _text tab selector = Ret None)).
Proof.
  intros tab selector. unfold _text.
  destruct (select tab selector) as [[el|]|e'] eqn:S; cbn.
  - split; [|split; [|split; [|split]]].
    + intro e. split; [discriminate|]. intros [H _]. discriminate.
    + intros t H. injection H as H. exact (clean_some_text _ _ H).
    + discriminate.
    + discriminate.
    + intros el' E. injection E as <-. unfold element_text.
      split; [|split].
      * intros t T. now rewrite T.
      * intros e t T C. now rewrite T, C.
      * intros e e'' T C. now rewrite T, C.
  - split; [|split; [|split; [|split]]]; try discriminate; try reflexivity.
    intro e. split; [discriminate|]. intros [H _]. discriminate.
  - destruct e'; cbn;
      (split; [|split; [|split; [|split]]];
       [intro e; split;
        [intro H; first [discriminate H
                        |injection H as <-; split; [reflexivity|discriminate]]
        |intros [H N]; injection H as <-;
         first [reflexivity|exfalso; now apply N]]
       |discriminate
       |first [reflexivity|discriminate]
       |discriminate
       |discriminate]).
Qed.

Lemma cleaned_texts_clean els : Forall Ref.clean_text (cleaned_texts els).
Proof.
  induction els as [|el els IH]; cbn [cleaned_texts]; [constructor|].
  destruct (_clean (element_text el)) as [t|] eqn:C; [|exact IH].
  constructor; [exact (clean_some_text _ _ C)|exact IH].
Qed.

Lemma cleaned_texts_length els :
  (List.length (cleaned_texts els) <= List.length els)%nat.
Proof.
  induction els as [|el els IH]; cbn [cleaned_texts List.length]; [lia|].
  destruct (_clean (element_text el)); cbn [List.length]; lia.
Qed.

Lemma cleaned_texts_flat_map els :
  cleaned_texts els
  = flat_map (fun el => match _clean (element_text el) with
                        | Some t => [t]
                        | None => []
                        end) els.
Proof.
  induction els as [|el els IH]; cbn [cleaned_texts flat_map]; [reflexivity|].
  rewrite IH. now destruct (_clean (element_text el)).
Qed.

(** X7.  [_all_texts] raises only what the page query raises, a
    time-out and a protocol error excepted: these two, like a query that
    returns [None], give the empty list.  Otherwise it returns, in the
    order of the elements found, the cleaned text of every element that
    has one.  Every text of the list is non-empty without white space at
    either end, and there are at most as many texts as elements. *)
Theorem all_texts_errors_and_shape :
  forall (tab : Tab) (selector : string),
    (forall e, _all_texts tab selector = Raise e
               <-> select_all tab selector = Raise e
                   /\ e <> TimeoutError /\ e <> ProtocolException)
    /\ (forall texts, _all_texts tab selector = Ret texts ->
          Forall Ref.clean_text texts
          /\ forall els, select_all tab selector = Ret (Some els) ->
                         (List.length texts <= List.length els)%nat)
    /\ (select_all tab selector = Raise TimeoutError ->
        _all_texts tab selector = Ret [])
    /\ (select_all tab selector = Raise ProtocolException ->
        _all_texts tab selector = Ret [])
    /\ (select_all tab selector = Ret None -> _all_texts tab selector = Ret [])
    /\ (forall els,
          select_all tab selector = Ret (Some els) ->
          _all_texts tab selector
          = Ret (flat_map (fun el => match _clean (element_text el) with
                                     | Some t => [t]
                                     | None => []
                                     end) els)).
Proof.
  intros tab selector. unfold _all_texts.
  destruct (select_all tab selector) as [[els|]|e'] eqn:S; cbn.
  - split; [|split; [|split; [|split; [|split]]]]; try discriminate.
    + intro e. split; [discriminate|]. intros [H _]. discriminate.
    + intros t H. injection H as <-. split; [apply cleaned_texts_clean|].
      intros els' E. injection E as <-. apply cleaned_texts_length.
    + intros els' E. injection E as <-. now rewrite cleaned_texts_flat_map.
  - split; [|split; [|split; [|split; [|split]]]];
      try discriminate; try reflexivity.
    + intro e. split; [discriminate|]. intros [H _]. discriminate.
    + intros t H. injection H as <-. split; [constructor|discriminate].
  - destruct e'; cbn;
      (split; [|split; [|split; [|split; [|split]]]];
       [intro e; split;
        [intro H; first [discriminate H
                        |injection H as <-;
                         split; [reflexivity|split; discriminate]]
        |intros [H [N1 N2]]; injection H as <-;
         first [reflexivity|exfalso; now apply N1|exfalso; now apply N2]]
       |intros t H;
        first [discriminate H
              |injection H as <-; split; [constructor|discriminate]]
       |first [reflexivity|discriminate]
       |first [reflexivity|discriminate]
       |discriminate
       |discriminate]).
Qed.

Lemma status_of_texts_sold texts :
  status_of_texts texts = "sold"
  <-> Exists (fun t => lower (strip t) = "solgt") texts.
Proof.
  induction texts as [|t rest IH]; cbn [status_of_texts].
  - split; [discriminate|]. intro H. inversion H.
  - destruct (String.eqb_spec (lower (strip t)) "solgt") as [E|N].
    + destruct t as [|c t']; [discriminate E|]. cbn [str_truthy andb].
      split; [intros _; now constructor|reflexivity].
    + rewrite andb_false_r, IH. split.
      * intro H. now constructor 2.
      * intro H. inversion H; subst; [contradiction|assumption].
Qed.

(** X8.  [_status] answers ["sold"] exactly when one of the texts of the
    detail region, trimmed and in lower case, reads [solgt]; in every
    other case in which the texts can be listed it answers ["active"]. *)
Theorem status_sold_exactly :
  forall tab : Tab,
    (_status tab = Ret (Some "sold")
     <-> exists texts,
           _all_texts tab (testid "object-details" ++ " *") = Ret texts
           /\ Exists (fun t => lower (strip t) = "solgt") texts)
    /\ (_status tab = Ret (Some "active")
        <-> exists texts,
              _all_texts tab (testid "object-details" ++ " *") = Ret texts
              /\ Forall (fun t => lower (strip t) <> "solgt") texts).
Proof.
  intro tab. unfold _status.
  destruct (_all_texts tab (testid "object-details" ++ " *"))
    as [texts|e]; cbn [bind].
  - pose proof (status_of_texts_sold texts) as S.
    destruct (ExtractorSpec.status_of_texts_cases texts) as [E|E];
      rewrite E; split; split.
    + intros _. exists texts. split; [reflexivity|]. now apply S.
    + reflexivity.
    + discriminate.
    + intros (texts' & T & F). injection T as <-.
      apply S in E. apply Exists_exists in E. destruct E as (t & I & L).
      rewrite Forall_forall in F. now destruct (F t I).
    + discriminate.
    + intros (texts' & T & X). injection T as <-. apply S in X.
      rewrite E in X. discriminate.
    + intros _. exists texts. split; [reflexivity|].
      apply Forall_forall. intros t I L.
      assert (X : Exists (fun t => lower (strip t) = "solgt") texts)
        by (apply Exists_exists; eauto).
      apply S in X. rewrite E in X. discriminate.
    + reflexivity.
  - split; split; try discriminate; intros (texts & T & _); discriminate.
Qed.

Lemma strip_alpha s : str_forall isalpha_ascii s = true -> strip s = s.
Proof.
  intro H. unfold strip.
  assert (N : str_forall (fun c => negb (isspace c)) s = true).
  { revert H. apply forall_impl. intros c Hc. apply negb_true_iff.
    char_arith; unfold isspace;
      repeat rewrite orb_false_iff; repeat split;
      first [apply andb_false_iff; (left; apply N.leb_gt; lia)
                                   || (right; apply N.leb_gt; lia)
            |apply N.eqb_neq; lia]. }
  now rewrite (lstrip_no_space s N), (rstrip_no_space s N).
Qed.

Lemma clean_fixed s :
  str_truthy s = true -> strip s = s -> _clean (Some s) = Some s.
Proof.
  intros T E. unfold _clean. cbn [opt_truthy].
  destruct s as [|c s]; [discriminate|]. cbn [str_truthy negb].
  now rewrite E.
Qed.

Section Record.

Variables point geometry : Type.
Variable Point : value -> value -> result point.
Variable shape : value -> result geometry.
Variable contains : geometry -> point -> result bool.
Variable browser_get : string -> result Tab.
Variable session_get : string -> result Schema.aiohttp.response.

Local Abbreviation fields_of :=
  (parsed_fields point geometry Point shape contains browser_get
     session_get).

(** X9.  The fields the parser computes for a record keep the identity
    of its listing: the code, URL and category it passes to
    [Property(...)] are the cleaned fields of the metadata it was given,
    so for a well-formed category and code they are those very texts;
    the page was loaded from the metadata's URL; and the address
    argument is always present. *)
Theorem parsed_fields_keep_listing_identity :
  forall (meta : Meta.RealestateMetadata) (neighbourhoods_geojson : value)
         (fields : Schema.Property),
    fields_of meta neighbourhoods_geojson = Ret fields ->
    Schema.finn_code fields = _clean (Some (Meta.finn_id meta))
    /\ Schema.url fields = _clean (Some (Meta.url meta))
    /\ Schema.category fields = _clean (Some (Meta.category meta))
    /\ (exists tab, browser_get (Meta.url meta) = Ret tab)
    /\ (exists a, Schema.address fields = Some a)
    /\ (Ref.well_formed (Meta.category meta) (Meta.finn_id meta) ->
        Schema.finn_code fields = Some (Meta.finn_id meta)
        /\ Schema.category fields = Some (Meta.category meta)).
Proof.
  intros meta geo fields H. unfold parsed_fields in H.
  apply bind_ret_inv in H. destruct H as (tab & Etab & H).
  apply bind_ret_inv in H. destruct H as (title & _ & H).
  apply bind_ret_inv in H. destruct H as (subtitle & _ & H).
  apply bind_ret_inv in H. destruct H as (status_val & _ & H).
  apply bind_ret_inv in H. destruct H as (address_line & _ & H).
  destruct (_split_address address_line) as [[line postal_code] city].
  repeat (apply bind_ret_inv in H; destruct H as (? & _ & H)).
  injection H as <-. cbn.
  split; [reflexivity|]. split; [reflexivity|]. split; [reflexivity|].
  split; [eauto|]. split; [eauto|].
  intros (Tc & Ac & Tf & Df). split.
  - apply clean_fixed; [exact Tf|now apply strip_digits].
  - apply clean_fixed; [exact Tc|now apply strip_alpha].
Qed.

End Record.

Lemma parsed_fields_keep_listing_identity_witness :
  exists fields,
    parsed_fields _ _ Ref.toy_Point Ref.toy_shape Ref.toy_contains
      (fun _ => Ret Ref.silent_page) Ref.one_result_service
      (Ref.listing "1") VNone = Ret fields
    /\ Schema.finn_code fields = Some "1".
Proof.
  eexists. split; [vm_compute; reflexivity|].
  exact (proj1 (proj2 (proj2 (proj2 (proj2 (proj2
    (parsed_fields_keep_listing_identity _ _ Ref.toy_Point Ref.toy_shape
       Ref.toy_contains (fun _ => Ret Ref.silent_page)
       Ref.one_result_service (Ref.listing "1") VNone _ eq_refl)))))
    (conj eq_refl (conj eq_refl (conj eq_refl eq_refl))))).
Defined.

End ExtractorProps.

(** ** Harvesting, paging and the crawl *)

Module CrawlProps.

Import PyFacts HarvesterSpec NavigatorSpec Scraper Zendriver.

(** X10.  The listing pattern matches exactly the hrefs of the form
    [/realestate/<letters>/ad.html?finnkode=<digits>], with or without
    the origin [https://www.finn.no] in front and with or without one
    line feed at the very end, and reads the letters and the digits off
    them. *)
Theorem realestate_pattern_exact :
  forall url cat finncode : string,
    REALESTATE_PATTERN_match url = Some (cat, finncode)
    <-> Ref.well_formed cat finncode
        /\ (url = Ref.listing_path cat finncode
            \/ url = Ref.listing_path cat finncode ++ String newline ""
            \/ url = Ref.origin ++ Ref.listing_path cat finncode
            \/ url = Ref.origin ++ Ref.listing_path cat finncode
                     ++ String newline "").
Proof.
  intros url cat finncode. unfold REALESTATE_PATTERN_match. split.
  - destruct (strip_prefix "https://www.finn.no" url) as [rest|] eqn:E.
    + apply strip_prefix_spec in E.
      destruct (match_path rest) as [m|] eqn:M.
      * intro H. injection H as ->. apply match_path_spec in M.
        destruct M as [W [-> | ->]]; (split; [exact W|]); subst url; auto.
      * intro H. apply match_path_spec in H. tauto.
    + intro H. apply match_path_spec in H. tauto.
  - intros [W H].
    assert (M1 : match_path (Ref.listing_path cat finncode)
                 = Some (cat, finncode))
      by (apply match_path_spec; auto).
    assert (M2 : match_path (Ref.listing_path cat finncode
                             ++ String newline "")
                 = Some (cat, finncode))
      by (apply match_path_spec; auto).
    destruct H as [-> | [-> | [-> | ->]]].
    + unfold Ref.listing_path at 1. cbn [append strip_prefix Ascii.eqb
        Bool.eqb]. exact M1.
    + unfold Ref.listing_path at 1. cbn [append strip_prefix Ascii.eqb
        Bool.eqb]. exact M2.
    + unfold Ref.origin.
      rewrite (proj2 (strip_prefix_spec "https://www.finn.no" _
                        (Ref.listing_path cat finncode)) eq_refl).
      now rewrite M1.
    + unfold Ref.origin.
      rewrite (proj2 (strip_prefix_spec "https://www.finn.no" _
                        (Ref.listing_path cat finncode ++ String newline ""))
                 eq_refl).
      now rewrite M2.
Qed.

Lemma pattern_well_formed url cat finncode :
  REALESTATE_PATTERN_match url = Some (cat, finncode) ->
  Ref.well_formed cat finncode.
Proof.
  unfold REALESTATE_PATTERN_match.
  destruct (strip_prefix "https://www.finn.no" url) as [rest|].
  - destruct (match_path rest) as [m|] eqn:M.
    + intro H. injection H as ->. now apply match_path_spec in M.
    + intro H. now apply match_path_spec in H.
  - intro H. now apply match_path_spec in H.
Qed.

Lemma harvest_href_harvested href :
  Forall Ref.harvested (harvest_href href)
  /\ (List.length (harvest_href href) <= 1)%nat.
Proof.
  unfold harvest_href.
  destruct (REALESTATE_PATTERN_match href) as [[cat finncode]|] eqn:M.
  - split; [|cbn; lia]. constructor; [|constructor].
    split; [exact (pattern_well_formed _ _ _ M)|].
    exists href. split; [reflexivity|exact M].
  - split; [constructor|cbn; lia].
Qed.

Lemma flat_map_harvested hrefs :
  Forall Ref.harvested (flat_map harvest_href hrefs)
  /\ (List.length (flat_map harvest_href hrefs) <= List.length hrefs)%nat.
Proof.
  induction hrefs as [|h hrefs [IH1 IH2]]; cbn [flat_map List.length].
  - split; [constructor|lia].
  - destruct (harvest_href_harvested h) as [H1 H2]. split.
    + apply Forall_app. split; assumption.
    + rewrite length_app. lia.
Qed.

Lemma find_realestate_meta_harvested tab metas :
  _find_realestate_meta tab = Ret metas ->
  Forall Ref.harvested metas
  /\ exists els, select_all tab "a[href]" = Ret (Some els)
                 /\ (List.length metas <= List.length els)%nat.
Proof.
  unfold _find_realestate_meta. intro H.
  apply bind_ret_inv in H. destruct H as (a & Ea & H).
  apply bind_ret_inv in H. destruct H as (els & Ee & H).
  destruct a as [els'|]; [|discriminate]. injection Ee as ->.
  destruct (harvest_in_order els metas H) as (hrefs & F & ->).
  destruct (flat_map_harvested hrefs) as [H1 H2].
  split; [exact H1|]. exists els. split; [exact Ea|].
  rewrite (Forall2_length F). exact H2.
Qed.

(** X11.  Every entry [_find_realestate_meta] returns has a non-empty
    category of letters and a non-empty code of digits, both read off an
    anchor's href that matches the listing pattern, and as URL the
    origin followed by that href; an anchor yields at most one entry. *)
Theorem harvested_entries_well_formed :
  forall (tab : Tab) (metas : list Meta.RealestateMetadata),
    _find_realestate_meta tab = Ret metas ->
    Forall Ref.harvested metas
    /\ exists els, select_all tab "a[href]" = Ret (Some els)
                   /\ (List.length metas <= List.length els)%nat.
Proof. exact find_realestate_meta_harvested. Qed.

Lemma harvested_entries_well_formed_witness :
  Forall Ref.harvested [Ref.listing "1"; Ref.listing "2"].
Proof.
  exact (proj1 (harvested_entries_well_formed Ref.only_page
                  [Ref.listing "1"; Ref.listing "2"] eq_refl)).
Defined.

Lemma attr_raises name items e :
  attr name items = Raise e -> e = KeyError.
Proof.
  induction items as [|[k v] items IH]; cbn [attr].
  - intro H. now injection H.
  - destruct (String.eqb name k); [discriminate|exact IH].
Qed.

Lemma harvest_raises els e :
  harvest els = Raise e
  <-> e = KeyError
      /\ Exists (fun el => attr "href" (attrs el) = Raise KeyError) els.
Proof.
  induction els as [|el els IH]; cbn [harvest].
  - split; [discriminate|]. intros [_ H]. inversion H.
  - destruct (attr "href" (attrs el)) as [h|e'] eqn:A; cbn [bind].
    + destruct (harvest els) as [ms|e''] eqn:Hv; cbn [bind].
      * split; [discriminate|]. intros [E X].
        inversion X as [? ? B|? ? B]; subst; [congruence|].
        discriminate (proj2 IH (conj eq_refl B)).
      * split.
        -- intro H. injection H as <-.
           destruct (proj1 IH eq_refl) as [-> X]. split; [reflexivity|].
           now constructor 2.
        -- intros [-> X]. inversion X as [? ? B|? ? B]; subst; [congruence|].
           exact (proj2 IH (conj eq_refl B)).
    + pose proof (attr_raises _ _ _ A) as ->. split.
      * intro H. injection H as <-. split; [reflexivity|]. now constructor.
      * intros [-> _]. reflexivity.
Qed.

(** X12.  [_find_realestate_meta] raises in three cases only: the query
    for the anchors raises (that exception), the query returns [None]
    ([TypeError]), or some anchor has no [href] ([KeyError]); in the
    last case the entries of all the other anchors are lost with it. *)
Theorem find_realestate_meta_errors :
  forall (tab : Tab) (e : exn),
    _find_realestate_meta tab = Raise e
    <-> select_all tab "a[href]" = Raise e
        \/ (select_all tab "a[href]" = Ret None /\ e = TypeError)
        \/ (exists els,
              select_all tab "a[href]" = Ret (Some els)
              /\ e = KeyError
              /\ Exists (fun el => attr "href" (attrs el) = Raise KeyError)
                   els).
Proof.
  intros tab e. unfold _find_realestate_meta.
  destruct (select_all tab "a[href]") as [[els|]|e'] eqn:S;
    cbn [bind elements].
  - rewrite harvest_raises. split.
    + intros [E X]. right. right. exists els. auto.
    + intros [H|[[H _]|(els' & H & E & X)]]; try discriminate.
      injection H as <-. auto.
  - split.
    + intro H. injection H as <-. right. left. auto.
    + intros [H|[[_ ->]|(els' & H & _)]]; try discriminate. reflexivity.
  - split.
    + intro H. injection H as <-. now left.
    + intros [H|[[H _]|(els' & H & _)]]; try discriminate.
      now injection H as <-.
Qed.

Lemma fold_max_in rest : forall x,
  fold_left Z.max rest x = x \/ In (fold_left Z.max rest x) rest.
Proof.
  induction rest as [|y rest IH]; intro x; cbn [fold_left]; [now left|].
  destruct (IH (Z.max x y)) as [E|I].
  - rewrite E. destruct (Z.max_spec x y) as [[_ ->]|[_ ->]];
      [right; now left|now left].
  - right. now right.
Qed.

(** X13.  With a readable current-page number and readable page links,
    [_has_more_pages] raises [ValueError] when there is no page link at
    all, and otherwise answers whether the largest page-link number is
    at least the current one. *)
Theorem has_more_pages_compares_maximum :
  forall (tab : Tab) (el : Element) (els : list Element) (c : Z)
         (pages : list Z),
    select tab ("a[aria-current=" ++ dq ++ "page" ++ dq ++ "]")
    = Ret (Some el) ->
    int_text el = Ret c ->
    select_all tab ("a[aria-label^=" ++ dq ++ "Side " ++ dq ++ "]")
    = Ret (Some els) ->
    int_texts els = Ret pages ->
    (pages = [] -> _has_more_pages tab = Raise ValueError)
    /\ (pages <> [] ->
        exists m, In m pages /\ (forall p, In p pages -> (p <= m)%Z)
                  /\ _has_more_pages tab = Ret (c <=? m)%Z).
Proof.
  intros tab el els c pages E1 E2 E3 E4.
  assert (U : _has_more_pages tab
              = (max_page <- max_of pages ;; Ret (max_page >=? c)%Z)%py).
  { unfold _has_more_pages. rewrite E1. cbn [bind]. rewrite E2. cbn [bind].
    rewrite E3. cbn [bind elements]. rewrite E4. reflexivity. }
  rewrite U. split.
  - intros ->. reflexivity.
  - intro N. destruct pages as [|x rest]; [congruence|].
    exists (fold_left Z.max rest x). split; [|split].
    + destruct (fold_max_in rest x) as [-> | I]; [now left|now right].
    + intros p I. exact (max_of_ge (x :: rest) _ p eq_refl I).
    + cbn [max_of bind]. f_equal. apply Z.geb_leb.
Qed.

Lemma has_more_pages_compares_maximum_witness :
  exists m, In m [1%Z] /\ (forall p, In p [1%Z] -> (p <= m)%Z)
            /\ _has_more_pages Ref.only_page = Ret (1 <=? m)%Z.
Proof.
  exact (proj2 (has_more_pages_compares_maximum Ref.only_page
                  (Ref.page_link "1") [Ref.page_link "1"] 1 [1%Z]
                  eq_refl eq_refl eq_refl eq_refl)
           ltac:(discriminate)).
Defined.

Section Crawl.

Variable browser_get : string -> result Tab.

(** X14.  With a positive [max_pages] the crawl ends, and no later than
    on page [max_pages]: started on a page up to that limit, it loads at
    most the pages up to it. *)
Theorem crawl_respects_max_pages :
  forall (fuel : nat) (filters : dict) (m start : Z)
         (metas : list Meta.RealestateMetadata),
    (0 < m)%Z -> (start <= m)%Z -> (Z.to_nat (m - start) < fuel)%nat ->
    exists c,
      crawl_loop browser_get fuel filters (Some m) start metas = Some c
      /\ (start <= page c <= m)%Z.
Proof.
  induction fuel as [|fuel IH]; intros filters m start metas Hm Hs Hf; [lia|].
  cbn [crawl_loop].
  destruct (browser_get (page_url filters start)) as [tab|e]; cbn [bind];
    [|eexists; split; [reflexivity|cbn; lia]].
  destruct (_find_realestate_meta tab) as [ms|e]; cbn [bind];
    [|eexists; split; [reflexivity|cbn; lia]].
  destruct (_has_more_pages tab) as [[|]|e];
    try (eexists; split; [reflexivity|cbn; lia]).
  unfold max_pages_reached.
  destruct (Z.eqb_spec m 0) as [|_]; [lia|]. cbn [negb andb].
  destruct (Z.geb_spec start m) as [G|L].
  - eexists; split; [reflexivity|cbn; lia].
  - destruct (IH filters m (start + 1)%Z (metas ++ ms)%list Hm)
      as (c & E & R); [lia| |].
    + replace (m - start)%Z with (Z.succ (m - (start + 1))) in Hf by lia.
      rewrite Z2Nat.inj_succ in Hf by lia. lia.
    + exists c. split; [exact E|lia].
Qed.

(** X15.  Whatever ends the crawl, an exception included, its metadata
    is what it started with followed by the harvests of the pages it
    loaded, in page order, the page it stopped on last. *)
Theorem crawl_gathers_page_harvests :
  forall (fuel : nat) (filters : dict) (max_pages : option Z) (start : Z)
         (metas : list Meta.RealestateMetadata) (c : crawl),
    crawl_loop browser_get fuel filters max_pages start metas = Some c ->
    (start <= page c)%Z
    /\ property_meta c
       = (metas ++ flat_map (Ref.page_harvest browser_get filters)
                     (Ref.pages_from start
                        (Z.to_nat (page c - start + 1))))%list.
Proof.
  induction fuel as [|fuel IH]; intros filters max_pages start metas c H;
    [discriminate|].
  cbn [crawl_loop] in H.
  assert (One : forall ms,
            Ref.page_harvest browser_get filters start = ms ->
            forall c',
              page c' = start -> property_meta c' = (metas ++ ms)%list ->
              (start <= page c')%Z
              /\ property_meta c'
                 = (metas ++ flat_map (Ref.page_harvest browser_get filters)
                      (Ref.pages_from start
                         (Z.to_nat (page c' - start + 1))))%list).
  { intros ms E c' P M. rewrite P, M.
    replace (start - start + 1)%Z with 1%Z by lia.
    change (Z.to_nat 1) with 1%nat. cbn [Ref.pages_from flat_map].
    rewrite E, app_nil_r. split; [lia|reflexivity]. }
  unfold Ref.page_harvest in One.
  destruct (browser_get (page_url filters start)) as [tab|e]; cbn [bind] in *.
  2:{ injection H as <-. apply (One []); [reflexivity|reflexivity|].
      cbn. now rewrite app_nil_r. }
  destruct (_find_realestate_meta tab) as [ms|e]; cbn [bind] in *.
  2:{ injection H as <-. apply (One []); [reflexivity|reflexivity|].
      cbn. now rewrite app_nil_r. }
  specialize (One ms eq_refl).
  destruct (_has_more_pages tab) as [[|]|e];
    try (injection H as <-; apply One; reflexivity).
  destruct (max_pages_reached max_pages start);
    [injection H as <-; apply One; reflexivity|].
  destruct (IH _ _ _ _ _ H) as [L E]. split; [lia|].
  rewrite E.
  replace (page c - start + 1)%Z with (Z.succ (page c - (start + 1) + 1))
    by lia.
  rewrite Z2Nat.inj_succ by lia. cbn [Ref.pages_from flat_map].
  assert (P : Ref.page_harvest browser_get filters start = ms).
  { clear - One. destruct (One {| reason := NoMorePages; page := start;
                                  property_meta := (metas ++ ms)%list |}
                             eq_refl eq_refl) as [_ Q].
    cbn [page property_meta] in Q.
    replace (start - start + 1)%Z with 1%Z in Q by lia.
    change (Z.to_nat 1) with 1%nat in Q. cbn [Ref.pages_from flat_map] in Q.
    rewrite app_nil_r in Q. apply app_inv_head in Q.
    symmetry. exact Q. }
  rewrite P, app_assoc. reflexivity.
Qed.

(** X16.  [max_pages = 0] is no limit at all: the crawl runs as it does
    with [max_pages = None]. *)
Theorem crawl_zero_max_pages_is_unlimited :
  forall (fuel : nat) (filters : dict) (start : Z)
         (metas : list Meta.RealestateMetadata),
    crawl_loop browser_get fuel filters (Some 0%Z) start metas
    = crawl_loop browser_get fuel filters None start metas.
Proof.
  induction fuel as [|fuel IH]; intros filters start metas; [reflexivity|].
  cbn [crawl_loop].
  destruct (browser_get (page_url filters start)) as [tab|e]; cbn [bind];
    [|reflexivity].
  destruct (_find_realestate_meta tab) as [ms|e]; cbn [bind]; [|reflexivity].
  destruct (_has_more_pages tab) as [[|]|e]; try reflexivity.
  cbn [max_pages_reached Z.eqb negb andb]. apply IH.
Qed.

End Crawl.

Lemma crawl_respects_max_pages_witness :
  exists c,
    crawl_loop Ref.one_page_site 3 [] (Some 2%Z) 1 [] = Some c
    /\ (1 <= page c <= 2)%Z.
Proof.
  exact (crawl_respects_max_pages Ref.one_page_site 3 [] 2 1 []
           ltac:(lia) ltac:(lia) ltac:(vm_compute; lia)).
Defined.

Lemma crawl_gathers_page_harvests_witness :
  [Ref.listing "1"; Ref.listing "2"]
  = ([] ++ flat_map (Ref.page_harvest Ref.strict_one_page_site [])
             (Ref.pages_from 1 2))%list.
Proof.
  exact (proj2 (crawl_gathers_page_harvests Ref.strict_one_page_site 2 []
                  None 1 [] _ eq_refl)).
Defined.

End CrawlProps.

(** ** Request URLs *)

Module UrlProps.

Import PyFacts AddressSpec Scraper.

Lemma quote_plus_piece c :
  str_forall Ref.escaped_char
    (if Ascii.eqb c " " then "+" else quote_char (fun _ => false) c) = true.
Proof. destruct c as [[] [] [] [] [] [] [] []]; vm_compute; reflexivity. Qed.

Lemma quote_piece c :
  str_forall Ref.quoted_char (quote_char (fun c => Ascii.eqb c "/") c) = true.
Proof. destruct c as [[] [] [] [] [] [] [] []]; vm_compute; reflexivity. Qed.

Lemma escaped_not_separator c :
  Ref.escaped_char c = true ->
  Ascii.eqb c "=" = false /\ Ascii.eqb c "&" = false.
Proof.
  destruct c as [[] [] [] [] [] [] [] []]; vm_compute; intro H;
    first [discriminate H|split; reflexivity].
Qed.

Lemma quote_plus_escaped s : str_forall Ref.escaped_char (quote_plus s) = true.
Proof.
  induction s as [|c s IH]; cbn [quote_plus]; [reflexivity|].
  now rewrite forall_append, quote_plus_piece, IH.
Qed.

Lemma count_char_append c a b :
  Ref.count_char c (a ++ b) = (Ref.count_char c a + Ref.count_char c b)%nat.
Proof.
  induction a as [|x a IH]; cbn [append Ref.count_char]; [reflexivity|].
  rewrite IH. lia.
Qed.

Lemma count_char_none (p : ascii -> bool) c s :
  (forall x, p x = true -> Ascii.eqb x c = false) ->
  str_forall p s = true -> Ref.count_char c s = 0%nat.
Proof.
  intro P. induction s as [|x s IH]; cbn [str_forall Ref.count_char];
    [reflexivity|].
  intro H. apply andb_true_iff in H. destruct H as [Hx Hs].
  now rewrite (P x Hx), (IH Hs).
Qed.

Lemma escaped_is_query s :
  str_forall Ref.escaped_char s = true -> str_forall Ref.query_char s = true.
Proof.
  apply forall_impl. intros c H. unfold Ref.query_char. now rewrite H.
Qed.

Lemma pair_shape k v :
  let pair := quote_plus k ++ "=" ++ quote_plus v in
  str_forall Ref.query_char pair = true
  /\ Ref.count_char "=" pair = 1%nat /\ Ref.count_char "&" pair = 0%nat.
Proof.
  cbn zeta.
  pose proof (quote_plus_escaped k) as Ek.
  pose proof (quote_plus_escaped v) as Ev.
  assert (Z1 : forall t, str_forall Ref.escaped_char t = true ->
                         Ref.count_char "=" t = 0%nat)
    by (intro t; apply count_char_none;
        intros x Hx; apply (escaped_not_separator x Hx)).
  assert (Z2 : forall t, str_forall Ref.escaped_char t = true ->
                         Ref.count_char "&" t = 0%nat)
    by (intro t; apply count_char_none;
        intros x Hx; apply (escaped_not_separator x Hx)).
  split; [|split].
  - rewrite !forall_append, (escaped_is_query _ Ek), (escaped_is_query _ Ev).
    reflexivity.
  - rewrite !count_char_append, (Z1 _ Ek), (Z1 _ Ev). reflexivity.
  - rewrite !count_char_append, (Z2 _ Ek), (Z2 _ Ev). reflexivity.
Qed.

Lemma urlencode_shape (d : dict) :
  str_forall Ref.query_char (urlencode d) = true
  /\ Ref.count_char "=" (urlencode d) = List.length d
  /\ Ref.count_char "&" (urlencode d) = Nat.pred (List.length d).
Proof.
  unfold urlencode.
  induction d as [|[k v] d (I1 & I2 & I3)]; [repeat split|].
  destruct (pair_shape k v) as (P1 & P2 & P3).
  destruct d as [|kv d]; [cbn [map join fst snd List.length]; auto|].
  change (join "&" (map (fun kv0 => quote_plus (fst kv0) ++ "="
                                    ++ quote_plus (snd kv0))
                      ((k, v) :: kv :: d)))
    with ((quote_plus k ++ "=" ++ quote_plus v) ++ "&"
          ++ join "&" (map (fun kv0 => quote_plus (fst kv0) ++ "="
                                       ++ quote_plus (snd kv0)) (kv :: d))).
  split; [|split].
  - rewrite forall_append, P1, forall_append, I1. reflexivity.
  - rewrite count_char_append, P2, count_char_append, I2. reflexivity.
  - rewrite count_char_append, P3, count_char_append, I3. reflexivity.
Qed.

(** X17.  The search URL is the base URL followed by a query that holds
    nothing but unreserved characters, [+], [%], [=] and [&], with
    exactly one [&] and one [=] for each filter: whatever characters the
    keys and values contain, they cannot break the query apart. *)
Theorem generate_base_url_shape :
  forall filters : dict,
    exists query,
      _generate_base_url filters = FINN_BASE_URL ++ query
      /\ str_forall Ref.query_char query = true
      /\ Ref.count_char "&" query = List.length filters
      /\ Ref.count_char "=" query = List.length filters.
Proof.
  intro filters. unfold _generate_base_url.
  destruct filters as [|kv d].
  - exists "". rewrite append_empty. repeat split.
  - exists ("&" ++ urlencode (kv :: d)).
    destruct (urlencode_shape (kv :: d)) as (U1 & U2 & U3).
    split; [reflexivity|]. split; [|split].
    + rewrite forall_append, U1. reflexivity.
    + rewrite count_char_append, U3. reflexivity.
    + rewrite count_char_append, U2. reflexivity.
Qed.

Lemma quote_quoted s :
  str_forall Ref.quoted_char (quote s) = true.
Proof.
  unfold quote. induction s as [|c s IH]; cbn [quote_with]; [reflexivity|].
  now rewrite forall_append, quote_piece, IH.
Qed.

(** X18.  The geocoding request is the service's search address
    followed by the quoted search text, which holds nothing but
    unreserved characters, [/] and [%]: the spaces that join the address
    parts, and any other character, travel escaped. *)
Theorem geocoding_request_is_quoted :
  forall self : Schema.Address,
    exists q,
      Ref.request self = "https://ws.geonorge.no/adresser/v1/sok?sok=" ++ q
      /\ str_forall Ref.quoted_char q = true
      /\ Ref.count_char " " q = 0%nat.
Proof.
  intro self. exists (quote (join " " (Schema.search_parts self))).
  split; [reflexivity|]. split; [apply quote_quoted|].
  apply (count_char_none Ref.quoted_char); [|apply quote_quoted].
  intro x. destruct x as [[] [] [] [] [] [] [] []]; vm_compute; intro H;
    first [discriminate H|reflexivity].
Qed.

End UrlProps.

(** ** Geocoding and the neighbourhood search *)

Module GeoProps.

Import PyFacts Schema.

(** X19.  [resolve_lat_long] asks for the address text only, so the
    coordinates it stores do not change the request: a second call that
    gets the same answer leaves the address as the first call left it
    and returns the same. *)
Theorem resolve_lat_long_idempotent :
  forall (session_get : string -> result aiohttp.response) (self : Address),
    let after := fst (resolve_lat_long session_get self) in
    Ref.request after = Ref.request self
    /\ resolve_lat_long session_get after
       = (after, snd (resolve_lat_long session_get self)).
Proof.
  intros session_get self. cbn zeta.
  assert (P : forall la lo,
            search_parts (set_lat_lon self la lo) = search_parts self)
    by reflexivity.
  assert (R : forall la lo,
            Ref.request (set_lat_lon self la lo) = Ref.request self)
    by reflexivity.
  rewrite (GeoSpec.resolve_lat_long_spec session_get self).
  destruct (search_parts self) as [|p parts] eqn:S.
  - cbn [fst snd]. split; [reflexivity|].
    rewrite GeoSpec.resolve_lat_long_spec, S. reflexivity.
  - destruct (Ref.first_result_coordinates (session_get (Ref.request self)))
      as [[la lo]|] eqn:C; cbn [fst snd].
    + split; [apply R|].
      rewrite GeoSpec.resolve_lat_long_spec, P, R, C. reflexivity.
    + split; [reflexivity|].
      rewrite GeoSpec.resolve_lat_long_spec, S, C. reflexivity.
Qed.

Section Neighbourhood.

Variables point geometry : Type.
Variable Point : value -> value -> result point.
Variable shape : value -> result geometry.
Variable contains : geometry -> point -> result bool.

(** X20.  [find_neighbourhood] raises only before its loop: when both
    coordinates are truthy and either the point cannot be built or the
    features of the collection cannot be listed.  It then leaves the
    address as it was and runs no test.  Nothing a feature does - a
    missing geometry, a shape that cannot be built, a failing
    containment test - makes it raise. *)
Theorem find_neighbourhood_raises_only_before_loop :
  forall (self : Address) (geojson_data : value) (e : exn),
    let '(after, tests_run, outcome) :=
      find_neighbourhood point geometry Point shape contains self
        geojson_data in
    (outcome = Raise e
     <-> truthy (lat self) = true /\ truthy (lon self) = true
         /\ (Point (lon self) (lat self) = Raise e
             \/ (exists pt, Point (lon self) (lat self) = Ret pt)
                /\ (fs <- get_default geojson_data "features" (VList []) ;;
                    iterate fs)%py = Raise e))
    /\ (outcome = Raise e -> after = self /\ tests_run = []).
Proof.
  intros self geojson_data e. unfold find_neighbourhood.
  destruct (truthy (lat self)) eqn:La; cbn [negb orb].
  2:{ split; [split; [discriminate|intros (H & _); discriminate]
             |discriminate]. }
  destruct (truthy (lon self)) eqn:Lo; cbn [negb orb].
  2:{ split; [split; [discriminate|intros (_ & H & _); discriminate]
             |discriminate]. }
  destruct (Point (lon self) (lat self)) as [pt|e1].
  - destruct (fs <- get_default geojson_data "features" (VList []) ;;
              iterate fs)%py as [features|e2].
    + destruct (visit_all point geometry shape contains pt features self [])
        as [self' ts].
      split; [split; [discriminate|]|discriminate].
      intros (_ & _ & [H|[_ H]]); discriminate.
    + split; [|auto]. split.
      * intro H. injection H as <-. repeat split. right. split; eauto.
      * intros (_ & _ & [H|[_ H]]); [discriminate|]. now injection H as <-.
  - split; [|auto]. split.
    + intro H. injection H as <-. repeat split. now left.
    + intros (_ & _ & [H|[[pt H] _]]); [|discriminate].
      now injection H as <-.
Qed.

End Neighbourhood.

End GeoProps.

(** ** From the crawl to the records *)

Module PipelineProps.

Import PyFacts Scraper Zendriver.

Lemma crawl_loop_harvested browser_get fuel :
  forall filters max_pages start metas c,
    Forall Ref.harvested metas ->
    crawl_loop browser_get fuel filters max_pages start metas = Some c ->
    Forall Ref.harvested (property_meta c).
Proof.
  induction fuel as [|fuel IH]; intros filters max_pages start metas c F H;
    [discriminate|].
  cbn [crawl_loop] in H.
  destruct (browser_get (page_url filters start)) as [tab|e]; cbn [bind] in H;
    [|injection H as <-; exact F].
  destruct (_find_realestate_meta tab) as [ms|e] eqn:M; cbn [bind] in H;
    [|injection H as <-; exact F].
  assert (F' : Forall Ref.harvested (metas ++ ms)%list).
  { apply Forall_app. split; [exact F|].
    exact (proj1 (CrawlProps.find_realestate_meta_harvested tab ms M)). }
  destruct (_has_more_pages tab) as [[|]|e];
    try (injection H as <-; exact F').
  destruct (max_pages_reached max_pages start);
    [injection H as <-; exact F'|].
  exact (IH _ _ _ _ _ F' H).
Qed.

Lemma distinct_from_subset xs : forall acc m,
  In m (Ref.distinct_from Meta.__eq__ acc xs) -> In m acc \/ In m xs.
Proof.
  intros acc m H.
  destruct (DedupSpec.distinct_from_first xs acc m H)
    as [I|(b & a & -> & _)]; [now left|].
  right. apply in_or_app. right. now left.
Qed.

Section Listings.

Variable browser_get : string -> result Tab.

(** X21.  The listings a run hands to the extractor are harvested
    entries of its crawl, one for each finn-code: each has a well-formed
    category and code and the origin followed by its href as URL, and no
    two of them share a code. *)
Theorem listings_are_harvested_entries :
  forall (seed : string -> Z) (fuel : nat) (filters : dict)
         (max_pages : option Z) (c : crawl),
    crawl_loop browser_get fuel filters max_pages 1 [] = Some c ->
    (Z.of_nat (List.length (property_meta c)) <= 2 ^ 60)%Z ->
    exists ys,
      properties browser_get seed fuel filters max_pages = Some ys
      /\ Forall Ref.harvested ys
      /\ NoDup (Ref.codes ys)
      /\ (forall m, In m ys -> In m (property_meta c))
      /\ (forall code, In code (Ref.codes (property_meta c)) ->
                       In code (Ref.codes ys)).
Proof.
  intros seed fuel filters max_pages c H B.
  destruct (DedupSpec.deduplicate_distinct seed (property_meta c) B)
    as (ys & D & Pm).
  pose proof (crawl_loop_harvested browser_get fuel filters max_pages 1 [] c
                (Forall_nil _) H) as Fc.
  assert (Sub : forall m, In m ys -> In m (property_meta c)).
  { intros m I. apply (Permutation_in _ Pm) in I.
    destruct (distinct_from_subset _ _ _ I) as [[]|I']. exact I'. }
  exists ys. unfold properties. rewrite H.
  split; [exact D|]. split; [|split; [|split; [exact Sub|]]].
  - apply Forall_forall. intros m I.
    rewrite Forall_forall in Fc. exact (Fc m (Sub m I)).
  - apply (Permutation_NoDup
             (Permutation_sym (Permutation_map Meta.finn_id Pm))).
    apply (DedupSpec.distinct_from_nodup (property_meta c) []). constructor.
  - intros code I.
    apply (Permutation_in _ (Permutation_sym
                               (Permutation_map Meta.finn_id Pm))).
    apply DedupSpec.distinct_from_codes. now right.
Qed.

End Listings.

Lemma listings_are_harvested_entries_witness :
  exists ys,
    properties Ref.small_site Ref.seed_a 3 [] (Some 1%Z) = Some ys
    /\ Forall Ref.harvested ys /\ NoDup (Ref.codes ys).
Proof.
  destruct (listings_are_harvested_entries Ref.small_site Ref.seed_a 3 []
              (Some 1%Z)
              {| reason := MaxPagesReached; page := 1;
                 property_meta := [Ref.listing "1"; Ref.listing "2"] |}
              eq_refl)
    as (ys & E & F & N & _).
  - cbn. lia.
  - exists ys. auto.
Defined.

Section Records.

Variables point geometry : Type.
Variable Point : value -> value -> result point.
Variable shape : value -> result geometry.
Variable contains : geometry -> point -> result bool.
Variable browser_get : string -> result Tab.
Variable session_get : string -> result Schema.aiohttp.response.

Local Abbreviation parse :=
  (Parser.parse_property_page point geometry Point shape contains browser_get
     session_get).
Local Abbreviation parse_all' :=
  (parse_all point geometry Point shape contains browser_get session_get).

(** The call [Property(...)] of the parser fails whatever the values:
    [raw_meta] is required and is not passed. *)
Lemma new_property_fails fields :
  Schema.new_property Parser.passed_keywords fields = Raise ValidationError.
Proof. reflexivity. Qed.

Lemma parse_raises meta neighbourhoods :
  exists e, parse meta neighbourhoods = Raise e.
Proof.
  unfold Parser.parse_property_page.
  destruct (Parser.parsed_fields _ _ _ _ _ _ _ _ _) as [fields|e];
    cbn [bind]; [|eauto].
  rewrite new_property_fails. eauto.
Qed.

Lemma parse_all_empty neighbourhoods ys : parse_all' neighbourhoods ys = [].
Proof.
  induction ys as [|m ys IH]; cbn [parse_all]; [reflexivity|].
  destruct (parse_raises m neighbourhoods) as [e ->]. exact IH.
Qed.

(** X24.  No listing ever becomes a record.  [parse_property_page]
    raises on every listing: when the page has been read and all the
    fields computed, the call [Property(...)] fails validation, because
    the required field [raw_meta] is not passed.  The loop of [scrape]
    drops every listing whose parse raises, so the list of records it
    hands to the exporters is empty whatever the pages hold. *)
Theorem scrape_hands_on_no_record :
  (forall meta neighbourhoods,
     exists e, parse meta neighbourhoods = Raise e)
  /\ (forall meta neighbourhoods fields,
        Parser.parsed_fields point geometry Point shape contains browser_get
          session_get meta neighbourhoods = Ret fields ->
        parse meta neighbourhoods = Raise ValidationError)
  /\ (forall neighbourhoods ys, parse_all' neighbourhoods ys = [])
  /\ (forall seed fuel filters max_pages neighbourhoods records,
        scrape point geometry Point shape contains browser_get session_get
          seed fuel filters max_pages neighbourhoods = Some records ->
        records = []).
Proof.
  split; [exact parse_raises|]. split; [|split; [exact parse_all_empty|]].
  - intros meta neighbourhoods fields H.
    unfold Parser.parse_property_page. rewrite H. apply new_property_fails.
  - intros seed fuel filters max_pages neighbourhoods records H.
    unfold scrape in H.
    destruct (properties _ _ _ _ _) as [ys|]; [|discriminate].
    injection H as <-. apply parse_all_empty.
Qed.

End Records.

Lemma scrape_hands_on_no_record_witness :
  exists fields,
    Parser.parsed_fields _ _ Ref.toy_Point Ref.toy_shape Ref.toy_contains
      Ref.small_site Ref.no_service (Ref.listing "1") VNone = Ret fields
    /\ Parser.parse_property_page _ _ Ref.toy_Point Ref.toy_shape
         Ref.toy_contains Ref.small_site Ref.no_service (Ref.listing "1")
         VNone = Raise ValidationError
    /\ scrape _ _ Ref.toy_Point Ref.toy_shape Ref.toy_contains Ref.small_site
         Ref.no_service Ref.seed_a 3 [] (Some 1%Z) VNone = Some [].
Proof.
  eexists. split; [vm_compute; reflexivity|]. split.
  - exact (proj1 (proj2 (scrape_hands_on_no_record _ _ Ref.toy_Point
                           Ref.toy_shape Ref.toy_contains Ref.small_site
                           Ref.no_service))
             (Ref.listing "1") VNone _ eq_refl).
  - vm_compute. reflexivity.
Defined.

End PipelineProps.

(** ** The exported row *)

Module ExportProps.

Import CsvExporter.

Lemma export_columns_distinct : NoDup _EXPORT_COL_ORDER.
Proof.
  assert (E : nodup string_dec _EXPORT_COL_ORDER = _EXPORT_COL_ORDER)
    by (vm_compute; reflexivity).
  rewrite <- E. apply NoDup_nodup.
Qed.

(** X22.  The row built for a record has exactly the export columns, in
    export order and each once, so ordering the frame by
    [_EXPORT_COL_ORDER] neither drops nor adds a column; its categorical
    cells hold text or nothing and its numeric cells numbers or
    nothing; and the address cell is the street line alone. *)
Theorem flatten_property_columns :
  forall p : Schema.Property,
    map fst (_flatten_property p) = _EXPORT_COL_ORDER
    /\ NoDup _EXPORT_COL_ORDER
    /\ (forall k, In k _CATEGORICAL_COLS ->
          exists c, Ref.column k (_flatten_property p) = Some c
                    /\ Ref.is_text c = true)
    /\ (forall k, In k _NUMERIC_COLS ->
          exists c, Ref.column k (_flatten_property p) = Some c
                    /\ Ref.is_numeric c = true)
    /\ Ref.column "address" (_flatten_property p)
       = Some (match Schema.address p with
               | Some a => option_map AStr (Schema.line a)
               | None => None
               end).
Proof.
  intro p. split; [reflexivity|]. split; [exact export_columns_distinct|].
  split; [|split; [|reflexivity]].
  - intros k H. cbn in H.
    repeat (destruct H as [<-|H]; [eexists; split; [reflexivity|]|]);
      try contradiction;
      cbn; match goal with |- context [option_map _ ?f] => destruct f end;
      reflexivity.
  - intros k H. cbn in H.
    repeat (destruct H as [<-|H]; [eexists; split; [reflexivity|]|]);
      try contradiction;
      cbn; match goal with |- context [option_map _ ?f] => destruct f end;
      reflexivity.
Qed.

End ExportProps.

(** ** Addresses in the usual layout *)

Module AddressProps.

Import PyFacts AddressSpec ParserProps Parser.

Lemma span_all_dot s : str_forall isdot s = true -> span isdot s = (s, "").
Proof.
  intro H. rewrite <- (append_empty s) at 1.
  now apply HarvesterSpec.span_append.
Qed.

Lemma match_spaces_rest_exact gap c t :
  str_truthy gap = true -> Ref.blank gap = true ->
  isspace c = false -> str_forall isdot (String c t) = true ->
  match_spaces_rest (gap ++ String c t) = Some (String c t).
Proof.
  intros T B Hc D. unfold Ref.blank in B.
  assert (Start : match_spaces_rest (String c t) = None)
    by (rewrite match_spaces_rest_unfold; now rewrite Hc).
  assert (Dot : match_dot_plus (String c t) = Some (String c t))
    by (unfold match_dot_plus; now rewrite (span_all_dot _ D)).
  induction gap as [|w gap IH]; [discriminate|].
  cbn [str_forall] in B. apply andb_true_iff in B. destruct B as [Hw B].
  cbn [append]. rewrite match_spaces_rest_unfold, Hw.
  destruct gap as [|w' gap'].
  - cbn [append]. now rewrite Start.
  - now rewrite (IH eq_refl B).
Qed.

Lemma rstrip_append_fixed a b :
  str_truthy b = true -> rstrip b = b -> rstrip (a ++ b) = a ++ b.
Proof.
  intros T R. induction a as [|c a IH]; [exact R|].
  cbn [append]. rewrite rstrip_cons, IH.
  destruct (a ++ b) eqn:E; [|reflexivity].
  destruct a; [cbn in E; subst b|]; discriminate.
Qed.

Lemma lstrip_append_blank lead s :
  Ref.blank lead = true -> lstrip (lead ++ s) = lstrip s.
Proof.
  unfold Ref.blank. induction lead as [|c lead IH]; [reflexivity|].
  cbn [str_forall append lstrip]. intro H.
  apply andb_true_iff in H. destruct H as [Hc H]. now rewrite Hc, IH.
Qed.

Lemma digits_comma_free s :
  str_forall isdigit s = true -> Ref.comma_free s = true.
Proof.
  unfold Ref.comma_free. apply forall_impl. intros c H.
  apply negb_true_iff, Ascii.eqb_neq. intros ->. discriminate H.
Qed.

Section Layout.

Variables lead code gap city : string.
Hypothesis lead_blank : Ref.blank lead = true.
Hypothesis code_length : String.length code = 4.
Hypothesis code_digits : str_forall isdigit code = true.
Hypothesis gap_present : str_truthy gap = true.
Hypothesis gap_blank : Ref.blank gap = true.
Hypothesis city_clean : Ref.clean_text city.
Hypothesis city_line : str_forall isdot city = true.

Lemma city_head :
  exists c t, city = String c t /\ isspace c = false.
Proof.
  destruct city_clean as [T [L _]].
  destruct city as [|c t]; [discriminate|].
  exists c, t. split; [reflexivity|].
  cbn [lstrip] in L. destruct (isspace c) eqn:Hc; [|reflexivity].
  exfalso. assert (Len : (String.length (lstrip t) <= String.length t)%nat).
  { clear. induction t as [|x t IH]; cbn; [lia|].
    destruct (isspace x); cbn; lia. }
  rewrite L in Len. cbn in Len. lia.
Qed.

Lemma postal_city_found :
  search_postal_city (code ++ gap ++ city) = Some (code, city).
Proof.
  destruct city_head as (c & t & E & Hc).
  rewrite search_postal_city_unfold.
  destruct code as [|a [|b [|x [|d [|]]]]]; try discriminate code_length.
  cbn [append match_postal_city]. cbn [str_forall] in code_digits.
  rewrite !andb_true_r, !andb_assoc in code_digits. rewrite code_digits.
  rewrite E in *.
  now rewrite (match_spaces_rest_exact gap c t gap_present gap_blank Hc
                 city_line).
Qed.

Lemma part_stripped :
  strip (lead ++ code ++ gap ++ city) = code ++ gap ++ city.
Proof.
  unfold strip. rewrite (lstrip_append_blank lead _ lead_blank).
  assert (L : lstrip (code ++ gap ++ city) = code ++ gap ++ city).
  { destruct code as [|a r]; [discriminate code_length|].
    cbn [append]. apply lstrip_fixed.
    cbn [str_forall] in code_digits.
    apply andb_true_iff in code_digits. destruct code_digits as [Ha _].
    exact (isdigit_not_space a Ha). }
  rewrite L, <- !append_assoc.
  destruct city_clean as [T [_ R]]. now apply rstrip_append_fixed.
Qed.

Lemma part_comma_free :
  Ref.comma_free city = true ->
  Ref.comma_free (lead ++ code ++ gap ++ city) = true.
Proof.
  intro C. unfold Ref.comma_free in *. rewrite !forall_append.
  fold (Ref.comma_free lead). fold (Ref.comma_free code).
  fold (Ref.comma_free gap).
  now rewrite (blank_comma_free lead lead_blank),
    (digits_comma_free code code_digits), (blank_comma_free gap gap_blank), C.
Qed.

End Layout.

(** X23.  An address in the usual layout is taken apart as written:
    from a street line without comma, a comma, a four-digit postal code,
    white space and a city on one line, [_split_address] returns the
    trimmed street line, the postal code and the city; from the postal
    code and city alone it returns these two and no street line. *)
Theorem split_address_usual_layout :
  forall street lead code gap city : string,
    Ref.comma_free street = true -> Ref.blank lead = true ->
    String.length code = 4 -> str_forall isdigit code = true ->
    str_truthy gap = true -> Ref.blank gap = true ->
    Ref.clean_text city -> str_forall isdot city = true ->
    Ref.comma_free city = true ->
    _split_address (Some (street ++ "," ++ lead ++ code ++ gap ++ city))
    = (Some (strip street), Some code, Some city)
    /\ _split_address (Some (lead ++ code ++ gap ++ city))
       = (None, Some code, Some city).
Proof.
  intros street lead code gap city Cs Bl Lc Dc Tg Bg Cc Dl Ccity.
  pose proof (part_stripped lead code gap city Bl Lc Dc Cc) as St.
  pose proof (postal_city_found code gap city Lc Dc Tg Bg Cc Dl) as Fd.
  pose proof (part_comma_free lead code gap city Bl Dc Bg Ccity) as Cf.
  assert (Sc : strip city = city) by (apply strip_of_trimmed, Cc).
  split.
  - rewrite <- (append_empty (lead ++ code ++ gap ++ city)).
    rewrite (split_several street (lead ++ code ++ gap ++ city) "" Cs Cf
               (or_introl eq_refl)).
    now rewrite St, Fd, Sc.
  - rewrite (split_single (lead ++ code ++ gap ++ city)); [|
      destruct lead; [destruct code; [discriminate Lc|]|]; reflexivity
      |exact Cf].
    now rewrite St, Fd, Sc.
Qed.

Lemma split_address_usual_layout_witness :
  _split_address (Some "Jerikoveien 91B, 0575  Oslo")
  = (Some "Jerikoveien 91B", Some "0575", Some "Oslo").
Proof.
  exact (proj1 (split_address_usual_layout "Jerikoveien 91B" " " "0575"
                  "  " "Oslo" eq_refl eq_refl eq_refl eq_refl eq_refl
                  eq_refl (conj eq_refl (conj eq_refl eq_refl)) eq_refl
                  eq_refl)).
Defined.

End AddressProps.
